(** * veo_backend: quota ledger, job store and generation orchestrator

    A shallow embedding of the JavaScript services of the repository
    (config/index.js, services/quotaService.js, services/veoService.js,
    routes/videoRoutes.js) together with the properties of the design
    specification that they decide.

    Conventions of the embedding.
    - A JavaScript [Map] keyed by strings is a [gmap string _]; a plain
      object with an open set of keys (a job record, the provider
      parameters) is a [gmap string Value].
    - JavaScript numbers that the code only ever uses as integers
      (counters, millisecond timestamps, validated request integers) are
      [Z]; this is exact inside the safe-integer range of a double.
    - The wall clock, the UUID generator, the inference provider and the
      object storage are inputs of the functions that consult them.
    - A [throw] is the [inl] side of a sum. *)

From Stdlib Require Import ZArith Lia.
From stdpp Require Import gmap strings list fin_maps.

Local Open Scope string_scope.
Local Open Scope Z_scope.

#[local] Set Warnings "-register-all".

(** ** JavaScript values stored in records *)

(** [VTime ms] stands for the ISO-8601 string that
    [new Date(ms).toISOString()] produces; [new Date(s).getTime()] gives
    [ms] back. *)
Inductive Value :=
| VUndefined
| VNull
| VBool (b : bool)
| VNum (z : Z)
| VStr (s : string)
| VTime (ms : Z)
| VObj (fields : list (string * Value)).

(** JavaScript truthiness of the values above (an ISO date string is a
    non-empty string, an object is always truthy). *)
Definition truthy (v : Value) : bool :=
  match v with
  | VUndefined | VNull => false
  | VBool b => b
  | VNum z => negb (z =? 0)
  | VStr s => negb (String.eqb s "")
  | VTime _ => true
  | VObj _ => true
  end.

Definition truthy_str (s : string) : bool := negb (String.eqb s "").

(** A request field that the code tests against both [undefined] and
    [null]. *)
Inductive Nullable (A : Type) :=
| JUndefined
| JNull
| JVal (a : A).
Arguments JUndefined {A}.
Arguments JNull {A}.
Arguments JVal {A} a.

(** ** Configuration (config/index.js) *)

Inductive Mode := TEXT_TO_VIDEO | IMAGE_TO_VIDEO | VIDEO_TO_VIDEO.

Record SupportedModes := {
  sm_TEXT_TO_VIDEO : bool;
  sm_IMAGE_TO_VIDEO : bool;
  sm_VIDEO_TO_VIDEO : bool }.

Record ForwardParams := {
  fp_fps : bool;
  fp_seed : bool;
  fp_negativePrompt : bool;
  fp_generateAudio : bool;
  fp_resolution : bool }.

Record VeoDefaults := {
  d_durationSeconds : Z;
  d_aspectRatio : string;
  d_fps : Z;
  d_quality : string }.

Record VeoLimits := {
  maxDurationSeconds : Z;
  minDurationSeconds : Z;
  allowedDurations : list Z;
  allowedAspectRatios : list string;
  allowedFps : list Z;
  maxPromptLength : Z }.

Record Config := {
  gcp_projectId : string;
  gcp_region : string;
  veo_modelId : string;
  veo_supportedModes : SupportedModes;
  veo_forwardParams : ForwardParams;
  veo_defaults : VeoDefaults;
  veo_limits : VeoLimits;
  gcs_bucketName : string;
  gcs_signedUrlExpiration : Z;
  quota_dailyVideoGenerations : Z }.

(** The part of [process.env] that [config] reads.  [USER_DAILY_QUOTA]
    is kept as the result of [parseInt(_, 10)]: [None] is [NaN]. *)
Record Env := {
  GCP_PROJECT_ID : string;
  GCP_REGION : option string;
  VEO_MODEL_ID : option string;
  VEO_ENABLE_IMAGE_TO_VIDEO : option string;
  VEO_FORWARD_FPS : option string;
  VEO_FORWARD_SEED : option string;
  VEO_FORWARD_NEGATIVE_PROMPT : option string;
  VEO_FORWARD_GENERATE_AUDIO : option string;
  VEO_FORWARD_RESOLUTION : option string;
  GCS_BUCKET_NAME : string;
  USER_DAILY_QUOTA : option Z }.

(** [process.env.X === 'true'] and [process.env.X !== 'false']. *)
Definition env_is (v : option string) (lit : string) : bool :=
  match v with
  | Some s => String.eqb s lit
  | None => false
  end.

(** [parseInt(...) || dflt]: [NaN] and [0] are falsy. *)
Definition int_or (v : option Z) (dflt : Z) : Z :=
  match v with
  | Some z => if z =? 0 then dflt else z
  | None => dflt
  end.

(** [process.env.X || dflt]: unset and the empty string are falsy. *)
Definition env_or (v : option string) (dflt : string) : string :=
  match v with
  | Some s => if truthy_str s then s else dflt
  | None => dflt
  end.

Definition config (env : Env) : Config := {|
  gcp_projectId := GCP_PROJECT_ID env;
  gcp_region := env_or (GCP_REGION env) "us-central1";
  veo_modelId := env_or (VEO_MODEL_ID env) "veo-3.0-generate-preview";
  veo_supportedModes := {|
    sm_TEXT_TO_VIDEO := true;
    sm_IMAGE_TO_VIDEO := env_is (VEO_ENABLE_IMAGE_TO_VIDEO env) "true";
    sm_VIDEO_TO_VIDEO := false |};
  veo_forwardParams := {|
    fp_fps := env_is (VEO_FORWARD_FPS env) "true";
    fp_seed := negb (env_is (VEO_FORWARD_SEED env) "false");
    fp_negativePrompt := negb (env_is (VEO_FORWARD_NEGATIVE_PROMPT env) "false");
    fp_generateAudio := env_is (VEO_FORWARD_GENERATE_AUDIO env) "true";
    fp_resolution := env_is (VEO_FORWARD_RESOLUTION env) "true" |};
  veo_defaults := {|
    d_durationSeconds := 5;
    d_aspectRatio := "16:9";
    d_fps := 24;
    d_quality := "standard" |};
  veo_limits := {|
    maxDurationSeconds := 8;
    minDurationSeconds := 4;
    allowedDurations := [4; 6; 8];
    allowedAspectRatios := ["16:9"; "9:16"; "1:1"];
    allowedFps := [24; 30];
    maxPromptLength := 2000 |};
  gcs_bucketName := GCS_BUCKET_NAME env;
  gcs_signedUrlExpiration := 3600;
  quota_dailyVideoGenerations := int_or (USER_DAILY_QUOTA env) 50 |}.

(** An environment with nothing set but the two required variables. *)
Definition default_env : Env := {|
  GCP_PROJECT_ID := "demo-project";
  GCP_REGION := None;
  VEO_MODEL_ID := None;
  VEO_ENABLE_IMAGE_TO_VIDEO := None;
  VEO_FORWARD_FPS := None;
  VEO_FORWARD_SEED := None;
  VEO_FORWARD_NEGATIVE_PROMPT := None;
  VEO_FORWARD_GENERATE_AUDIO := None;
  VEO_FORWARD_RESOLUTION := None;
  GCS_BUCKET_NAME := "veo-videos";
  USER_DAILY_QUOTA := None |}.

(** A deployment with a daily limit of two, as in the end-to-end
    scenario of the specification. *)
Definition limit2_env : Env := {|
  GCP_PROJECT_ID := "demo-project";
  GCP_REGION := None;
  VEO_MODEL_ID := None;
  VEO_ENABLE_IMAGE_TO_VIDEO := None;
  VEO_FORWARD_FPS := None;
  VEO_FORWARD_SEED := None;
  VEO_FORWARD_NEGATIVE_PROMPT := None;
  VEO_FORWARD_GENERATE_AUDIO := None;
  VEO_FORWARD_RESOLUTION := None;
  GCS_BUCKET_NAME := "veo-videos";
  USER_DAILY_QUOTA := Some 2 |}.

(** A deployment that forwards every allowlisted parameter. *)
Definition forward_all_env : Env := {|
  GCP_PROJECT_ID := "demo-project";
  GCP_REGION := None;
  VEO_MODEL_ID := None;
  VEO_ENABLE_IMAGE_TO_VIDEO := Some "true";
  VEO_FORWARD_FPS := Some "true";
  VEO_FORWARD_SEED := None;
  VEO_FORWARD_NEGATIVE_PROMPT := None;
  VEO_FORWARD_GENERATE_AUDIO := Some "true";
  VEO_FORWARD_RESOLUTION := Some "true";
  GCS_BUCKET_NAME := "veo-videos";
  USER_DAILY_QUOTA := None |}.

(** ** Errors (utils/errors.js, services/quotaService.js) *)

Inductive AppError :=
| ValidationError (message : string)
| NotFoundError (message : string)
| VeoApiError (message : string)
| UnsupportedModeError (mode : Mode)
| QuotaExceededError (uid : string) (limit : Z).

(** ** Quota ledger (services/quotaService.js) *)

Module Quota.

Record QuotaRecord := { date : string; count : Z }.

Record QuotaUsage := { used : Z; limit : Z; remaining : Z }.

Section WithConfig.
Variable cfg : Config.

(** [today] is the value of [getCurrentDateKey()].  One request reads
    the clock twice (in [consumeQuota] and in [getQuotaUsage]); both
    reads are taken to fall on the same day. *)
Definition getQuotaUsage (today uid : string)
    (quotaStore : gmap string QuotaRecord) : QuotaUsage :=
  let limit := quota_dailyVideoGenerations cfg in
  match quotaStore !! uid with
  | Some userQuota =>
      if String.eqb (date userQuota) today
      then {| used := count userQuota;
              limit := limit;
              remaining := Z.max 0 (limit - count userQuota) |}
      else {| used := 0; limit := limit; remaining := limit |}
  | None => {| used := 0; limit := limit; remaining := limit |}
  end.

Definition hasQuotaAvailable (today uid : string)
    (quotaStore : gmap string QuotaRecord) : bool :=
  0 <? remaining (getQuotaUsage today uid quotaStore).

Definition consumeQuota (today uid : string)
    (quotaStore : gmap string QuotaRecord)
    : (AppError + QuotaUsage) * gmap string QuotaRecord :=
  let usage := getQuotaUsage today uid quotaStore in
  if remaining usage <=? 0
  then (inl (QuotaExceededError uid (limit usage)), quotaStore)
  else (inr {| used := used usage + 1;
               limit := limit usage;
               remaining := remaining usage - 1 |},
        <[uid := {| date := today; count := used usage + 1 |}]> quotaStore).

Definition resetQuota (uid : string)
    (quotaStore : gmap string QuotaRecord) : gmap string QuotaRecord :=
  delete uid quotaStore.

(** Deleting from a [Map] while iterating over it visits every
    remaining entry, so the loop keeps exactly today's records. *)
Definition cleanupOldEntries (today : string)
    (quotaStore : gmap string QuotaRecord) : gmap string QuotaRecord :=
  filter (fun kv => date kv.2 = today) quotaStore.

(** [n] consecutive calls of [consumeQuota] for one identity on one
    day: the list of outcomes in call order and the final store. *)
Fixpoint consumeMany (n : nat) (today uid : string)
    (quotaStore : gmap string QuotaRecord)
    : list (AppError + QuotaUsage) * gmap string QuotaRecord :=
  match n with
  | O => ([], quotaStore)
  | S k =>
      let '(r, qs1) := consumeQuota today uid quotaStore in
      let '(rs, qs2) := consumeMany k today uid qs1 in
      (r :: rs, qs2)
  end.

(** Calls by any identities, in the order in which the event loop runs
    them: each outcome with the identity that called. *)
Fixpoint consumeEach (calls : list string) (today : string)
    (quotaStore : gmap string QuotaRecord)
    : list (string * (AppError + QuotaUsage)) * gmap string QuotaRecord :=
  match calls with
  | [] => ([], quotaStore)
  | uid :: rest =>
      let '(r, qs1) := consumeQuota today uid quotaStore in
      let '(rs, qs2) := consumeEach rest today qs1 in
      ((uid, r) :: rs, qs2)
  end.

(** The outcomes that one identity got among them. *)
Definition outcomesOf (uid : string)
    (outcomes : list (string * (AppError + QuotaUsage)))
    : list (AppError + QuotaUsage) :=
  map snd (List.filter (fun p => String.eqb p.1 uid) outcomes).

End WithConfig.

Definition succeeded {E A} (r : E + A) : bool :=
  match r with inr _ => true | inl _ => false end.

End Quota.

(** ** Generation service (services/veoService.js): pure part *)

Module Veo.

(** The [params] object that a route builds from the validated request
    body.  Every field but [prompt] may be [undefined]. *)
Record Params := {
  prompt : string;
  imageBase64 : option string;
  imageMimeType : option string;
  durationSeconds : option Z;
  aspectRatio : option string;
  fps : option Z;
  cameraStyle : option string;
  motionLevel : option string;
  lighting : option string;
  quality : option string;
  seed : Nullable Z;
  negativePrompt : option string;
  generateAudio : Nullable bool }.

(** [req.user] as the authentication middleware builds it. *)
Record User := { uid : string; email : option string }.

Inductive JobStatus := PENDING | PROCESSING | COMPLETED | FAILED.

Definition status_name (s : JobStatus) : string :=
  match s with
  | PENDING => "PENDING"
  | PROCESSING => "PROCESSING"
  | COMPLETED => "COMPLETED"
  | FAILED => "FAILED"
  end.

Definition mode_name (m : Mode) : string :=
  match m with
  | TEXT_TO_VIDEO => "TEXT_TO_VIDEO"
  | IMAGE_TO_VIDEO => "IMAGE_TO_VIDEO"
  | VIDEO_TO_VIDEO => "VIDEO_TO_VIDEO"
  end.

(** Reading a property of an object: a missing key reads [undefined]. *)
Definition field (o : gmap string Value) (k : string) : Value :=
  default VUndefined (o !! k).

(** [v !== s] for a string [s], negated. *)
Definition strict_eq_str (v : Value) (s : string) : bool :=
  match v with
  | VStr t => String.eqb t s
  | _ => false
  end.

Definition job_status (job : gmap string Value) : option JobStatus :=
  let v := field job "status" in
  if strict_eq_str v "PENDING" then Some PENDING
  else if strict_eq_str v "PROCESSING" then Some PROCESSING
  else if strict_eq_str v "COMPLETED" then Some COMPLETED
  else if strict_eq_str v "FAILED" then Some FAILED
  else None.

(** [new Date(v).getTime()], with [None] for [NaN].  A string that
    [Date] can parse is a [VTime] in this embedding, so a [VStr] is an
    invalid date. *)
Definition dateGetTime (v : Value) : option Z :=
  match v with
  | VTime ms => Some ms
  | VNum z => Some z
  | VNull => Some 0
  | VBool b => Some (if b then 1 else 0)
  | VUndefined | VStr _ | VObj _ => None
  end.

(** [a || b] on an optional string and on an optional number. *)
Definition str_or (v : option string) (dflt : string) : string :=
  match v with
  | Some s => if truthy_str s then s else dflt
  | None => dflt
  end.

Definition num_or (v : option Z) (dflt : Z) : Z :=
  match v with
  | Some z => if z =? 0 then dflt else z
  | None => dflt
  end.

Definition truthy_opt_str (v : option string) : bool :=
  match v with Some s => truthy_str s | None => false end.

Definition truthy_opt_num (v : option Z) : bool :=
  match v with Some z => negb (z =? 0) | None => false end.

(** [Array.prototype.reduce] without an initial value: the first element
    seeds the accumulator; on an empty array it throws a [TypeError]
    ([None]). *)
Definition reduce {A} (f : A -> A -> A) (l : list A) : option A :=
  match l with
  | [] => None
  | a :: rest => Some (fold_left f rest a)
  end.

Definition reduce_empty_message : string :=
  "Reduce of empty array with no initial value".

(** Values of the protobuf [Value] message built by [structToValue].
    [isoStringValue ms] is the [stringValue] of the ISO string of [ms]. *)
Inductive ProtoValue :=
| nullValue
| boolValue (b : bool)
| numberValue (z : Z)
| stringValue (s : string)
| isoStringValue (ms : Z)
| structValue (fields : list (string * ProtoValue)).

Fixpoint convertValue (value : Value) : ProtoValue :=
  match value with
  | VUndefined | VNull => nullValue
  | VBool b => boolValue b
  | VNum z => numberValue z
  | VStr s => stringValue s
  | VTime ms => isoStringValue ms
  | VObj fields =>
      structValue
        ((fix entries (l : list (string * Value)) :=
            match l with
            | [] => []
            | (k, v) :: l' => (k, convertValue v) :: entries l'
            end) fields)
  end.

(** The [fields] of the outer [structValue]. *)
Definition structToValue (obj : gmap string Value) : gmap string ProtoValue :=
  convertValue <$> obj.

Section WithConfig.
Variable cfg : Config.

Definition isModeSupported (mode : Mode) : bool :=
  match mode with
  | TEXT_TO_VIDEO => sm_TEXT_TO_VIDEO (veo_supportedModes cfg)
  | IMAGE_TO_VIDEO => sm_IMAGE_TO_VIDEO (veo_supportedModes cfg)
  | VIDEO_TO_VIDEO => sm_VIDEO_TO_VIDEO (veo_supportedModes cfg)
  end.

Definition buildEnhancedPrompt (params : Params) : string :=
  let part (label : string) (v : option string) : list string :=
    match v with
    | Some s => if truthy_str s then [label ++ s] else []
    | None => []
    end in
  String.concat ". "
    ([prompt params]
       ++ part "Camera style: " (cameraStyle params)
       ++ part "Motion: " (motionLevel params)
       ++ part "Lighting: " (lighting params)).

Definition normalizeDuration (duration : option Z) : option Z :=
  let requested := num_or duration (d_durationSeconds (veo_defaults cfg)) in
  let allowed := allowedDurations (veo_limits cfg) in
  reduce (fun prev curr =>
            if Z.abs (curr - requested) <? Z.abs (prev - requested)
            then curr else prev)
         allowed.

(** The five guarded assignments of [buildRequestParameters], each as
    a function that adds its key or leaves the object alone. *)
Definition forward_fps (params : Params) (o : gmap string Value) :=
  match fps params with
  | Some z =>
      if fp_fps (veo_forwardParams cfg) && negb (z =? 0)
      then <["fps" := VNum z]> o else o
  | None => o
  end.

Definition forward_negativePrompt (params : Params) (o : gmap string Value) :=
  match negativePrompt params with
  | Some s =>
      if fp_negativePrompt (veo_forwardParams cfg) && truthy_str s
      then <["negativePrompt" := VStr s]> o else o
  | None => o
  end.

Definition forward_seed (params : Params) (o : gmap string Value) :=
  match seed params with
  | JVal z =>
      if fp_seed (veo_forwardParams cfg)
      then <["seed" := VNum z]> o else o
  | JUndefined | JNull => o
  end.

Definition forward_generateAudio (params : Params) (o : gmap string Value) :=
  match generateAudio params with
  | JVal b =>
      if fp_generateAudio (veo_forwardParams cfg)
      then <["generateAudio" := VBool b]> o else o
  | JNull =>
      if fp_generateAudio (veo_forwardParams cfg)
      then <["generateAudio" := VNull]> o else o
  | JUndefined => o
  end.

Definition forward_resolution (params : Params) (o : gmap string Value) :=
  match quality params with
  | Some q =>
      if fp_resolution (veo_forwardParams cfg) && String.eqb q "high"
      then <["resolution" := VStr "1080p"]> o else o
  | None => o
  end.

(** [None] when [normalizeDuration] throws. *)
Definition buildRequestParameters (params : Params)
    : option (gmap string Value) :=
  match normalizeDuration (durationSeconds params) with
  | None => None
  | Some d =>
      let parameters : gmap string Value :=
        <["durationSeconds" := VNum d]>
          (<["aspectRatio" :=
               VStr (str_or (aspectRatio params)
                            (d_aspectRatio (veo_defaults cfg)))]> ∅) in
      Some (forward_resolution params
              (forward_generateAudio params
                 (forward_seed params
                    (forward_negativePrompt params
                       (forward_fps params parameters)))))
  end.

End WithConfig.

(** Two request bodies that pass validation: one asks for standard
    quality and sends an empty negative prompt, the other asks for high
    quality and a seed. *)
Definition standardQualityParams : Params := {|
  prompt := "A";
  imageBase64 := None;
  imageMimeType := None;
  durationSeconds := Some 6;
  aspectRatio := None;
  fps := None;
  cameraStyle := None;
  motionLevel := None;
  lighting := None;
  quality := Some "standard";
  seed := JUndefined;
  negativePrompt := Some "";
  generateAudio := JUndefined |}.

Definition highQualityParams : Params := {|
  prompt := "A";
  imageBase64 := None;
  imageMimeType := None;
  durationSeconds := Some 6;
  aspectRatio := None;
  fps := Some 24;
  cameraStyle := None;
  motionLevel := None;
  lighting := None;
  quality := Some "high";
  seed := JVal 7;
  negativePrompt := Some "blurry";
  generateAudio := JVal true |}.

(** *** Job store *)

(** [{ ...existing, ...updates, jobId }]: a key of [updates] wins over
    the same key of [existing], and [jobId] is written last. *)
Definition updateJobStatus (jobId : string) (updates : gmap string Value)
    (jobStore : gmap string (gmap string Value))
    : gmap string (gmap string Value) :=
  let existing := default ∅ (jobStore !! jobId) in
  <[jobId := <["jobId" := VStr jobId]> (updates ∪ existing)]> jobStore.

(** [userId = None] is the default [null] of the optional argument. *)
Definition getJobStatus (jobId : string) (userId : option string)
    (jobStore : gmap string (gmap string Value))
    : option (gmap string Value) :=
  match jobStore !! jobId with
  | None => None
  | Some job =>
      match userId with
      | Some u =>
          if truthy_str u && negb (strict_eq_str (field job "userId") u)
          then None
          else Some job
      | None => Some job
      end
  end.

Definition defaultMaxAgeMs : Z := 24 * 60 * 60 * 1000.

(** [now - createdAt > maxAgeMs]; any comparison with [NaN] is false. *)
Definition expired (now maxAgeMs : Z) (job : gmap string Value) : bool :=
  match dateGetTime (field job "createdAt") with
  | Some createdAt => maxAgeMs <? now - createdAt
  | None => false
  end.

(** Deleting from the [Map] inside the [for ... of] loop over its
    entries removes exactly the entries that satisfy the test. *)
Definition cleanupOldJobs (now : Z) (maxAgeMs : option Z)
    (jobStore : gmap string (gmap string Value))
    : gmap string (gmap string Value) :=
  let maxAge := default defaultMaxAgeMs maxAgeMs in
  filter (fun kv => expired now maxAge kv.2 = false) jobStore.

End Veo.

(** ** The running server: shared state, detached tasks and routes *)

Module Server.
Import Veo.

(** Calls to the collaborators, in program order. *)
Inductive Event :=
| EvRateLimit (key : string) (allowed : bool)
| EvValidation (ok : bool)
| EvModeCheck (mode : Mode) (supported : bool)
| EvQuotaConsume (uid : string) (granted : bool)
| EvJobUpdate (jobId : string) (status : Value)
| EvPredict (jobId : string).

(** The argument of [predictionServiceClient.predict]. *)
Record PredictRequest := {
  endpoint : string;
  instance_prompt : string;
  instance_image : option (string * string);
  parameters : gmap string ProtoValue }.

(** The promise returned by [executeGeneration] / [executeImageGeneration]
    when its caller gets control back: the body has run up to its first
    [await] (the provider call is issued and its answer awaited), or it
    threw before reaching it and the promise is already rejected. *)
Inductive TaskState :=
| AwaitingPredict (request : PredictRequest)
| Rejected (message : string).

Record Task := { task_mode : Mode; task_state : TaskState }.

(** The module-level state of the process.  [L] is the state of a rate
    limiter (the express-rate-limit package).  [tasks] holds the detached
    promises by job id. *)
Record World (L : Type) := {
  generalLimiter : L;
  generationLimiter : L;
  quotaStore : gmap string Quota.QuotaRecord;
  jobStore : gmap string (gmap string Value);
  tasks : gmap string Task;
  trace : list Event }.
Arguments generalLimiter {L} _.
Arguments generationLimiter {L} _.
Arguments quotaStore {L} _.
Arguments jobStore {L} _.
Arguments tasks {L} _.
Arguments trace {L} _.

Section State.
Context {L : Type}.

Definition set_generalLimiter (l : L) (w : World L) : World L :=
  {| generalLimiter := l; generationLimiter := generationLimiter w;
     quotaStore := quotaStore w; jobStore := jobStore w;
     tasks := tasks w; trace := trace w |}.

Definition set_generationLimiter (l : L) (w : World L) : World L :=
  {| generalLimiter := generalLimiter w; generationLimiter := l;
     quotaStore := quotaStore w; jobStore := jobStore w;
     tasks := tasks w; trace := trace w |}.

Definition set_quotaStore (q : gmap string Quota.QuotaRecord)
    (w : World L) : World L :=
  {| generalLimiter := generalLimiter w;
     generationLimiter := generationLimiter w;
     quotaStore := q; jobStore := jobStore w;
     tasks := tasks w; trace := trace w |}.

Definition set_jobStore (j : gmap string (gmap string Value))
    (w : World L) : World L :=
  {| generalLimiter := generalLimiter w;
     generationLimiter := generationLimiter w;
     quotaStore := quotaStore w; jobStore := j;
     tasks := tasks w; trace := trace w |}.

Definition set_tasks (t : gmap string Task) (w : World L) : World L :=
  {| generalLimiter := generalLimiter w;
     generationLimiter := generationLimiter w;
     quotaStore := quotaStore w; jobStore := jobStore w;
     tasks := t; trace := trace w |}.

Definition record (e : Event) (w : World L) : World L :=
  {| generalLimiter := generalLimiter w;
     generationLimiter := generationLimiter w;
     quotaStore := quotaStore w; jobStore := jobStore w;
     tasks := tasks w; trace := trace w ++ [e] |}.

(** Synchronous code over the shared state that may throw: the state
    reached at the [throw] is kept. *)
Definition M (A : Type) : Type := World L -> (AppError + A) * World L.

Definition ret {A} (a : A) : M A := fun w => (inr a, w).

Definition throw {A} (e : AppError) : M A := fun w => (inl e, w).

Definition bind {A B} (m : M A) (k : A -> M B) : M B :=
  fun w =>
    match m w with
    | (inl e, w') => (inl e, w')
    | (inr a, w') => k a w'
    end.

End State.

Declare Scope m_scope.
Delimit Scope m_scope with M.
Notation "x <- m ;; k" := (bind m (fun x => k))
  (at level 20, m at level 99, k at level 200, only parsing) : m_scope.
Notation "m ;; k" := (bind m (fun _ => k))
  (at level 100, k at level 200, only parsing, right associativity) : m_scope.

(** What the provider and the object storage answer to one task. *)
Record Prediction := {
  bytesBase64Encoded : option string;
  gcsUri : option string }.

Record PredictResponse := { predictions : option (list Prediction) }.

Record Externals := {
  (** [predict]: the message of the rejection, or the response *)
  predictOutcome : string + PredictResponse;
  (** [file.save]: [Some message] when it rejects *)
  saveOutcome : option string;
  (** [file.getSignedUrl] on the uploaded file *)
  signOutcome : string + string;
  (** [generateSignedUrl(gcsUri)]: the URL, or the message of what it
      throws (an ill-formed URI, a storage failure) *)
  generateSignedUrlOutcome : string + string }.

(** The rate limiters and the validation chains a route is mounted with.
    A limiter takes the key and the time and answers whether the request
    is within the limit. *)
Record Middleware (L : Type) := {
  rateLimiter : string -> Z -> L -> bool * L;
  videoGenerationLimiter : string -> Z -> L -> bool * L;
  textToVideoValidations : Params -> bool;
  imageToVideoValidations : Params -> bool;
  videoToVideoValidations : Params -> bool;
  jobIdValidation : string -> bool }.
Arguments rateLimiter {L} _.
Arguments videoGenerationLimiter {L} _.
Arguments textToVideoValidations {L} _.
Arguments imageToVideoValidations {L} _.
Arguments videoToVideoValidations {L} _.
Arguments jobIdValidation {L} _.

(** An authenticated request; [body] is the request body as the
    validation chain leaves it. *)
Record Request := { user : User; ip : string; body : Params }.

Inductive Response :=
| Accepted (jobId : string) (status : string) (mode : Mode)
           (quota : option Quota.QuotaUsage)
| StatusReport (data : gmap string Value)
| TooManyRequests
| ErrorResponse (e : AppError).

Section Service.
Context {L : Type}.
Variable cfg : Config.
Local Open Scope m_scope.

(** *** Lifting the services to the shared state *)

Definition consumeQuota (today uid : string) : M (L := L) Quota.QuotaUsage :=
  fun w =>
    let '(r, q) := Quota.consumeQuota cfg today uid (quotaStore w) in
    (r, record (EvQuotaConsume uid (Quota.succeeded r)) (set_quotaStore q w)).

Definition checkModeSupported (mode : Mode) : M (L := L) bool :=
  fun w =>
    let b := isModeSupported cfg mode in
    (inr b, record (EvModeCheck mode b) w).

Definition setJobStatus (jobId : string) (updates : gmap string Value)
    : M (L := L) unit :=
  fun w =>
    (inr tt,
     record (EvJobUpdate jobId (field updates "status"))
       (set_jobStore (updateJobStatus jobId updates (jobStore w)) w)).

Definition getEndpoint : string :=
  "projects/" ++ gcp_projectId cfg ++ "/locations/" ++ gcp_region cfg
    ++ "/publishers/google/models/" ++ veo_modelId cfg.

(** *** The field sets passed to [updateJobStatus] *)

Definition email_value (user : User) : Value :=
  match email user with
  | Some e => VStr e
  | None => VUndefined
  end.

Definition pendingFields (mode : Mode) (now : Z) (user : User)
    (summary : list (string * Value)) : gmap string Value :=
  list_to_map
    [("status", VStr "PENDING");
     ("mode", VStr (mode_name mode));
     ("createdAt", VTime now);
     ("userId", VStr (uid user));
     ("userEmail", email_value user);
     ("params", VObj summary)].

Definition processingFields : gmap string Value :=
  {[ "status" := VStr "PROCESSING" ]}.

Definition completedFields (result : Value) (now : Z) : gmap string Value :=
  list_to_map
    [("status", VStr "COMPLETED");
     ("result", result);
     ("completedAt", VTime now)].

Definition failedFields (message : string) (now : Z) : gmap string Value :=
  list_to_map
    [("status", VStr "FAILED");
     ("error", VStr message);
     ("completedAt", VTime now)].

(** *** Starting a generation *)

(** The body of [executeGeneration] up to its first [await].  An
    exception before the provider call is caught by the [try] and
    re-thrown as a [VeoApiError] with the same message, which rejects
    the promise. *)
Definition executeGeneration (jobId : string) (params : Params)
    (mode : Mode) (w : World L) : TaskState * World L :=
  let '(_, w1) := setJobStatus jobId processingFields w in
  match buildRequestParameters cfg params with
  | None => (Rejected reduce_empty_message, w1)
  | Some requestParameters =>
      (AwaitingPredict
         {| endpoint := getEndpoint;
            instance_prompt := buildEnhancedPrompt params;
            instance_image := None;
            parameters := structToValue requestParameters |},
       record (EvPredict jobId) w1)
  end.

Definition executeImageGeneration (jobId : string) (params : Params)
    (w : World L) : TaskState * World L :=
  let '(_, w1) := setJobStatus jobId processingFields w in
  match buildRequestParameters cfg params with
  | None => (Rejected reduce_empty_message, w1)
  | Some requestParameters =>
      (AwaitingPredict
         {| endpoint := getEndpoint;
            instance_prompt := buildEnhancedPrompt params;
            instance_image :=
              Some (default "" (imageBase64 params),
                    str_or (imageMimeType params) "image/png");
            parameters := structToValue requestParameters |},
       record (EvPredict jobId) w1)
  end.

(** [promise.catch(handler)]: the promise stays behind, detached. *)
Definition detach (jobId : string) (mode : Mode) (promise : TaskState)
    : M (L := L) unit :=
  fun w =>
    (inr tt,
     set_tasks (<[jobId := {| task_mode := mode; task_state := promise |}]>
                  (tasks w)) w).

(** [jobId] is the value of [uuidv4()], [now] the time of
    [new Date()]. *)
Definition generateFromText (now : Z) (jobId : string) (params : Params)
    (user : User) : M (L := L) string :=
  supported <- checkModeSupported TEXT_TO_VIDEO ;;
  if negb supported then throw (UnsupportedModeError TEXT_TO_VIDEO)
  else
    setJobStatus jobId
      (pendingFields TEXT_TO_VIDEO now user
         [("prompt", VStr (prompt params))]) ;;
    promise <- (fun w =>
                  let '(p, w') := executeGeneration jobId params TEXT_TO_VIDEO w in
                  (inr p, w')) ;;
    detach jobId TEXT_TO_VIDEO promise ;;
    ret jobId.

Definition generateFromImage (now : Z) (jobId : string) (params : Params)
    (user : User) : M (L := L) string :=
  supported <- checkModeSupported IMAGE_TO_VIDEO ;;
  if negb supported then throw (UnsupportedModeError IMAGE_TO_VIDEO)
  else
    setJobStatus jobId
      (pendingFields IMAGE_TO_VIDEO now user
         [("prompt", VStr (prompt params)); ("hasImage", VBool true)]) ;;
    promise <- (fun w =>
                  let '(p, w') := executeImageGeneration jobId params w in
                  (inr p, w')) ;;
    detach jobId IMAGE_TO_VIDEO promise ;;
    ret jobId.

Definition generateFromVideo (params : Params) (user : User)
    : M (L := L) string :=
  supported <- checkModeSupported VIDEO_TO_VIDEO ;;
  if negb supported then throw (UnsupportedModeError VIDEO_TO_VIDEO)
  else throw (UnsupportedModeError VIDEO_TO_VIDEO).

(** *** Finishing a generation *)

(** [now] stands for the clock reads made while the response is
    processed.  [inl message] is a throw. *)
Definition processGenerationResponse (now : Z) (jobId : string)
    (response : PredictResponse) (ext : Externals) : string + Value :=
  match predictions response with
  | None | Some [] => inl "No video generated in response"
  | Some (prediction :: _) =>
      if truthy_opt_str (bytesBase64Encoded prediction) then
        let fileName := "videos/" ++ jobId ++ ".mp4" in
        match saveOutcome ext with
        | Some message => inl message
        | None =>
            match signOutcome ext with
            | inl message => inl message
            | inr signedUrl =>
                inr (VObj
                  [("videoUri",
                    VStr ("gs://" ++ gcs_bucketName cfg ++ "/" ++ fileName));
                   ("signedUrl", VStr signedUrl);
                   ("expiresAt",
                    VTime (now + gcs_signedUrlExpiration cfg * 1000))])
            end
        end
      else
        match gcsUri prediction with
        | Some uri =>
            if truthy_str uri then
              match generateSignedUrlOutcome ext with
              | inl message => inl message
              | inr signedUrl =>
                  inr (VObj
                    [("videoUri", VStr uri);
                     ("signedUrl", VStr signedUrl);
                     ("expiresAt",
                      VTime (now + gcs_signedUrlExpiration cfg * 1000))])
              end
            else inl "Unexpected response format from Veo API"
        | None => inl "Unexpected response format from Veo API"
        end
  end.

(** The handler given to [.catch] in [generateFromText] and
    [generateFromImage]. *)
Definition onRejected (now : Z) (jobId : string) (message : string)
    (w : World L) : World L :=
  (setJobStatus jobId (failedFields message now) w).2.

(** The rest of [executeGeneration] once [predict] has settled.  Every
    failure reaches the [catch] block, which re-throws it with the same
    message; that rejection runs [onRejected].  The awaits inside
    [processGenerationResponse] touch no shared state, so the rest of
    the task is one step; [logger] calls do not throw. *)
Definition resume (now : Z) (jobId : string) (ext : Externals)
    (w : World L) : World L :=
  match predictOutcome ext with
  | inl message => onRejected now jobId message w
  | inr response =>
      match processGenerationResponse now jobId response ext with
      | inl message => onRejected now jobId message w
      | inr result =>
          (setJobStatus jobId (completedFields result now) w).2
      end
  end.

(** One detached task runs to its end. *)
Definition settle (now : Z) (jobId : string) (ext : Externals)
    (w : World L) : World L :=
  match tasks w !! jobId with
  | None => w
  | Some task =>
      let w1 := set_tasks (delete jobId (tasks w)) w in
      match task_state task with
      | Rejected message => onRejected now jobId message w1
      | AwaitingPredict _ => resume now jobId ext w1
      end
  end.

(** The hourly cleanup of index.js. *)
Definition periodicCleanup (now : Z) (today : string) (w : World L)
    : World L :=
  set_quotaStore (Quota.cleanupOldEntries today (quotaStore w))
    (set_jobStore (cleanupOldJobs now None (jobStore w)) w).

End Service.

(** *** Routes (routes/videoRoutes.js, mounted in index.js) *)

Section Routes.
Context {L : Type}.
Variable cfg : Config.
Variable mw : Middleware L.
Local Open Scope m_scope.

(** [req.user?.uid || req.ip] *)
Definition limiterKey (req : Request) : string :=
  if truthy_str (uid (user req)) then uid (user req) else ip req.

(** [app.use('/v1/video', rateLimiter)], after authentication. *)
Definition throughRateLimiter (now : Z) (req : Request)
    (next : World L -> Response * World L) (w : World L)
    : Response * World L :=
  let key := limiterKey req in
  let '(allowed, l) := rateLimiter mw key now (generalLimiter w) in
  let w1 := record (EvRateLimit key allowed) (set_generalLimiter l w) in
  if allowed then next w1 else (TooManyRequests, w1).

Definition throughGenerationLimiter (now : Z) (req : Request)
    (next : World L -> Response * World L) (w : World L)
    : Response * World L :=
  let key := limiterKey req in
  let '(allowed, l) := videoGenerationLimiter mw key now (generationLimiter w) in
  let w1 := record (EvRateLimit key allowed) (set_generationLimiter l w) in
  if allowed then next w1 else (TooManyRequests, w1).

(** A validation chain passes the request on or hands a
    [ValidationError] to the error handler. *)
Definition throughValidation (valid : bool)
    (next : World L -> Response * World L) (w : World L)
    : Response * World L :=
  let w1 := record (EvValidation valid) w in
  if valid then next w1
  else (ErrorResponse (ValidationError "Validation failed"), w1).

(** [try { ... } catch (error) { next(error) }] *)
Definition respond (handler : M (L := L) Response) (w : World L)
    : Response * World L :=
  match handler w with
  | (inl e, w') => (ErrorResponse e, w')
  | (inr r, w') => (r, w')
  end.

(** The [params] objects the handlers build from the body. *)
Definition textParams (b : Params) : Params :=
  {| prompt := prompt b; imageBase64 := None; imageMimeType := None;
     durationSeconds := durationSeconds b; aspectRatio := aspectRatio b;
     fps := fps b; cameraStyle := cameraStyle b;
     motionLevel := motionLevel b; lighting := lighting b;
     quality := quality b; seed := seed b;
     negativePrompt := negativePrompt b;
     generateAudio := generateAudio b |}.

Definition textHandler (now : Z) (today jobId : string) (req : Request)
    : M (L := L) Response :=
  quotaUsage <- consumeQuota cfg today (uid (user req)) ;;
  result <- generateFromText cfg now jobId (textParams (body req)) (user req) ;;
  ret (Accepted result "PENDING" TEXT_TO_VIDEO (Some quotaUsage)).

Definition imageHandler (now : Z) (today jobId : string) (req : Request)
    : M (L := L) Response :=
  supported <- checkModeSupported cfg IMAGE_TO_VIDEO ;;
  if negb supported then throw (UnsupportedModeError IMAGE_TO_VIDEO)
  else
    quotaUsage <- consumeQuota cfg today (uid (user req)) ;;
    result <- generateFromImage cfg now jobId (body req) (user req) ;;
    ret (Accepted result "PENDING" IMAGE_TO_VIDEO (Some quotaUsage)).

Definition videoHandler (req : Request) : M (L := L) Response :=
  result <- generateFromVideo cfg (textParams (body req)) (user req) ;;
  ret (Accepted result "PENDING" VIDEO_TO_VIDEO None).

(** POST /v1/video/text *)
Definition postText (now : Z) (today jobId : string) (req : Request)
    : World L -> Response * World L :=
  throughRateLimiter now req
    (throughGenerationLimiter now req
       (throughValidation (textToVideoValidations mw (body req))
          (respond (textHandler now today jobId req)))).

(** POST /v1/video/image *)
Definition postImage (now : Z) (today jobId : string) (req : Request)
    : World L -> Response * World L :=
  throughRateLimiter now req
    (throughGenerationLimiter now req
       (throughValidation (imageToVideoValidations mw (body req))
          (respond (imageHandler now today jobId req)))).

(** POST /v1/video/video *)
Definition postVideo (now : Z) (req : Request)
    : World L -> Response * World L :=
  throughRateLimiter now req
    (throughGenerationLimiter now req
       (throughValidation (videoToVideoValidations mw (body req))
          (respond (videoHandler req)))).

(** [job.result.videoUri] and the like. *)
Definition prop (v : Value) (k : string) : Value :=
  match v with
  | VObj fields =>
      match List.find (fun kv => String.eqb kv.1 k) fields with
      | Some kv => kv.2
      | None => VUndefined
      end
  | _ => VUndefined
  end.

Definition statusHandler (jobId : string) (req : Request)
    : M (L := L) Response :=
  fun w =>
    match getJobStatus jobId (Some (uid (user req))) (jobStore w) with
    | None => (inl (NotFoundError ("Job " ++ jobId ++ " not found")), w)
    | Some job =>
        let data : gmap string Value :=
          list_to_map
            [("jobId", field job "jobId");
             ("status", field job "status");
             ("mode", field job "mode");
             ("createdAt", field job "createdAt")] in
        let data1 :=
          if strict_eq_str (field job "status") "COMPLETED"
             && truthy (field job "result")
          then
            <["completedAt" := field job "completedAt"]>
              (<["result" :=
                   VObj [("videoUri", prop (field job "result") "videoUri");
                         ("signedUrl", prop (field job "result") "signedUrl");
                         ("expiresAt", prop (field job "result") "expiresAt")]]>
                 data)
          else data in
        let data2 :=
          if strict_eq_str (field job "status") "FAILED"
          then
            <["completedAt" := field job "completedAt"]>
              (<["error" := field job "error"]> data1)
          else data1 in
        (inr (StatusReport data2), w)
    end.

(** GET /v1/video/status/:jobId *)
Definition getStatus (now : Z) (jobId : string) (req : Request)
    : World L -> Response * World L :=
  throughRateLimiter now req
    (throughValidation (jobIdValidation mw jobId)
       (respond (statusHandler jobId req))).

End Routes.

(** A limiter that grants [max] requests per key and never opens a new
    window, and middleware built from it that accepts every body. *)
Definition countingLimiter (max : Z) (key : string) (now : Z)
    (hits : gmap string Z) : bool * gmap string Z :=
  let n := default 0 (hits !! key) + 1 in
  (n <=? max, <[key := n]> hits).

Definition sampleMiddleware : Middleware (gmap string Z) := {|
  rateLimiter := countingLimiter 100;
  videoGenerationLimiter := countingLimiter 10;
  textToVideoValidations := fun _ => true;
  imageToVideoValidations := fun _ => true;
  videoToVideoValidations := fun _ => true;
  jobIdValidation := fun _ => true |}.

Definition alice : User := {| uid := "alice"; email := None |}.

Definition aliceRequest : Request :=
  {| user := alice; ip := "10.0.0.1"; body := standardQualityParams |}.

(** A job of "alice" that is still being processed, created at time 0. *)
Definition aliceJob : gmap string Value :=
  list_to_map
    [("jobId", VStr "job-1");
     ("status", VStr "PROCESSING");
     ("mode", VStr "TEXT_TO_VIDEO");
     ("createdAt", VTime 0);
     ("userId", VStr "alice")].

Definition emptyWorld : World (gmap string Z) := {|
  generalLimiter := ∅;
  generationLimiter := ∅;
  quotaStore := ∅;
  jobStore := ∅;
  tasks := ∅;
  trace := [] |}.

(** *** The transitions of one job record *)

(** Where the single task that owns a job stands: its PENDING record is
    written but the task has not started ([Created]), or the task has
    started and not finished ([Running]).  A job without a phase has no
    task left. *)
Inductive Phase := Created | Running.

Record JobSystem := {
  js_store : gmap string (gmap string Value);
  js_phase : gmap string Phase }.

(** Every write to the job store made by the service: the four
    [updateJobStatus] calls, in the order the owning task issues them,
    and the sweep.  A new job id is one that is not in use. *)
Inductive transition : JobSystem -> JobSystem -> Prop :=
| t_create s mode now jobId user summary :
    js_store s !! jobId = None ->
    js_phase s !! jobId = None ->
    transition s
      {| js_store := updateJobStatus jobId
                       (pendingFields mode now user summary) (js_store s);
         js_phase := <[jobId := Created]> (js_phase s) |}
| t_processing s jobId :
    js_phase s !! jobId = Some Created ->
    transition s
      {| js_store := updateJobStatus jobId processingFields (js_store s);
         js_phase := <[jobId := Running]> (js_phase s) |}
| t_completed s jobId fields now :
    js_phase s !! jobId = Some Running ->
    transition s
      {| js_store := updateJobStatus jobId
                       (completedFields (VObj fields) now) (js_store s);
         js_phase := delete jobId (js_phase s) |}
| t_failed s jobId message now :
    js_phase s !! jobId = Some Running ->
    transition s
      {| js_store := updateJobStatus jobId
                       (failedFields message now) (js_store s);
         js_phase := delete jobId (js_phase s) |}
| t_sweep s now maxAgeMs :
    transition s
      {| js_store := cleanupOldJobs now maxAgeMs (js_store s);
         js_phase := js_phase s |}.

(** What the specification requires of a record: a known status, a
    result exactly when COMPLETED, an error exactly when FAILED. *)
Definition outcome_matches_status (job : gmap string Value) : Prop :=
  match job_status job with
  | Some PENDING | Some PROCESSING =>
      job !! "result" = None /\ job !! "error" = None
  | Some COMPLETED =>
      (exists fields, job !! "result" = Some (VObj fields))
      /\ job !! "error" = None
  | Some FAILED =>
      (exists message, job !! "error" = Some (VStr message))
      /\ job !! "result" = None
  | None => False
  end.

Definition initialJobSystem : JobSystem :=
  {| js_store := ∅; js_phase := ∅ |}.

Definition reachable (s : JobSystem) : Prop :=
  rtc transition initialJobSystem s.

(** The two halves of the invariant of the transitions: every record
    has the outcome fields its status calls for, and a record whose task
    has not finished has no outcome field yet. *)
Definition owned_clean (s : JobSystem) : Prop :=
  forall jobId ph job,
    js_phase s !! jobId = Some ph ->
    js_store s !! jobId = Some job ->
    job !! "result" = None /\ job !! "error" = None.

Definition all_match (s : JobSystem) : Prop :=
  forall jobId job,
    js_store s !! jobId = Some job -> outcome_matches_status job.

(** A job that was created, started and then failed. *)
Definition failedJobSystem : JobSystem :=
  {| js_store :=
       updateJobStatus "job-1" (failedFields "provider unavailable" 5000)
         (updateJobStatus "job-1" processingFields
            (updateJobStatus "job-1"
               (pendingFields TEXT_TO_VIDEO 1000 alice [("prompt", VStr "A")])
               ∅));
     js_phase :=
       delete "job-1" (<["job-1" := Running]> (<["job-1" := Created]> ∅)) |}.

(** The job store and the detached tasks of a running server, seen as a
    [JobSystem]: between two turns of the event loop every detached task
    has started. *)
Definition jobSystemOf {L} (w : World L) : JobSystem :=
  {| js_store := jobStore w;
     js_phase := (fun _ => Running) <$> tasks w |}.

(** One turn of the event loop of the running server: a request to one
    of the routes, the completion of a detached task, or the periodic
    cleanup.  A job id handed out by [uuidv4] is not in use. *)
Inductive server_step {L} (cfg : Config) (mw : Middleware L)
    : World L -> World L -> Prop :=
| step_postText now today jobId req w :
    jobStore w !! jobId = None ->
    tasks w !! jobId = None ->
    server_step cfg mw w (postText cfg mw now today jobId req w).2
| step_postImage now today jobId req w :
    jobStore w !! jobId = None ->
    tasks w !! jobId = None ->
    server_step cfg mw w (postImage cfg mw now today jobId req w).2
| step_postVideo now req w :
    server_step cfg mw w (postVideo cfg mw now req w).2
| step_getStatus now jobId req w :
    server_step cfg mw w (getStatus mw now jobId req w).2
| step_settle now jobId ext w :
    server_step cfg mw w (settle cfg now jobId ext w)
| step_periodicCleanup now today w :
    server_step cfg mw w (periodicCleanup now today w).

End Server.

(** ** The order of the admission checks (routes/videoRoutes.js) *)

Module Admission.
Import Veo Server.











End Admission.

(** ** Job creation as its caller sees it (services/veoService.js) *)

Module Creation.
Import Veo Server.

(** What job creation has done when it hands back [out] from [w]: it
    returned the job id; it had inserted the PENDING record of the job;
    its calls were the mode check, the PENDING write, the first write of
    the detached task and the provider request, in this order; the task
    is waiting for the provider's answer; and the owner reads a job
    without result or error that carries the creation time and the
    mode. *)
Definition started_before_return {L} (mode : Mode) (now : Z)
    (jobId : string) (user : User) (summary : list (string * Value))
    (w : World L) (out : (AppError + string) * World L) : Prop :=
  let pending :=
    updateJobStatus jobId (pendingFields mode now user summary)
      (jobStore w) in
  out.1 = inr jobId
  /\ (exists job0,
        pending !! jobId = Some job0 /\ job_status job0 = Some PENDING)
  /\ trace out.2
     = (trace w ++ [EvModeCheck mode true;
                    EvJobUpdate jobId (VStr "PENDING");
                    EvJobUpdate jobId (VStr "PROCESSING");
                    EvPredict jobId])%list
  /\ (exists request,
        tasks out.2 !! jobId
        = Some {| task_mode := mode;
                  task_state := AwaitingPredict request |})
  /\ (exists job,
        getJobStatus jobId (Some (uid user)) (jobStore out.2) = Some job
        /\ job !! "result" = None
        /\ job !! "error" = None
        /\ field job "createdAt" = VTime now
        /\ field job "mode" = VStr (mode_name mode)).

(** An image request that passes validation. *)
Definition imageRequestParams : Params := {|
  prompt := "A";
  imageBase64 := Some "iVBORw0KGgo=";
  imageMimeType := Some "image/png";
  durationSeconds := Some 6;
  aspectRatio := None;
  fps := None;
  cameraStyle := None;
  motionLevel := None;
  lighting := None;
  quality := Some "standard";
  seed := JUndefined;
  negativePrompt := None;
  generateAudio := JUndefined |}.

End Creation.

(** ** GET /v1/video/modes (routes/videoRoutes.js) *)

Module Modes.
Import Veo.

(** [Object.entries(config.veo.supportedModes)], in the order of the
    object literal. *)
Definition supportedModeEntries (cfg : Config) : list (Mode * bool) :=
  [(TEXT_TO_VIDEO, sm_TEXT_TO_VIDEO (veo_supportedModes cfg));
   (IMAGE_TO_VIDEO, sm_IMAGE_TO_VIDEO (veo_supportedModes cfg));
   (VIDEO_TO_VIDEO, sm_VIDEO_TO_VIDEO (veo_supportedModes cfg))].

(** The [supportedModes] of the response:
    [.filter(([, enabled]) => enabled).map(([mode]) => mode)]. *)
Definition advertisedModes (cfg : Config) : list Mode :=
  map fst (List.filter (fun entry => entry.2) (supportedModeEntries cfg)).

End Modes.

(** ** Sample states for the examples *)

Module Samples.
Import Veo Server.

(** The server right after it accepted a text job "job-1" of "alice" at
    time 1000. *)
Definition runningWorld : World (gmap string Z) :=
  (generateFromText (config default_env) 1000 "job-1" standardQualityParams
     alice emptyWorld).2.

(** Its record and its task. *)
Definition runningJob : gmap string Value :=
  default ∅ (jobStore runningWorld !! "job-1").

Definition runningTask : Task :=
  default {| task_mode := TEXT_TO_VIDEO; task_state := Rejected "" |}
    (tasks runningWorld !! "job-1").

(** The provider answers with a storage locator and the URL can be
    signed. *)
Definition successExternals : Externals := {|
  predictOutcome :=
    inr {| predictions :=
             Some [{| bytesBase64Encoded := None;
                      gcsUri := Some "gs://veo-videos/out/1.mp4" |}] |};
  saveOutcome := None;
  signOutcome := inr "https://signed.example/upload";
  generateSignedUrlOutcome := inr "https://signed.example/1" |}.

(** The provider call is rejected. *)
Definition failingExternals : Externals := {|
  predictOutcome := inl "provider unavailable";
  saveOutcome := None;
  signOutcome := inr "https://signed.example/upload";
  generateSignedUrlOutcome := inr "https://signed.example/1" |}.

(** The server after that job has completed at time 5000. *)
Definition finishedWorld : World (gmap string Z) :=
  settle (config default_env) 5000 "job-1" successExternals runningWorld.

(** The request that a task is waiting on. *)
Definition requestOf (task : Task) : PredictRequest :=
  match task_state task with
  | AwaitingPredict request => request
  | Rejected _ =>
      {| endpoint := ""; instance_prompt := ""; instance_image := None;
         parameters := ∅ |}
  end.

(** The server after the text route accepted "job-1" of "alice". *)
Definition acceptedWorld : World (gmap string Z) :=
  (postText (config default_env) sampleMiddleware 1000 "2026-03-02" "job-1"
     aliceRequest emptyWorld).2.

(** "alice" has used up the generation limiter's window. *)
Definition throttledWorld : World (gmap string Z) :=
  set_generationLimiter {[ "alice" := 10 ]} emptyWorld.

(** "alice" has used her whole quota of the day "2026-03-02". *)
Definition exhaustedWorld : World (gmap string Z) :=
  set_quotaStore
    {[ "alice" := {| Quota.date := "2026-03-02"; Quota.count := 50 |} ]}
    emptyWorld.

(** "alice" has used up the general limiter's window. *)
Definition busyWorld : World (gmap string Z) :=
  set_generalLimiter {[ "alice" := 100 ]} emptyWorld.

End Samples.

(** ** Error responses (utils/errors.js, middleware/errorHandler.js) *)

Module ErrorHandler.
Import Veo Server.

(** What reaches [errorHandler]: an error of one of the classes of
    utils/errors.js and quotaService.js, or any other exception
    ([Foreign], not an instance of [AppError]). *)
Inductive Thrown :=
| Service (e : AppError)
| AuthenticationError (message : string)
| RateLimitError (message : string)
| Foreign (message : string).

Record ErrorReply := {
  http_status : Z;
  error_code : string;
  error_message : string }.

Section WithNumbers.
(** The rendering of a number inside a template string. *)
Variable numberToString : Z -> string.

Definition statusCode (e : AppError) : Z :=
  match e with
  | ValidationError _ => 400
  | NotFoundError _ => 404
  | VeoApiError _ => 502
  | UnsupportedModeError _ => 400
  | QuotaExceededError _ _ => 429
  end.

Definition code (e : AppError) : string :=
  match e with
  | ValidationError _ => "VALIDATION_ERROR"
  | NotFoundError _ => "NOT_FOUND"
  | VeoApiError _ => "VEO_API_ERROR"
  | UnsupportedModeError _ => "UNSUPPORTED_MODE"
  | QuotaExceededError _ _ => "QUOTA_EXCEEDED"
  end.

Definition message (e : AppError) : string :=
  match e with
  | ValidationError m | NotFoundError m | VeoApiError m => m
  | UnsupportedModeError mode =>
      "Video generation mode '" ++ mode_name mode ++ "' is not supported"
  | QuotaExceededError _ limit =>
      "Daily video generation quota exceeded. Limit: "
      ++ numberToString limit ++ " videos per day."
  end.

(** The status and the [error] object of the response; the [details]
    of a validation error are left out.  [production] is
    [process.env.NODE_ENV === 'production']. *)
Definition errorHandler (production : bool) (err : Thrown) : ErrorReply :=
  let response :=
    match err with
    | Service e =>
        {| http_status := statusCode e;
           error_code := code e;
           error_message := message e |}
    | AuthenticationError m =>
        {| http_status := 401;
           error_code := "AUTHENTICATION_ERROR";
           error_message := m |}
    | RateLimitError m =>
        {| http_status := 429;
           error_code := "RATE_LIMIT_EXCEEDED";
           error_message := m |}
    | Foreign _ =>
        {| http_status := 500;
           error_code := "INTERNAL_ERROR";
           error_message := "An unexpected error occurred" |}
    end in
  if production && (http_status response =? 500)
  then {| http_status := http_status response;
          error_code := error_code response;
          error_message := "An unexpected error occurred" |}
  else response.

(** The HTTP status of an answer: 202 from the generation handlers,
    200 from [res.json] of the status handler, 429 from the rate
    limiters' own handler, and the status set by [errorHandler] for an
    error passed to [next]. *)
Definition responseStatus (production : bool) (r : Response) : Z :=
  match r with
  | Accepted _ _ _ _ => 202
  | StatusReport _ => 200
  | TooManyRequests => 429
  | ErrorResponse e => http_status (errorHandler production (Service e))
  end.

End WithNumbers.

End ErrorHandler.

(** ** Authentication (middleware/auth.js) *)

Module Auth.
Import Stdlib.Strings.Ascii.
Import Veo.

(** [s.split(' ')] *)
Fixpoint split_space (s : string) : list string :=
  match s with
  | EmptyString => [""]
  | String c rest =>
      if Ascii.eqb c " "%char then "" :: split_space rest
      else
        match split_space rest with
        | [] => [String c ""]
        | first :: others => String c first :: others
        end
  end.

(** [verifyIdToken] is the Firebase call: it gives the decoded token, of
    which the routes read [uid] and [email], or rejects with an error
    that may carry a [code].  The result [inl m] is
    [next(new AuthenticationError(m))], [inr user] is [req.user]. *)
Definition firebaseAuth (verifyIdToken : string -> option string + User)
    (authorization : option string) : string + User :=
  match authorization with
  | None => inl "Authorization header is required"
  | Some authHeader =>
      if negb (truthy_str authHeader)
      then inl "Authorization header is required"
      else
        match split_space authHeader with
        | [scheme; idToken] =>
            if String.eqb scheme "Bearer" then
              match verifyIdToken idToken with
              | inr decodedToken => inr decodedToken
              | inl errorCode =>
                  if env_is errorCode "auth/id-token-expired"
                  then inl "Token has expired. Please sign in again."
                  else if env_is errorCode "auth/id-token-revoked"
                  then inl "Token has been revoked. Please sign in again."
                  else if env_is errorCode "auth/argument-error"
                  then inl "Invalid token format."
                  else inl "Invalid or expired authentication token."
              end
            else
              inl "Invalid Authorization header format. Expected: Bearer <token>"
        | _ =>
            inl "Invalid Authorization header format. Expected: Bearer <token>"
        end
  end.

(** A string without a space. *)
Definition spaceless (s : string) : Prop :=
  forall c, In c (String.list_ascii_of_string s) -> c <> " "%char.

End Auth.

(** * Properties *)

(** ** Quota ledger *)

Module QuotaFacts.
Import Quota.

Section WithConfig.
Variable cfg : Config.
Abbreviation dailyLimit := (quota_dailyVideoGenerations cfg).

Lemma getQuotaUsage_limit today uid qs :
  limit (getQuotaUsage cfg today uid qs) = dailyLimit.
Proof.
  unfold getQuotaUsage. destruct (qs !! uid) as [r|]; [|done].
  by destruct (String.eqb (date r) today).
Qed.

(** Whenever something remains, it is the limit minus what is used. *)
Lemma getQuotaUsage_remaining today uid qs :
  0 < remaining (getQuotaUsage cfg today uid qs) ->
  remaining (getQuotaUsage cfg today uid qs)
  = dailyLimit - used (getQuotaUsage cfg today uid qs).
Proof.
  unfold getQuotaUsage. destruct (qs !! uid) as [r|]; simpl; [|lia].
  destruct (String.eqb (date r) today); simpl; lia.
Qed.

Lemma getQuotaUsage_insert_today today uid qs c :
  getQuotaUsage cfg today uid (<[uid := {| date := today; count := c |}]> qs)
  = {| used := c; limit := dailyLimit; remaining := Z.max 0 (dailyLimit - c) |}.
Proof.
  unfold getQuotaUsage. rewrite lookup_insert_eq. simpl.
  by rewrite String.eqb_refl.
Qed.

Lemma consumeQuota_exceeded today uid qs :
  remaining (getQuotaUsage cfg today uid qs) <= 0 ->
  consumeQuota cfg today uid qs = (inl (QuotaExceededError uid dailyLimit), qs).
Proof.
  intros H. unfold consumeQuota.
  destruct (Z.leb_spec (remaining (getQuotaUsage cfg today uid qs)) 0); [|lia].
  by rewrite getQuotaUsage_limit.
Qed.

Lemma consumeQuota_granted today uid qs :
  0 < remaining (getQuotaUsage cfg today uid qs) ->
  consumeQuota cfg today uid qs
  = (inr {| used := used (getQuotaUsage cfg today uid qs) + 1;
            limit := dailyLimit;
            remaining := remaining (getQuotaUsage cfg today uid qs) - 1 |},
     <[uid := {| date := today;
                 count := used (getQuotaUsage cfg today uid qs) + 1 |}]> qs).
Proof.
  intros H. unfold consumeQuota.
  destruct (Z.leb_spec (remaining (getQuotaUsage cfg today uid qs)) 0); [lia|].
  by rewrite getQuotaUsage_limit.
Qed.

(** A call for another identity does not touch this identity's entry. *)
Lemma consumeQuota_other today uid uid' qs :
  uid <> uid' ->
  (consumeQuota cfg today uid' qs).2 !! uid = qs !! uid.
Proof.
  intros Hne. unfold consumeQuota.
  destruct (remaining (getQuotaUsage cfg today uid' qs) <=? 0); simpl; [done|].
  by rewrite lookup_insert_ne.
Qed.

(** The outcomes of [n] calls from a state in which [u] is used and
    [r] remains: the first [r] calls are granted, the rest refused. *)
Lemma consumeMany_outcomes n : forall today uid qs,
  let u := used (getQuotaUsage cfg today uid qs) in
  let r := remaining (getQuotaUsage cfg today uid qs) in
  let k := Nat.min n (Z.to_nat r) in
  (consumeMany cfg n today uid qs).1
  = (map (fun i : nat =>
            inr {| used := u + Z.of_nat i + 1;
                   limit := dailyLimit;
                   remaining := r - Z.of_nat i - 1 |})
         (seq 0 k)
     ++ replicate (n - Z.to_nat r)
          (inl (QuotaExceededError uid dailyLimit)))%list
  /\ (k <> 0%nat ->
      (consumeMany cfg n today uid qs).2 !! uid
      = Some {| date := today; count := u + Z.of_nat k |})
  /\ (k = 0%nat -> (consumeMany cfg n today uid qs).2 = qs).
Proof.
  induction n as [|n IH]; intros today uid qs u r k.
  - simpl. subst k. simpl. repeat split; try done.
  - simpl.
    destruct (Z_le_gt_dec r 0) as [Hr|Hr].
    + rewrite (consumeQuota_exceeded today uid qs Hr).
      specialize (IH today uid qs). simpl in IH.
      destruct (consumeMany cfg n today uid qs) as [rs qs2] eqn:E.
      simpl in *. fold u r in IH.
      assert (Z.to_nat r = 0%nat) as Hz by lia.
      subst k. rewrite Hz in *. rewrite Nat.min_0_r in *. simpl in *.
      destruct IH as (IH1 & IH2 & IH3).
      rewrite Nat.sub_0_r in IH1. rewrite IH1.

      repeat split; try done. 
    + rewrite (consumeQuota_granted today uid qs) by (fold r; lia).
      fold u r.
      set (qs1 := <[uid := {| date := today; count := u + 1 |}]> qs).
      pose proof (IH today uid qs1) as IH'. simpl in IH'.
      destruct (consumeMany cfg n today uid qs1) as [rs qs2] eqn:E.
      simpl in *.
      assert (Hrem : r = dailyLimit - u)
        by (apply getQuotaUsage_remaining; fold r; lia).
      unfold qs1 in IH'.
      rewrite !getQuotaUsage_insert_today in IH'. simpl in IH'.
      replace (Z.max 0 (dailyLimit - (u + 1))) with (r - 1) in IH' by lia.
      destruct IH' as (IH1 & IH2 & IH3).
      assert (Hk : Z.to_nat r = S (Z.to_nat (r - 1))) by lia.
      subst k. rewrite Hk. simpl.

      split; [|split].
      * f_equal; [f_equal; f_equal; lia|].
        rewrite IH1. f_equal.
        rewrite <- seq_shift, map_map.
        apply map_ext. intros i. f_equal. f_equal; lia.
      * intros _.
        destruct (Nat.eq_dec (Nat.min n (Z.to_nat (r - 1))) 0%nat) as [E0|E0].
        -- rewrite E0. rewrite (IH3 E0). unfold qs1.
           rewrite lookup_insert_eq. do 2 f_equal; lia.
        -- rewrite (IH2 E0). do 2 f_equal; lia.
      * intros; lia.
Qed.

(** What [consumeQuota] does for an identity depends on that identity's
    entry only. *)
Lemma getQuotaUsage_ext today uid qs qs' :
  qs !! uid = qs' !! uid ->
  getQuotaUsage cfg today uid qs = getQuotaUsage cfg today uid qs'.
Proof. intros H. unfold getQuotaUsage. by rewrite H. Qed.

Lemma consumeQuota_ext today uid qs qs' :
  qs !! uid = qs' !! uid ->
  (consumeQuota cfg today uid qs).1 = (consumeQuota cfg today uid qs').1
  /\ (consumeQuota cfg today uid qs).2 !! uid
     = (consumeQuota cfg today uid qs').2 !! uid.
Proof.
  intros H. unfold consumeQuota.
  rewrite (getQuotaUsage_ext today uid qs qs' H).
  destruct (_ <=? 0); simpl; [done|].
  by rewrite !lookup_insert_eq.
Qed.

Lemma consumeMany_ext n : forall today uid qs qs',
  qs !! uid = qs' !! uid ->
  (consumeMany cfg n today uid qs).1 = (consumeMany cfg n today uid qs').1.
Proof.
  induction n as [|n IH]; intros today uid qs qs' H; [done|]. simpl.
  destruct (consumeQuota_ext today uid qs qs' H) as [H1 H2].
  destruct (consumeQuota cfg today uid qs) as [r1 q1].
  destruct (consumeQuota cfg today uid qs') as [r2 q2].
  simpl in H1, H2. subst r2.
  specialize (IH today uid q1 q2 H2).
  destruct (consumeMany cfg n today uid q1) as [rs1 q1'].
  destruct (consumeMany cfg n today uid q2) as [rs2 q2'].
  simpl in IH. by subst rs2.
Qed.

(** However the calls of other identities are interleaved with those of
    [uid], the outcomes that [uid] gets are those of its own calls run
    back to back. *)
Lemma consumeEach_outcomesOf calls : forall today uid qs,
  outcomesOf uid (consumeEach cfg calls today qs).1
  = (consumeMany cfg
       (length (List.filter (fun c => String.eqb c uid) calls))
       today uid qs).1.
Proof.
  induction calls as [|c calls IH]; intros today uid qs; [done|].
  simpl. unfold outcomesOf in *.
  destruct (consumeQuota cfg today c qs) as [r q1] eqn:Hc.
  specialize (IH today uid q1).
  destruct (consumeEach cfg calls today q1) as [rs q2]. simpl in *.
  destruct (String.eqb_spec c uid) as [->|Hne]; simpl.
  - rewrite Hc.
    destruct (consumeMany cfg _ today uid q1) as [rs' q']. simpl in *.
    by rewrite IH.
  - rewrite IH. apply consumeMany_ext.
    pose proof (consumeQuota_other today uid c qs) as Hother.
    rewrite Hc in Hother. simpl in Hother. apply Hother. congruence.
Qed.

(** C8.  An identity with no quota record for the current day (no
    record at all, or a record stored for another day) is reported as
    having used nothing, with the whole daily limit remaining.
    [getQuotaUsage] only reads the store: it returns no store because
    it writes none. *)
Theorem getQuotaUsage_no_record_today today uid qs :
  (qs !! uid = None \/ exists r, qs !! uid = Some r /\ date r <> today) ->
  getQuotaUsage cfg today uid qs
  = {| used := 0; limit := dailyLimit; remaining := dailyLimit |}.
Proof.
  intros [Hnone | (r & Hr & Hdate)]; unfold getQuotaUsage.
  - by rewrite Hnone.
  - rewrite Hr. destruct (String.eqb_spec (date r) today); [done|reflexivity].
Qed.

(** C1.  From a state in which the identity has used nothing today,
    [n] consecutive [consumeQuota] calls on that day grant exactly the
    first [limit] of them (all [n] when [n] is smaller), the i-th grant
    reporting [used = i]; every later call is refused with
    [QuotaExceededError]; the count the ledger then holds is the number
    of grants and is within the limit.  In any state, a grant stores the
    previous count plus one, which is within the limit, and a refusal
    leaves the whole ledger as it was. *)
Theorem consume_grants_exactly_limit today uid qs n :
  used (getQuotaUsage cfg today uid qs) = 0 ->
  let granted := Nat.min n (Z.to_nat dailyLimit) in
  (consumeMany cfg n today uid qs).1
  = (map (fun i : nat =>
            inr {| used := Z.of_nat i + 1;
                   limit := dailyLimit;
                   remaining := dailyLimit - Z.of_nat i - 1 |})
         (seq 0 granted)
     ++ replicate (n - Z.to_nat dailyLimit)
          (inl (QuotaExceededError uid dailyLimit)))%list
  /\ used (getQuotaUsage cfg today uid (consumeMany cfg n today uid qs).2)
     = Z.of_nat granted
  /\ Z.of_nat granted <= Z.max 0 dailyLimit
  /\ (forall q us q',
        consumeQuota cfg today uid q = (inr us, q') ->
        used us = used (getQuotaUsage cfg today uid q) + 1
        /\ used us <= dailyLimit
        /\ q' !! uid = Some {| date := today; count := used us |})
  /\ (forall q e q',
        consumeQuota cfg today uid q = (inl e, q') ->
        e = QuotaExceededError uid dailyLimit /\ q' = q).
Proof.
  intros Hfresh granted.
  pose proof (consumeMany_outcomes n today uid qs) as (H1 & H2 & H3).
  simpl in H1, H2, H3. rewrite Hfresh in H1, H2.
  set (r := remaining (getQuotaUsage cfg today uid qs)) in *.
  assert (Hr : Z.to_nat r = Z.to_nat dailyLimit /\ (0 < r -> r = dailyLimit)).
  { pose proof (getQuotaUsage_remaining today uid qs) as Hs.
    fold r in Hs. rewrite Hfresh in Hs.
    destruct (Z_le_gt_dec r 0) as [Hle|Hgt]; [|lia].
    split; [|lia].
    assert (dailyLimit <= 0); [|lia].
    subst r. revert Hle Hfresh. unfold getQuotaUsage.
    destruct (qs !! uid) as [rec|]; simpl; [|lia].
    destruct (String.eqb (date rec) today); simpl; lia. }
  destruct Hr as [Hr1 Hr2]. rewrite Hr1 in H1, H2, H3. fold granted in H1, H2, H3.
  split; [|split; [|split; [|split]]].
  - rewrite H1. f_equal. apply map_ext_in. intros i Hi.
    apply in_seq in Hi. rewrite Hr2 by lia. do 2 f_equal; lia.
  - destruct (Nat.eq_dec granted 0%nat) as [E0|E0].
    + rewrite (H3 E0), E0. exact Hfresh.
    + specialize (H2 E0). unfold getQuotaUsage at 1. rewrite H2. simpl.
      rewrite String.eqb_refl. simpl. lia.
  - subst granted. lia.
  - intros q us q' Hq.
    destruct (Z_le_gt_dec (remaining (getQuotaUsage cfg today uid q)) 0) as [Hle|Hgt].
    + rewrite consumeQuota_exceeded in Hq by done. discriminate.
    + rewrite consumeQuota_granted in Hq by lia.
      injection Hq as <- <-. simpl.
      pose proof (getQuotaUsage_remaining today uid q).
      split; [done|]. split; [lia|]. by rewrite lookup_insert_eq.
  - intros q e q' Hq.
    destruct (Z_le_gt_dec (remaining (getQuotaUsage cfg today uid q)) 0) as [Hle|Hgt].
    + rewrite consumeQuota_exceeded in Hq by done. by injection Hq as <- <-.
    + rewrite consumeQuota_granted in Hq by lia. discriminate.
Qed.

End WithConfig.

Lemma getQuotaUsage_no_record_today_witness :
  getQuotaUsage (config limit2_env) "2026-03-02" "alice"
    {[ "alice" := {| date := "2026-03-01"; count := 2 |} ]}
  = {| used := 0; limit := 2; remaining := 2 |}.
Proof.
  apply (getQuotaUsage_no_record_today (config limit2_env)).
  right. exists {| date := "2026-03-01"; count := 2 |}.
  split; [reflexivity | discriminate].
Defined.

Lemma consume_grants_exactly_limit_witness :
  (consumeMany (config limit2_env) 3 "2026-03-02" "alice" ∅).1
  = [inr {| used := 1; limit := 2; remaining := 1 |};
     inr {| used := 2; limit := 2; remaining := 0 |};
     inl (QuotaExceededError "alice" 2)].
Proof.
  exact (proj1 (consume_grants_exactly_limit (config limit2_env)
                  "2026-03-02" "alice" ∅ 3 eq_refl)).
Defined.

End QuotaFacts.

(** ** Request building *)

Module VeoFacts.
Import Veo.

(** [reduce] with the comparison of [normalizeDuration] keeps an element
    of the array that no other element beats. *)
Lemma fold_left_closest (requested : Z) (l : list Z) : forall a,
  let pick := fun prev curr =>
    if Z.abs (curr - requested) <? Z.abs (prev - requested)
    then curr else prev in
  In (fold_left pick l a) (a :: l)
  /\ forall x, In x (a :: l) ->
       Z.abs (fold_left pick l a - requested) <= Z.abs (x - requested).
Proof.
  induction l as [|b l IH]; intros a pick; simpl.
  - split; [by left|]. intros x [->|[]]. lia.
  - specialize (IH (pick a b)). simpl in IH. destruct IH as [Hin Hmin].
    fold pick in Hin, Hmin.
    assert (Hpick : (pick a b = a \/ pick a b = b)
                    /\ Z.abs (pick a b - requested) <= Z.abs (a - requested)
                    /\ Z.abs (pick a b - requested) <= Z.abs (b - requested)).
    { unfold pick.
      destruct (Z.ltb_spec (Z.abs (b - requested)) (Z.abs (a - requested)));
        repeat split; auto; lia. }
    destruct Hpick as (Hor & Ha & Hb).
    split.
    + destruct Hin as [Hin|Hin]; [|by right; right].
      rewrite <- Hin. destruct Hor as [->| ->]; [by left | by right; left].
    + intros x [->|[->|Hx]].
      * etrans; [apply Hmin; by left | done].
      * etrans; [apply Hmin; by left | done].
      * apply Hmin. by right.
Qed.

(** With any configuration whose list of allowed durations is not empty,
    the result is an allowed duration nearest to the effective request
    ([duration || default]). *)
Lemma normalizeDuration_closest cfg duration :
  allowedDurations (veo_limits cfg) <> [] ->
  exists r,
    normalizeDuration cfg duration = Some r
    /\ In r (allowedDurations (veo_limits cfg))
    /\ forall a, In a (allowedDurations (veo_limits cfg)) ->
         Z.abs (r - num_or duration (d_durationSeconds (veo_defaults cfg)))
         <= Z.abs (a - num_or duration (d_durationSeconds (veo_defaults cfg))).
Proof.
  intros Hne. unfold normalizeDuration, reduce.
  destruct (allowedDurations (veo_limits cfg)) as [|a l]; [done|].
  eexists. split; [reflexivity|].
  apply fold_left_closest.
Qed.

(** C6.  With the configured durations [4, 6, 8] (and default 5), every
    requested duration is normalized to an allowed duration at minimal
    absolute distance from the request; it is neither rejected nor
    clamped.  A request of 5 gives 4, a request of 7 gives 6 (the earlier
    of two equally near values is kept), a request of 4 gives 4. *)
Theorem normalizeDuration_nearest env (d : Z) :
  (exists r,
     normalizeDuration (config env) (Some d) = Some r
     /\ In r [4; 6; 8]
     /\ forall a, In a [4; 6; 8] -> Z.abs (r - d) <= Z.abs (a - d))
  /\ normalizeDuration (config env) (Some 5) = Some 4
  /\ normalizeDuration (config env) (Some 7) = Some 6
  /\ normalizeDuration (config env) (Some 4) = Some 4.
Proof.
  split; [|repeat split; reflexivity].
  destruct (normalizeDuration_closest (config env) (Some d)) as (r & Hr & Hin & Hmin);
    [discriminate|].
  exists r. split; [exact Hr|]. split; [exact Hin|].
  simpl in Hin, Hmin. unfold num_or in Hmin.
  destruct (Z.eqb_spec d 0) as [->|Hd]; [|exact Hmin].
  (* a request of 0 is falsy: the default 5 is used, and 4 is nearest to both *)
  assert (r = 4) as -> by (vm_compute in Hr; congruence).
  intros a Ha. simpl in Ha. destruct Ha as [<-|[<-|[<-|[]]]]; lia.
Qed.

(** *** The forwarding allowlist *)

Section Forwarding.
Variable cfg : Config.
Variable params : Params.
Abbreviation toggles := (veo_forwardParams cfg).

(** Each guarded assignment writes its own key only. *)
Lemma forward_fps_other o k :
  k <> "fps" -> forward_fps cfg params o !! k = o !! k.
Proof.
  intros Hk. unfold forward_fps. destruct (fps params); [|done].
  destruct (_ && _); [|done]. by rewrite lookup_insert_ne.
Qed.

Lemma forward_negativePrompt_other o k :
  k <> "negativePrompt" -> forward_negativePrompt cfg params o !! k = o !! k.
Proof.
  intros Hk. unfold forward_negativePrompt.
  destruct (negativePrompt params); [|done].
  destruct (_ && _); [|done]. by rewrite lookup_insert_ne.
Qed.

Lemma forward_seed_other o k :
  k <> "seed" -> forward_seed cfg params o !! k = o !! k.
Proof.
  intros Hk. unfold forward_seed. destruct (seed params); try done.
  destruct (fp_seed _); [|done]. by rewrite lookup_insert_ne.
Qed.

Lemma forward_generateAudio_other o k :
  k <> "generateAudio" -> forward_generateAudio cfg params o !! k = o !! k.
Proof.
  intros Hk. unfold forward_generateAudio.
  destruct (generateAudio params); try done;
    (destruct (fp_generateAudio _); [|done]); by rewrite lookup_insert_ne.
Qed.

Lemma forward_resolution_other o k :
  k <> "resolution" -> forward_resolution cfg params o !! k = o !! k.
Proof.
  intros Hk. unfold forward_resolution. destruct (quality params); [|done].
  destruct (_ && _); [|done]. by rewrite lookup_insert_ne.
Qed.

(** What each guarded assignment leaves under its own key, when the
    key was not there before. *)
Lemma forward_fps_own o v :
  o !! "fps" = None ->
  forward_fps cfg params o !! "fps" = Some v
  <-> fp_fps toggles = true
      /\ exists z, fps params = Some z /\ z <> 0 /\ v = VNum z.
Proof.
  intros Ho. unfold forward_fps. destruct (fps params) as [z|].
  - destruct (fp_fps toggles); simpl.
    + destruct (Z.eqb_spec z 0) as [->|Hz]; simpl.
      * rewrite Ho. split; [done|]. intros (_ & z & [= <-] & ? & _). done.
      * rewrite lookup_insert_eq. split.
        -- intros [= <-]. eauto.
        -- intros (_ & z' & [= <-] & _ & ->). done.
    + rewrite Ho. split; [done|]. intros [? _]. done.
  - rewrite Ho. split; [done|]. intros (_ & z & ? & _). done.
Qed.

Lemma forward_negativePrompt_own o v :
  o !! "negativePrompt" = None ->
  forward_negativePrompt cfg params o !! "negativePrompt" = Some v
  <-> fp_negativePrompt toggles = true
      /\ exists s, negativePrompt params = Some s /\ s <> "" /\ v = VStr s.
Proof.
  intros Ho. unfold forward_negativePrompt, truthy_str.
  destruct (negativePrompt params) as [s|].
  - destruct (fp_negativePrompt toggles); simpl.
    + destruct (String.eqb_spec s "") as [->|Hs]; simpl.
      * rewrite Ho. split; [done|]. intros (_ & s & [= <-] & ? & _). done.
      * rewrite lookup_insert_eq. split.
        -- intros [= <-]. eauto.
        -- intros (_ & s' & [= <-] & _ & ->). done.
    + rewrite Ho. split; [done|]. intros [? _]. done.
  - rewrite Ho. split; [done|]. intros (_ & s & ? & _). done.
Qed.

Lemma forward_seed_own o v :
  o !! "seed" = None ->
  forward_seed cfg params o !! "seed" = Some v
  <-> fp_seed toggles = true
      /\ exists z, seed params = JVal z /\ v = VNum z.
Proof.
  intros Ho. unfold forward_seed. destruct (seed params) as [| |z].
  - rewrite Ho. split; [done|]. intros (_ & z & ? & _). done.
  - rewrite Ho. split; [done|]. intros (_ & z & ? & _). done.
  - destruct (fp_seed toggles).
    + rewrite lookup_insert_eq. split.
      * intros [= <-]. eauto.
      * intros (_ & z' & [= <-] & ->). done.
    + rewrite Ho. split; [done|]. intros [? _]. done.
Qed.

Lemma forward_generateAudio_own o v :
  o !! "generateAudio" = None ->
  forward_generateAudio cfg params o !! "generateAudio" = Some v
  <-> fp_generateAudio toggles = true
      /\ ((exists b, generateAudio params = JVal b /\ v = VBool b)
          \/ (generateAudio params = JNull /\ v = VNull)).
Proof.
  intros Ho. unfold forward_generateAudio.
  destruct (generateAudio params) as [| |b].
  - rewrite Ho. split; [done|]. intros (_ & [(b & ? & _)|[? _]]); done.
  - destruct (fp_generateAudio toggles).
    + rewrite lookup_insert_eq. split.
      * intros [= <-]. eauto.
      * intros (_ & [(b & ? & _)|[_ ->]]); done.
    + rewrite Ho. split; [done|]. intros [? _]. done.
  - destruct (fp_generateAudio toggles).
    + rewrite lookup_insert_eq. split.
      * intros [= <-]. eauto.
      * intros (_ & [(b' & [= <-] & ->)|[? _]]); done.
    + rewrite Ho. split; [done|]. intros [? _]. done.
Qed.

Lemma forward_resolution_own o v :
  o !! "resolution" = None ->
  forward_resolution cfg params o !! "resolution" = Some v
  <-> fp_resolution toggles = true
      /\ quality params = Some "high" /\ v = VStr "1080p".
Proof.
  intros Ho. unfold forward_resolution. destruct (quality params) as [q|].
  - destruct (fp_resolution toggles); simpl.
    + destruct (String.eqb_spec q "high") as [->|Hq].
      * rewrite lookup_insert_eq. split.
        -- intros [= <-]. eauto.
        -- intros (_ & _ & ->). done.
      * rewrite Ho. split; [done|]. intros (_ & [= ?] & _). done.
    + rewrite Ho. split; [done|]. intros [? _]. done.
  - rewrite Ho. split; [done|]. intros (_ & ? & _). done.
Qed.

End Forwarding.

Lemma structToValue_lookup (o : gmap string Value) k :
  structToValue o !! k = convertValue <$> (o !! k).
Proof. unfold structToValue. by rewrite lookup_fmap. Qed.

(** C7, as the code has it.  In the parameters built for the provider,
    each allowlisted key is present exactly when its forwarding toggle is
    enabled and the guard the code puts on the request field holds: a
    non-zero [fps], a non-empty [negativePrompt], a [seed] that is
    neither [undefined] nor [null], a [generateAudio] that is not
    [undefined], and for [resolution] a [quality] equal to ["high"].
    The forwarded value is the supplied one ([resolution] is always
    ["1080p"]).  So a disabled toggle or an absent field always leaves
    the key out. *)
Theorem buildRequestParameters_forwarding cfg params o :
  buildRequestParameters cfg params = Some o ->
  (forall v, o !! "fps" = Some v
     <-> fp_fps (veo_forwardParams cfg) = true
         /\ exists z, fps params = Some z /\ z <> 0 /\ v = VNum z)
  /\ (forall v, o !! "negativePrompt" = Some v
       <-> fp_negativePrompt (veo_forwardParams cfg) = true
           /\ exists s, negativePrompt params = Some s /\ s <> "" /\ v = VStr s)
  /\ (forall v, o !! "seed" = Some v
       <-> fp_seed (veo_forwardParams cfg) = true
           /\ exists z, seed params = JVal z /\ v = VNum z)
  /\ (forall v, o !! "generateAudio" = Some v
       <-> fp_generateAudio (veo_forwardParams cfg) = true
           /\ ((exists b, generateAudio params = JVal b /\ v = VBool b)
               \/ (generateAudio params = JNull /\ v = VNull)))
  /\ (forall v, o !! "resolution" = Some v
       <-> fp_resolution (veo_forwardParams cfg) = true
           /\ quality params = Some "high" /\ v = VStr "1080p").
Proof.
  unfold buildRequestParameters.
  destruct (normalizeDuration cfg (durationSeconds params)) as [d|]; [|done].
  intros [= <-].
  split; [|split; [|split; [|split]]]; intros v.
  - rewrite forward_resolution_other, forward_generateAudio_other,
      forward_seed_other, forward_negativePrompt_other by done.
    by apply forward_fps_own.
  - rewrite forward_resolution_other, forward_generateAudio_other,
      forward_seed_other by done.
    apply forward_negativePrompt_own.
    by rewrite forward_fps_other.
  - rewrite forward_resolution_other, forward_generateAudio_other by done.
    apply forward_seed_own.
    by rewrite forward_negativePrompt_other, forward_fps_other.
  - rewrite forward_resolution_other by done.
    apply forward_generateAudio_own.
    by rewrite forward_seed_other, forward_negativePrompt_other,
      forward_fps_other.
  - apply forward_resolution_own.
    by rewrite forward_generateAudio_other, forward_seed_other,
      forward_negativePrompt_other, forward_fps_other.
Qed.

Lemma buildRequestParameters_forwarding_witness :
  default ∅ (buildRequestParameters (config forward_all_env) highQualityParams)
    !! "resolution" = Some (VStr "1080p").
Proof.
  apply (proj2 (proj2 (proj2 (proj2
           (buildRequestParameters_forwarding (config forward_all_env)
              highQualityParams _ eq_refl))))).
  repeat split; reflexivity.
Defined.

(** C7 as the specification words it does not hold: with the resolution
    and negative-prompt toggles enabled, a request that supplies
    [quality] (as ["standard"]) and [negativePrompt] (as the empty
    string) reaches the provider without [resolution] and without
    [negativePrompt]. *)
Lemma supplied_field_not_forwarded :
  fp_resolution (veo_forwardParams (config forward_all_env)) = true
  /\ quality standardQualityParams = Some "standard"
  /\ fp_negativePrompt (veo_forwardParams (config forward_all_env)) = true
  /\ negativePrompt standardQualityParams = Some ""
  /\ exists o,
       buildRequestParameters (config forward_all_env) standardQualityParams
       = Some o
       /\ o !! "resolution" = None
       /\ o !! "negativePrompt" = None
       /\ structToValue o !! "resolution" = None
       /\ structToValue o !! "negativePrompt" = None.
Proof.
  repeat split; try reflexivity.
  eexists. repeat split; reflexivity.
Qed.

End VeoFacts.

(** ** Job store *)

Module JobStoreFacts.
Import Veo Server.

Lemma strict_eq_str_spec v s :
  strict_eq_str v s = true <-> v = VStr s.
Proof.
  destruct v; simpl; try (split; [discriminate|congruence]).
  destruct (String.eqb_spec s0 s); split; congruence.
Qed.

Lemma getJobStatus_unknown jobId userId jobStore :
  jobStore !! jobId = None -> getJobStatus jobId userId jobStore = None.
Proof. intros H. unfold getJobStatus. by rewrite H. Qed.

(** Without an identity (the default [null], or a falsy one) the
    ownership test is skipped. *)
Lemma getJobStatus_no_identity jobId jobStore :
  getJobStatus jobId None jobStore = jobStore !! jobId
  /\ getJobStatus jobId (Some "") jobStore = jobStore !! jobId.
Proof. unfold getJobStatus. by destruct (jobStore !! jobId). Qed.

Lemma getJobStatus_owner jobId caller jobStore job :
  jobStore !! jobId = Some job ->
  field job "userId" = VStr caller ->
  getJobStatus jobId (Some caller) jobStore = Some job.
Proof.
  intros Hjob Hown. unfold getJobStatus. rewrite Hjob, Hown. simpl.
  rewrite String.eqb_refl. by rewrite andb_false_r.
Qed.

(** C4.  A caller identity is a non-empty string (the [uid] of a verified
    token).  For a job that exists under another owner, [getJobStatus]
    answers [null], which is its answer for an unknown job id and its
    answer for the same id once the job is deleted; the status route
    turns both into the same [NotFoundError]. *)
Theorem getJobStatus_foreign_is_not_found
    {L} (jobId caller : string) (job : gmap string Value) (w : World L)
    (req : Request) :
  caller <> "" ->
  jobStore w !! jobId = Some job ->
  field job "userId" <> VStr caller ->
  uid (user req) = caller ->
  getJobStatus jobId (Some caller) (jobStore w) = None
  /\ (forall unknown, jobStore w !! unknown = None ->
       getJobStatus unknown (Some caller) (jobStore w)
       = getJobStatus jobId (Some caller) (jobStore w))
  /\ getJobStatus jobId (Some caller) (delete jobId (jobStore w))
     = getJobStatus jobId (Some caller) (jobStore w)
  /\ statusHandler jobId req w
     = (inl (NotFoundError ("Job " ++ jobId ++ " not found")), w)
  /\ (statusHandler jobId req (set_jobStore (delete jobId (jobStore w)) w)).1
     = (statusHandler jobId req w).1.
Proof.
  intros Hcaller Hjob Hown Hreq.
  assert (Hnone : getJobStatus jobId (Some caller) (jobStore w) = None).
  { unfold getJobStatus. rewrite Hjob. unfold truthy_str.
    destruct (String.eqb_spec caller ""); [done|]. simpl.
    destruct (strict_eq_str (field job "userId") caller) eqn:E; [|done].
    apply strict_eq_str_spec in E. done. }
  assert (Hdel : getJobStatus jobId (Some caller) (delete jobId (jobStore w)) = None).
  { apply getJobStatus_unknown, lookup_delete_eq. }
  repeat split.
  - exact Hnone.
  - intros unknown Hun. by rewrite Hnone, getJobStatus_unknown.
  - by rewrite Hnone, Hdel.
  - unfold statusHandler. by rewrite Hreq, Hnone.
  - unfold statusHandler. simpl. by rewrite Hreq, Hnone, Hdel.
Qed.

Lemma getJobStatus_foreign_is_not_found_witness :
  getJobStatus "job-1" (Some "bob") (jobStore (set_jobStore {[ "job-1" := aliceJob ]} emptyWorld))
  = None.
Proof.
  apply (getJobStatus_foreign_is_not_found "job-1" "bob" aliceJob
           (set_jobStore {[ "job-1" := aliceJob ]} emptyWorld)
           {| user := {| uid := "bob"; email := None |};
              ip := "10.0.0.1";
              body := standardQualityParams |}).
  - discriminate.
  - reflexivity.
  - discriminate.
  - reflexivity.
Defined.

(** C9.  A job whose [createdAt] lies more than the retention window
    before the sweep is deleted, whatever its status and other fields;
    a job whose [createdAt] lies within the window is kept unchanged.
    The default window is 24 hours. *)
Theorem cleanupOldJobs_by_age jobStore now maxAgeMs jobId job createdAt :
  jobStore !! jobId = Some job ->
  field job "createdAt" = VTime createdAt ->
  (default defaultMaxAgeMs maxAgeMs < now - createdAt ->
   cleanupOldJobs now maxAgeMs jobStore !! jobId = None)
  /\ (now - createdAt <= default defaultMaxAgeMs maxAgeMs ->
      cleanupOldJobs now maxAgeMs jobStore !! jobId = Some job)
  /\ defaultMaxAgeMs = 86400000.
Proof.
  intros Hjob Hcreated. unfold cleanupOldJobs.
  assert (Hexp : expired now (default defaultMaxAgeMs maxAgeMs) job
                 = (default defaultMaxAgeMs maxAgeMs <? now - createdAt)).
  { unfold expired. by rewrite Hcreated. }
  split; [|split; [|reflexivity]].
  - intros Hold. apply map_lookup_filter_None_2. right.
    intros job' Hjob'. simpl. rewrite Hjob in Hjob'. injection Hjob' as <-.
    rewrite Hexp. destruct (Z.ltb_spec (default defaultMaxAgeMs maxAgeMs)
                              (now - createdAt)); [done|lia].
  - intros Hyoung. apply map_lookup_filter_Some_2; [done|]. simpl.
    rewrite Hexp. apply Z.ltb_ge. lia.
Qed.

Lemma cleanupOldJobs_by_age_witness :
  cleanupOldJobs 86400001 None {[ "job-1" := aliceJob ]} !! "job-1" = None
  /\ cleanupOldJobs 86400000 None {[ "job-1" := aliceJob ]} !! "job-1"
     = Some aliceJob.
Proof.
  pose proof (cleanupOldJobs_by_age {[ "job-1" := aliceJob ]} 86400001 None
                "job-1" aliceJob 0 eq_refl eq_refl) as (Hold & _ & _).
  pose proof (cleanupOldJobs_by_age {[ "job-1" := aliceJob ]} 86400000 None
                "job-1" aliceJob 0 eq_refl eq_refl) as (_ & Hyoung & _).
  split; [apply Hold | apply Hyoung]; simpl; unfold defaultMaxAgeMs; lia.
Defined.

(** A record without a usable [createdAt] survives every sweep. *)
Lemma cleanupOldJobs_keeps_undated jobStore jobId job sweeps :
  jobStore !! jobId = Some job ->
  dateGetTime (field job "createdAt") = None ->
  foldl (fun st sweep => cleanupOldJobs sweep.1 sweep.2 st) jobStore sweeps
    !! jobId = Some job.
Proof.
  intros Hjob Hdate. revert jobStore Hjob.
  induction sweeps as [|[now maxAge] sweeps IH]; intros jobStore Hjob; simpl.
  - exact Hjob.
  - apply IH. unfold cleanupOldJobs.
    apply map_lookup_filter_Some_2; [done|]. simpl.
    unfold expired. by rewrite Hdate.
Qed.

Lemma updateJobStatus_lookup jobId updates jobStore :
  updateJobStatus jobId updates jobStore !! jobId
  = Some (<["jobId" := VStr jobId]> (updates ∪ default ∅ (jobStore !! jobId))).
Proof. unfold updateJobStatus. by rewrite lookup_insert_eq. Qed.

Lemma updateJobStatus_other jobId updates jobStore j :
  j <> jobId ->
  updateJobStatus jobId updates jobStore !! j = jobStore !! j.
Proof. intros Hj. unfold updateJobStatus. by rewrite lookup_insert_ne. Qed.

(** C10.  [updateJobStatus] is an upsert that merges field by field.
    The record it writes has [jobId], every field of the update with the
    update's value, and every other field as the existing record had it
    (as absent when there was no record); other jobs are untouched.  On
    an absent job id the record is exactly the update plus [jobId]; so
    the FAILED or COMPLETED update of a task whose job was deleted
    re-creates a record with neither [createdAt] nor [userId], and no
    sequence of sweeps, at any times and with any windows, removes it. *)
Theorem updateJobStatus_upsert jobStore jobId updates :
  (exists job',
     updateJobStatus jobId updates jobStore !! jobId = Some job'
     /\ job' !! "jobId" = Some (VStr jobId)
     /\ (forall k, k <> "jobId" -> is_Some (updates !! k) ->
          job' !! k = updates !! k)
     /\ (forall k, k <> "jobId" -> updates !! k = None ->
          job' !! k = default ∅ (jobStore !! jobId) !! k))
  /\ (forall j, j <> jobId ->
       updateJobStatus jobId updates jobStore !! j = jobStore !! j)
  /\ (jobStore !! jobId = None ->
      updateJobStatus jobId updates jobStore !! jobId
      = Some (<["jobId" := VStr jobId]> updates))
  /\ (jobStore !! jobId = None ->
      forall late message result now,
        late = failedFields message now \/ late = completedFields result now ->
        exists job',
          updateJobStatus jobId late jobStore !! jobId = Some job'
          /\ job' !! "createdAt" = None
          /\ job' !! "userId" = None
          /\ forall sweeps,
               foldl (fun st sweep => cleanupOldJobs sweep.1 sweep.2 st)
                 (updateJobStatus jobId late jobStore) sweeps !! jobId
               = Some job').
Proof.
  split; [|split; [|split]].
  - eexists. split; [apply updateJobStatus_lookup|].
    split; [by rewrite lookup_insert_eq|]. split.
    + intros k Hk Hup. rewrite lookup_insert_ne by done.
      by apply lookup_union_l'.
    + intros k Hk Hup. rewrite lookup_insert_ne by done.
      by apply lookup_union_r.
  - intros j Hj. by apply updateJobStatus_other.
  - intros Habsent. rewrite updateJobStatus_lookup, Habsent. simpl.
    by rewrite (right_id_L ∅ (∪)).
  - intros Habsent late message result now Hlate.
    eexists. split; [apply updateJobStatus_lookup|].
    rewrite Habsent. simpl. rewrite (right_id_L ∅ (∪)).
    assert (Hc : (<["jobId" := VStr jobId]> late : gmap string Value)
                   !! "createdAt" = None)
      by (destruct Hlate as [-> | ->]; reflexivity).
    assert (Hu : (<["jobId" := VStr jobId]> late : gmap string Value)
                   !! "userId" = None)
      by (destruct Hlate as [-> | ->]; reflexivity).
    split; [exact Hc|]. split; [exact Hu|].
    intros sweeps. apply cleanupOldJobs_keeps_undated.
    + rewrite updateJobStatus_lookup, Habsent. simpl.
      by rewrite (right_id_L ∅ (∪)).
    + unfold field. by rewrite Hc.
Qed.

End JobStoreFacts.

(** ** Job life cycle *)

Module LifecycleFacts.
Import Veo Server JobStoreFacts.

(** The status and the outcome fields that each update sets. *)
Lemma pendingFields_shape mode now user summary :
  pendingFields mode now user summary !! "status" = Some (VStr "PENDING")
  /\ pendingFields mode now user summary !! "result" = None
  /\ pendingFields mode now user summary !! "error" = None
  /\ pendingFields mode now user summary !! "userId" = Some (VStr (uid user))
  /\ pendingFields mode now user summary !! "createdAt" = Some (VTime now).
Proof. repeat split; reflexivity. Qed.

Lemma processingFields_shape :
  processingFields !! "status" = Some (VStr "PROCESSING")
  /\ processingFields !! "result" = None
  /\ processingFields !! "error" = None.
Proof. repeat split; reflexivity. Qed.

Lemma completedFields_shape result now :
  completedFields result now !! "status" = Some (VStr "COMPLETED")
  /\ completedFields result now !! "result" = Some result
  /\ completedFields result now !! "error" = None.
Proof. repeat split; reflexivity. Qed.

Lemma failedFields_shape message now :
  failedFields message now !! "status" = Some (VStr "FAILED")
  /\ failedFields message now !! "result" = None
  /\ failedFields message now !! "error" = Some (VStr message).
Proof. repeat split; reflexivity. Qed.

(** Reading a field of the record that [updateJobStatus] writes. *)
Lemma merged_lookup (jobId : string) (updates existing : gmap string Value) k :
  k <> "jobId" ->
  (<["jobId" := VStr jobId]> (updates ∪ existing) : gmap string Value) !! k
  = match updates !! k with
    | Some v => Some v
    | None => existing !! k
    end.
Proof.
  intros Hk. rewrite lookup_insert_ne by done. rewrite lookup_union.
  destruct (updates !! k), (existing !! k); reflexivity.
Qed.

Lemma job_status_of_field (job : gmap string Value) st :
  job !! "status" = Some (VStr (status_name st)) -> job_status job = Some st.
Proof.
  intros H. unfold job_status, field. rewrite H. by destruct st.
Qed.

Lemma transition_preserves s s' :
  transition s s' ->
  all_match s /\ owned_clean s ->
  all_match s' /\ owned_clean s'.
Proof.
  intros Hstep [Hall Hown].
  destruct Hstep as [s mode now jobId user summary Hfresh Hph
                    | s jobId Hph | s jobId fields now Hph
                    | s jobId message now Hph | s now maxAge]; simpl.
  - (* create *)
    assert (Hnew : forall job,
              updateJobStatus jobId (pendingFields mode now user summary)
                (js_store s) !! jobId = Some job ->
              job_status job = Some PENDING
              /\ job !! "result" = None /\ job !! "error" = None).
    { intros job. rewrite updateJobStatus_lookup, Hfresh. simpl.
      intros [= <-]. rewrite !merged_lookup by done.
      split; [apply (job_status_of_field _ PENDING);
              by rewrite merged_lookup by done|].
      split; reflexivity. }
    split.
    + intros j job Hj. simpl in Hj. destruct (decide (j = jobId)) as [->|Hne].
      * destruct (Hnew job Hj) as (Hst & Hr & He).
        unfold outcome_matches_status. by rewrite Hst.
      * rewrite updateJobStatus_other in Hj by done. by eapply Hall.
    + intros j ph job Hp Hj. simpl in Hp, Hj.
      destruct (decide (j = jobId)) as [->|Hne].
      * by destruct (Hnew job Hj) as (_ & Hr & He).
      * rewrite updateJobStatus_other in Hj by done.
        rewrite lookup_insert_ne in Hp by done. by eapply Hown.
  - (* processing *)
    assert (Hnew : forall job,
              updateJobStatus jobId processingFields (js_store s) !! jobId
              = Some job ->
              job_status job = Some PROCESSING
              /\ job !! "result" = None /\ job !! "error" = None).
    { intros job. rewrite updateJobStatus_lookup. intros [= <-].
      rewrite !merged_lookup by done.
      split; [apply (job_status_of_field _ PROCESSING);
              by rewrite merged_lookup by done|].
      destruct processingFields_shape as (_ & -> & ->).
      destruct (js_store s !! jobId) as [old|] eqn:Hold; simpl.
      - by eapply Hown.
      - by rewrite !lookup_empty. }
    split.
    + intros j job Hj. simpl in Hj. destruct (decide (j = jobId)) as [->|Hne].
      * destruct (Hnew job Hj) as (Hst & Hr & He).
        unfold outcome_matches_status. by rewrite Hst.
      * rewrite updateJobStatus_other in Hj by done. by eapply Hall.
    + intros j ph job Hp Hj. simpl in Hp, Hj.
      destruct (decide (j = jobId)) as [->|Hne].
      * by destruct (Hnew job Hj) as (_ & Hr & He).
      * rewrite updateJobStatus_other in Hj by done.
        rewrite lookup_insert_ne in Hp by done. by eapply Hown.
  - (* completed *)
    split.
    + intros j job Hj. simpl in Hj. destruct (decide (j = jobId)) as [->|Hne].
      * rewrite updateJobStatus_lookup in Hj. injection Hj as <-.
        unfold outcome_matches_status.
        rewrite (job_status_of_field _ COMPLETED)
          by (by rewrite merged_lookup by done).
        rewrite !merged_lookup by done.
        destruct (completedFields_shape (VObj fields) now) as (_ & -> & ->).
        split; [by eexists|].
        destruct (js_store s !! jobId) as [old|] eqn:Hold; simpl.
        -- by eapply Hown.
        -- by rewrite lookup_empty.
      * rewrite updateJobStatus_other in Hj by done. by eapply Hall.
    + intros j ph job Hp Hj. simpl in Hp, Hj.
      destruct (decide (j = jobId)) as [->|Hne].
      * by rewrite lookup_delete_eq in Hp.
      * rewrite updateJobStatus_other in Hj by done.
        rewrite lookup_delete_ne in Hp by done. by eapply Hown.
  - (* failed *)
    split.
    + intros j job Hj. simpl in Hj. destruct (decide (j = jobId)) as [->|Hne].
      * rewrite updateJobStatus_lookup in Hj. injection Hj as <-.
        unfold outcome_matches_status.
        rewrite (job_status_of_field _ FAILED)
          by (by rewrite merged_lookup by done).
        rewrite !merged_lookup by done.
        destruct (failedFields_shape message now) as (_ & -> & ->).
        split; [by eexists|].
        destruct (js_store s !! jobId) as [old|] eqn:Hold; simpl.
        -- by eapply Hown.
        -- by rewrite lookup_empty.
      * rewrite updateJobStatus_other in Hj by done. by eapply Hall.
    + intros j ph job Hp Hj. simpl in Hp, Hj.
      destruct (decide (j = jobId)) as [->|Hne].
      * by rewrite lookup_delete_eq in Hp.
      * rewrite updateJobStatus_other in Hj by done.
        rewrite lookup_delete_ne in Hp by done. by eapply Hown.
  - (* sweep *)
    split.
    + intros j job Hj. simpl in Hj. unfold cleanupOldJobs in Hj.
      apply map_lookup_filter_Some_1_1 in Hj. by eapply Hall.
    + intros j ph job Hp Hj. simpl in Hp, Hj. unfold cleanupOldJobs in Hj.
      apply map_lookup_filter_Some_1_1 in Hj. by eapply Hown.
Qed.

Lemma reachable_invariant s :
  reachable s -> all_match s /\ owned_clean s.
Proof.
  unfold reachable. revert s. apply rtc_ind_r.
  - split.
    + intros j job Hj. simpl in Hj. by rewrite lookup_empty in Hj.
    + intros j ph job Hp. simpl in Hp. by rewrite lookup_empty in Hp.
  - intros y z _ Hstep IH. by eapply transition_preserves.
Qed.

(** C5.  In every state that the job-store transitions can reach, every
    record has one of the four statuses, has a result exactly when it is
    COMPLETED and an error exactly when it is FAILED; so a terminal record
    has exactly one of the two and a PENDING or PROCESSING record has
    neither. *)
Theorem outcome_fields_follow_status s jobId job :
  reachable s ->
  js_store s !! jobId = Some job ->
  is_Some (job_status job)
  /\ (is_Some (job !! "result") <-> job_status job = Some COMPLETED)
  /\ (is_Some (job !! "error") <-> job_status job = Some FAILED)
  /\ (job_status job = Some PENDING \/ job_status job = Some PROCESSING ->
      job !! "result" = None /\ job !! "error" = None).
Proof.
  intros Hreach Hjob.
  destruct (reachable_invariant s Hreach) as [Hall _].
  specialize (Hall jobId job Hjob). unfold outcome_matches_status in Hall.
  destruct (job_status job) as [[| | |]|]; [| | | |done].
  - destruct Hall as [-> ->].
    split; [by eexists|]. split; [|split]; [split|split|done].
    + by intros [? ?].
    + done.
    + by intros [? ?].
    + done.
  - destruct Hall as [-> ->].
    split; [by eexists|]. split; [|split]; [split|split|done].
    + by intros [? ?].
    + done.
    + by intros [? ?].
    + done.
  - destruct Hall as [[fields ->] ->].
    split; [by eexists|]. split; [|split]; [split|split|].
    + done.
    + by eexists.
    + by intros [? ?].
    + done.
    + by intros [?|?].
  - destruct Hall as [[message ->] ->].
    split; [by eexists|]. split; [|split]; [split|split|].
    + by intros [? ?].
    + done.
    + done.
    + by eexists.
    + by intros [?|?].
Qed.

Lemma failedJobSystem_reachable : reachable failedJobSystem.
Proof.
  unfold reachable, failedJobSystem.
  eapply rtc_l;
    [ exact (t_create initialJobSystem TEXT_TO_VIDEO 1000 "job-1" alice
               [("prompt", VStr "A")] eq_refl eq_refl) |].
  eapply rtc_l; [ eapply (t_processing _ "job-1"); reflexivity |].
  eapply rtc_l;
    [ eapply (t_failed _ "job-1" "provider unavailable" 5000); reflexivity |].
  apply rtc_refl.
Defined.

Lemma outcome_fields_follow_status_witness :
  is_Some (default ∅ (js_store failedJobSystem !! "job-1") !! "error")
  <-> job_status (default ∅ (js_store failedJobSystem !! "job-1")) = Some FAILED.
Proof.
  apply (outcome_fields_follow_status failedJobSystem "job-1"
           (default ∅ (js_store failedJobSystem !! "job-1"))
           failedJobSystem_reachable).
  vm_compute. reflexivity.
Defined.

End LifecycleFacts.

(** ** Admission and start of a generation *)

Module OrchestratorFacts.
Import Veo Server Creation JobStoreFacts LifecycleFacts.

Section WithConfig.
Context {L : Type}.
Variable cfg : Config.

(** The synchronous part of [executeGeneration] writes PROCESSING and
    touches nothing else but the call log. *)
Lemma executeGeneration_effect jobId params mode (w : World L) :
  let out := executeGeneration cfg jobId params mode w in
  jobStore out.2 = updateJobStatus jobId processingFields (jobStore w)
  /\ tasks out.2 = tasks w
  /\ quotaStore out.2 = quotaStore w
  /\ trace out.2
     = (trace w ++ EvJobUpdate jobId (VStr "PROCESSING")
          :: match out.1 with
             | AwaitingPredict _ => [EvPredict jobId]
             | Rejected _ => []
             end)%list.
Proof.
  unfold executeGeneration, setJobStatus. simpl.
  destruct (buildRequestParameters cfg params); simpl.
  - repeat split; try reflexivity. by rewrite <- app_assoc.
  - repeat split; reflexivity.
Qed.

(** [generateFromText] when the text mode is enabled, step by step. *)
Lemma generateFromText_supported now jobId params user (w : World L) :
  isModeSupported cfg TEXT_TO_VIDEO = true ->
  generateFromText cfg now jobId params user w
  = let w1 := record (EvModeCheck TEXT_TO_VIDEO true) w in
    let w2 := (setJobStatus jobId
                 (pendingFields TEXT_TO_VIDEO now user
                    [("prompt", VStr (prompt params))]) w1).2 in
    let started := executeGeneration cfg jobId params TEXT_TO_VIDEO w2 in
    (inr jobId,
     set_tasks (<[jobId := {| task_mode := TEXT_TO_VIDEO;
                              task_state := started.1 |}]>
                  (tasks started.2)) started.2).
Proof.
  intros Hmode.
  unfold generateFromText, bind, checkModeSupported. rewrite Hmode. simpl.
  by destruct (executeGeneration cfg jobId params TEXT_TO_VIDEO _).
Qed.

Lemma generateFromText_unsupported now jobId params user (w : World L) :
  isModeSupported cfg TEXT_TO_VIDEO = false ->
  generateFromText cfg now jobId params user w
  = (inl (UnsupportedModeError TEXT_TO_VIDEO),
     record (EvModeCheck TEXT_TO_VIDEO false) w).
Proof.
  intros Hmode.
  unfold generateFromText, bind, checkModeSupported. by rewrite Hmode.
Qed.

Lemma generateFromImage_supported now jobId params user (w : World L) :
  isModeSupported cfg IMAGE_TO_VIDEO = true ->
  generateFromImage cfg now jobId params user w
  = let w1 := record (EvModeCheck IMAGE_TO_VIDEO true) w in
    let w2 := (setJobStatus jobId
                 (pendingFields IMAGE_TO_VIDEO now user
                    [("prompt", VStr (prompt params));
                     ("hasImage", VBool true)]) w1).2 in
    let started := executeImageGeneration cfg jobId params w2 in
    (inr jobId,
     set_tasks (<[jobId := {| task_mode := IMAGE_TO_VIDEO;
                              task_state := started.1 |}]>
                  (tasks started.2)) started.2).
Proof.
  intros Hmode.
  unfold generateFromImage, bind, checkModeSupported. rewrite Hmode. simpl.
  by destruct (executeImageGeneration cfg jobId params _).
Qed.

Lemma generateFromImage_unsupported now jobId params user (w : World L) :
  isModeSupported cfg IMAGE_TO_VIDEO = false ->
  generateFromImage cfg now jobId params user w
  = (inl (UnsupportedModeError IMAGE_TO_VIDEO),
     record (EvModeCheck IMAGE_TO_VIDEO false) w).
Proof.
  intros Hmode.
  unfold generateFromImage, bind, checkModeSupported. by rewrite Hmode.
Qed.

Lemma executeImageGeneration_effect jobId params (w : World L) :
  let out := executeImageGeneration cfg jobId params w in
  jobStore out.2 = updateJobStatus jobId processingFields (jobStore w)
  /\ tasks out.2 = tasks w
  /\ quotaStore out.2 = quotaStore w.
Proof.
  unfold executeImageGeneration, setJobStatus. simpl.
  by destruct (buildRequestParameters cfg params).
Qed.

(** The image route starts its task in the same way. *)
Lemma generateFromImage_returns_processing now jobId params user (w : World L) :
  isModeSupported cfg IMAGE_TO_VIDEO = true ->
  jobStore w !! jobId = None ->
  let out := generateFromImage cfg now jobId params user w in
  out.1 = inr jobId
  /\ exists job,
       getJobStatus jobId (Some (uid user)) (jobStore out.2) = Some job
       /\ job_status job = Some PROCESSING
       /\ job !! "result" = None
       /\ job !! "error" = None.
Proof.
  intros Hmode Hfresh out. subst out.
  rewrite (generateFromImage_supported now jobId params user w Hmode).
  cbv zeta.
  set (w2 := (setJobStatus jobId _ (record _ w)).2).
  pose proof (executeImageGeneration_effect jobId params w2) as (Hstore & _ & _).
  cbv zeta in Hstore.
  split; [reflexivity|]. simpl. rewrite Hstore.
  assert (Hpend : jobStore w2 !! jobId
                  = Some (<["jobId" := VStr jobId]>
                            (pendingFields IMAGE_TO_VIDEO now user
                               [("prompt", VStr (prompt params));
                                ("hasImage", VBool true)] ∪ ∅))).
  { unfold w2. simpl. by rewrite updateJobStatus_lookup, Hfresh. }
  eexists. split; [|split; [|split]].
  - apply getJobStatus_owner; [apply updateJobStatus_lookup|].
    unfold field. rewrite merged_lookup by done. rewrite Hpend. simpl.
    by rewrite merged_lookup.
  - apply (job_status_of_field _ PROCESSING). by rewrite merged_lookup.
  - rewrite merged_lookup by done. rewrite Hpend. simpl.
    by rewrite merged_lookup.
  - rewrite merged_lookup by done. rewrite Hpend. simpl.
    by rewrite merged_lookup.
Qed.

(** Building the provider's parameters fails only on an empty list of
    allowed durations. *)
Lemma buildRequestParameters_total params :
  allowedDurations (veo_limits cfg) <> [] ->
  exists parameters, buildRequestParameters cfg params = Some parameters.
Proof.
  intros Hne. unfold buildRequestParameters, normalizeDuration, reduce.
  destruct (allowedDurations (veo_limits cfg)); [done|]. by eexists.
Qed.

(** The record that the first write of the task leaves behind a fresh
    PENDING record. *)
Lemma started_record mode now jobId user summary
    (store : gmap string (gmap string Value)) :
  store !! jobId = None ->
  let pending :=
    updateJobStatus jobId (pendingFields mode now user summary) store in
  (exists job0,
     pending !! jobId = Some job0 /\ job_status job0 = Some PENDING)
  /\ exists job,
       getJobStatus jobId (Some (uid user))
         (updateJobStatus jobId processingFields pending) = Some job
       /\ job !! "result" = None
       /\ job !! "error" = None
       /\ field job "createdAt" = VTime now
       /\ field job "mode" = VStr (mode_name mode).
Proof.
  intros Hfresh pending.
  assert (Hpend : pending !! jobId
                  = Some (<["jobId" := VStr jobId]>
                            (pendingFields mode now user summary ∪ ∅))).
  { unfold pending. by rewrite updateJobStatus_lookup, Hfresh. }
  split.
  - eexists. split; [exact Hpend|].
    apply (job_status_of_field _ PENDING). by rewrite merged_lookup.
  - eexists. split; [|split; [|split; [|split]]].
    + apply getJobStatus_owner; [apply updateJobStatus_lookup|].
      unfold field. rewrite merged_lookup by done. rewrite Hpend. simpl.
      by rewrite merged_lookup.
    + rewrite merged_lookup by done. rewrite Hpend. simpl.
      by rewrite merged_lookup.
    + rewrite merged_lookup by done. rewrite Hpend. simpl.
      by rewrite merged_lookup.
    + unfold field. rewrite merged_lookup by done. rewrite Hpend. simpl.
      by rewrite merged_lookup.
    + unfold field. rewrite merged_lookup by done. rewrite Hpend. simpl.
      by rewrite merged_lookup.
Qed.

(** C3, as the code has it.  Wherever the provider's parameters can be
    built (every deployment), job creation for an admitted request with
    a fresh job id, by the text route or by the image route, inserts the
    PENDING record and then, still before it returns, starts the
    detached task, whose body runs up to its first [await]: the
    provider request is issued.  Creation returns the job id without
    waiting for the provider's answer, and at that moment the owner can
    read the job, which has neither result nor error. *)
Theorem job_creation_starts_task now jobId params user (w : World L) :
  allowedDurations (veo_limits cfg) <> [] ->
  jobStore w !! jobId = None ->
  (isModeSupported cfg TEXT_TO_VIDEO = true ->
   started_before_return TEXT_TO_VIDEO now jobId user
     [("prompt", VStr (prompt params))] w
     (generateFromText cfg now jobId params user w))
  /\ (isModeSupported cfg IMAGE_TO_VIDEO = true ->
      started_before_return IMAGE_TO_VIDEO now jobId user
        [("prompt", VStr (prompt params)); ("hasImage", VBool true)] w
        (generateFromImage cfg now jobId params user w)).
Proof.
  intros Hdurations Hfresh.
  destruct (buildRequestParameters_total params Hdurations)
    as [parameters Hbuild].
  split; intros Hmode.
  - destruct (started_record TEXT_TO_VIDEO now jobId user
                [("prompt", VStr (prompt params))] (jobStore w) Hfresh)
      as [Hpending Hread].
    unfold started_before_return.
    rewrite (generateFromText_supported now jobId params user w Hmode).
    cbv zeta. unfold executeGeneration, setJobStatus. rewrite Hbuild.
    cbn [fst snd jobStore tasks trace record set_tasks set_jobStore].
    split; [reflexivity|]. split; [exact Hpending|].
    split; [by rewrite <- !app_assoc|].
    split; [eexists; apply lookup_insert_eq | exact Hread].
  - destruct (started_record IMAGE_TO_VIDEO now jobId user
                [("prompt", VStr (prompt params)); ("hasImage", VBool true)]
                (jobStore w) Hfresh)
      as [Hpending Hread].
    unfold started_before_return.
    rewrite (generateFromImage_supported now jobId params user w Hmode).
    cbv zeta. unfold executeImageGeneration, setJobStatus. rewrite Hbuild.
    cbn [fst snd jobStore tasks trace record set_tasks set_jobStore].
    split; [reflexivity|]. split; [exact Hpending|].
    split; [by rewrite <- !app_assoc|].
    split; [eexists; apply lookup_insert_eq | exact Hread].
Qed.

End WithConfig.

Lemma job_creation_starts_task_witness :
  started_before_return IMAGE_TO_VIDEO 1000 "job-1" alice
    [("prompt", VStr (prompt imageRequestParams)); ("hasImage", VBool true)]
    emptyWorld
    (generateFromImage (config forward_all_env) 1000 "job-1"
       imageRequestParams alice emptyWorld).
Proof.
  assert (Hdurations :
            allowedDurations (veo_limits (config forward_all_env)) <> [])
    by discriminate.
  assert (Hfresh : jobStore (emptyWorld) !! "job-1" = None)
    by (vm_compute; reflexivity).
  exact (proj2 (job_creation_starts_task (config forward_all_env) 1000
                  "job-1" imageRequestParams alice emptyWorld
                  Hdurations Hfresh) eq_refl).
Defined.

(** C3 as the specification words it does not hold: when
    [generateFromText] returns the id of a text job, the owner's read of
    that job shows PROCESSING, not PENDING, and the provider call for it
    has already been issued. *)
Lemma created_job_is_processing_at_return :
  (generateFromText (config default_env) 1000 "job-1" standardQualityParams
     alice emptyWorld).1 = inr "job-1"
  /\ (exists job,
        getJobStatus "job-1" (Some "alice")
          (jobStore (generateFromText (config default_env) 1000 "job-1"
                       standardQualityParams alice emptyWorld).2) = Some job
        /\ job_status job = Some PROCESSING
        /\ job_status job <> Some PENDING)
  /\ trace (generateFromText (config default_env) 1000 "job-1"
              standardQualityParams alice emptyWorld).2
     = [EvModeCheck TEXT_TO_VIDEO true;
        EvJobUpdate "job-1" (VStr "PENDING");
        EvJobUpdate "job-1" (VStr "PROCESSING");
        EvPredict "job-1"].
Proof.
  split; [reflexivity|]. split; [|reflexivity].
  eexists. split; [vm_compute; reflexivity|]. split; [reflexivity|discriminate].
Qed.

End OrchestratorFacts.

(** ** Admission order of the generation routes *)

Module AdmissionFacts.
Import Admission Veo Server JobStoreFacts LifecycleFacts OrchestratorFacts.

Section WithMiddleware.
Context {L : Type}.
Variable cfg : Config.
Variable mw : Middleware L.

(** A request that a limiter refuses goes no further: it is answered
    429 and neither ledger changes. *)
Lemma throughRateLimiter_refused now req next (w : World L) :
  (rateLimiter mw (limiterKey req) now (generalLimiter w)).1 = false ->
  let out := throughRateLimiter mw now req next w in
  out.1 = TooManyRequests
  /\ quotaStore out.2 = quotaStore w
  /\ jobStore out.2 = jobStore w
  /\ tasks out.2 = tasks w.
Proof.
  intros Href. unfold throughRateLimiter.
  destruct (rateLimiter mw _ now _) as [allowed l]. simpl in Href.
  by rewrite Href.
Qed.

Lemma throughGenerationLimiter_refused now req next (w : World L) :
  (videoGenerationLimiter mw (limiterKey req) now (generationLimiter w)).1
  = false ->
  let out := throughGenerationLimiter mw now req next w in
  out.1 = TooManyRequests
  /\ quotaStore out.2 = quotaStore w
  /\ jobStore out.2 = jobStore w
  /\ tasks out.2 = tasks w.
Proof.
  intros Href. unfold throughGenerationLimiter.
  destruct (videoGenerationLimiter mw _ now _) as [allowed l]. simpl in Href.
  by rewrite Href.
Qed.

(** The middleware in front of a handler changes neither ledger, so a
    route changes them only through its handler. *)
Lemma through_middleware now req valid handler (w : World L) :
  let out :=
    throughRateLimiter mw now req
      (throughGenerationLimiter mw now req
         (throughValidation valid (respond handler))) w in
  (quotaStore out.2 = quotaStore w
   /\ jobStore out.2 = jobStore w
   /\ tasks out.2 = tasks w
   /\ (out.1 = TooManyRequests
       \/ out.1 = ErrorResponse (ValidationError "Validation failed")))
  \/ exists w1,
       quotaStore w1 = quotaStore w
       /\ jobStore w1 = jobStore w
       /\ tasks w1 = tasks w
       /\ out = respond handler w1.
Proof.
  unfold throughRateLimiter, throughGenerationLimiter, throughValidation.
  destruct (rateLimiter mw _ now _) as [[|] l1]; simpl; [|left; auto].
  destruct (videoGenerationLimiter mw _ now _) as [[|] l2]; simpl;
    [|left; auto].
  destruct valid; simpl; [|left; auto].
  right.
  exists (record (EvValidation true)
            (record (EvRateLimit (limiterKey req) true)
               (set_generationLimiter l2
                  (record (EvRateLimit (limiterKey req) true)
                     (set_generalLimiter l1 w))))).
  repeat split; reflexivity.
Qed.

(** The image handler tests the mode before it touches the quota. *)
Lemma imageHandler_mode_disabled now today jobId req (w : World L) :
  isModeSupported cfg IMAGE_TO_VIDEO = false ->
  imageHandler cfg now today jobId req w
  = (inl (UnsupportedModeError IMAGE_TO_VIDEO),
     record (EvModeCheck IMAGE_TO_VIDEO false) w).
Proof.
  intros Hmode. unfold imageHandler, bind, checkModeSupported.
  by rewrite Hmode.
Qed.

(** The video handler never reaches the quota. *)
Lemma videoHandler_rejects req (w : World L) :
  videoHandler cfg req w
  = (inl (UnsupportedModeError VIDEO_TO_VIDEO),
     record (EvModeCheck VIDEO_TO_VIDEO (isModeSupported cfg VIDEO_TO_VIDEO)) w).
Proof.
  unfold videoHandler, generateFromVideo, bind, checkModeSupported.
  by destruct (isModeSupported cfg VIDEO_TO_VIDEO).
Qed.

(** The text handler consumes the quota first: when the mode test that
    follows fails, the grant is already stored. *)
Lemma textHandler_mode_disabled now today jobId req (w : World L) :
  isModeSupported cfg TEXT_TO_VIDEO = false ->
  0 < Quota.remaining
        (Quota.getQuotaUsage cfg today (uid (user req)) (quotaStore w)) ->
  let out := textHandler cfg now today jobId req w in
  out.1 = inl (UnsupportedModeError TEXT_TO_VIDEO)
  /\ quotaStore out.2
     = (Quota.consumeQuota cfg today (uid (user req)) (quotaStore w)).2
  /\ quotaStore out.2 !! uid (user req)
     = Some {| Quota.date := today;
               Quota.count :=
                 Quota.used (Quota.getQuotaUsage cfg today (uid (user req))
                               (quotaStore w)) + 1 |}.
Proof.
  intros Hmode Hrem. unfold textHandler, bind, consumeQuota.
  rewrite (QuotaFacts.consumeQuota_granted cfg today _ _ Hrem). simpl.
  rewrite generateFromText_unsupported by done. simpl.
  repeat split. by rewrite lookup_insert_eq.
Qed.

Lemma textHandler_quota_exceeded now today jobId req (w : World L) :
  Quota.remaining
    (Quota.getQuotaUsage cfg today (uid (user req)) (quotaStore w)) <= 0 ->
  let out := textHandler cfg now today jobId req w in
  out.1 = inl (QuotaExceededError (uid (user req))
                 (quota_dailyVideoGenerations cfg))
  /\ quotaStore out.2 = quotaStore w
  /\ jobStore out.2 = jobStore w
  /\ tasks out.2 = tasks w.
Proof.
  intros Hrem. unfold textHandler, bind, consumeQuota.
  by rewrite (QuotaFacts.consumeQuota_exceeded cfg today _ _ Hrem).
Qed.

(** With the mode enabled a handler either refuses for quota or
    accepts. *)
Lemma textHandler_mode_enabled now today jobId req (w : World L) :
  isModeSupported cfg TEXT_TO_VIDEO = true ->
  (exists limit,
     (textHandler cfg now today jobId req w).1
     = inl (QuotaExceededError (uid (user req)) limit))
  \/ exists usage,
       (textHandler cfg now today jobId req w).1
       = inr (Accepted jobId "PENDING" TEXT_TO_VIDEO (Some usage)).
Proof.
  intros Hmode. unfold textHandler, bind, consumeQuota.
  destruct (Z_le_gt_dec
              (Quota.remaining
                 (Quota.getQuotaUsage cfg today (uid (user req)) (quotaStore w)))
              0) as [Hle|Hgt].
  - rewrite (QuotaFacts.consumeQuota_exceeded cfg today _ _ Hle).
    left. by eexists.
  - rewrite QuotaFacts.consumeQuota_granted by lia.
    rewrite generateFromText_supported by done.
    right. by eexists.
Qed.

Lemma imageHandler_mode_enabled now today jobId req (w : World L) :
  isModeSupported cfg IMAGE_TO_VIDEO = true ->
  (exists limit,
     (imageHandler cfg now today jobId req w).1
     = inl (QuotaExceededError (uid (user req)) limit))
  \/ exists usage,
       (imageHandler cfg now today jobId req w).1
       = inr (Accepted jobId "PENDING" IMAGE_TO_VIDEO (Some usage)).
Proof.
  intros Hmode. unfold imageHandler, bind, checkModeSupported, consumeQuota.
  rewrite Hmode. cbn [negb].
  destruct (Z_le_gt_dec
              (Quota.remaining
                 (Quota.getQuotaUsage cfg today (uid (user req)) (quotaStore w)))
              0) as [Hle|Hgt].
  - cbn [quotaStore record].
    rewrite (QuotaFacts.consumeQuota_exceeded cfg today _ _ Hle).
    left. by eexists.
  - cbn [quotaStore record].
    rewrite QuotaFacts.consumeQuota_granted by lia.
    rewrite generateFromImage_supported by done.
    right. by eexists.
Qed.

End WithMiddleware.

(** The configuration module enables the text mode and disables the
    video mode in every environment. *)
Lemma config_modes env :
  isModeSupported (config env) TEXT_TO_VIDEO = true
  /\ isModeSupported (config env) VIDEO_TO_VIDEO = false.
Proof. split; reflexivity. Qed.


Section Calls.
Context {L : Type}.
Variable cfg : Config.
Variable mw : Middleware L.






End Calls.





End AdmissionFacts.

(** ** The server only makes the transitions of the job store *)

Module SimulationFacts.
Import Veo Server JobStoreFacts LifecycleFacts OrchestratorFacts AdmissionFacts.

Section WithConfig.
Context {L : Type}.
Variable cfg : Config.
Variable mw : Middleware L.

Lemma jobSystemOf_ext (w1 w2 : World L) :
  jobStore w1 = jobStore w2 -> tasks w1 = tasks w2 ->
  jobSystemOf w1 = jobSystemOf w2.
Proof. intros H1 H2. unfold jobSystemOf. by rewrite H1, H2. Qed.

(** Creating and starting a task are the transitions [t_create] and
    [t_processing]. *)
Lemma create_and_start_transitions (w w' : World L) mode now jobId user
    summary promise :
  jobStore w !! jobId = None ->
  tasks w !! jobId = None ->
  jobStore w'
  = updateJobStatus jobId processingFields
      (updateJobStatus jobId (pendingFields mode now user summary)
         (jobStore w)) ->
  tasks w' = <[jobId := {| task_mode := mode; task_state := promise |}]>
               (tasks w) ->
  rtc transition (jobSystemOf w) (jobSystemOf w').
Proof.
  intros Hfresh Htask Hstore Htasks.
  eapply rtc_l.
  { apply (t_create (jobSystemOf w) mode now jobId user summary).
    - exact Hfresh.
    - simpl. by rewrite lookup_fmap, Htask. }
  eapply rtc_l.
  { apply (t_processing _ jobId). simpl. by rewrite lookup_insert_eq. }
  simpl. rewrite insert_insert_eq.
  replace (jobSystemOf w') with
    {| js_store := updateJobStatus jobId processingFields
                     (updateJobStatus jobId
                        (pendingFields mode now user summary) (jobStore w));
       js_phase := <[jobId := Running]> ((fun _ => Running) <$> tasks w) |};
    [apply rtc_refl|].
  unfold jobSystemOf. rewrite Hstore, Htasks. by rewrite fmap_insert.
Qed.

Lemma generateFromText_transitions now jobId params user (w : World L) :
  jobStore w !! jobId = None ->
  tasks w !! jobId = None ->
  rtc transition (jobSystemOf w)
    (jobSystemOf (generateFromText cfg now jobId params user w).2).
Proof.
  intros Hfresh Htask.
  destruct (isModeSupported cfg TEXT_TO_VIDEO) eqn:Hmode.
  - rewrite generateFromText_supported by done. cbv zeta.
    set (w2 := (setJobStatus jobId _ (record _ w)).2).
    pose proof (executeGeneration_effect cfg jobId params TEXT_TO_VIDEO w2)
      as (Hstore & Htasks & _ & _).
    cbv zeta in Hstore, Htasks.
    set (started := executeGeneration cfg jobId params TEXT_TO_VIDEO w2) in *.
    apply (create_and_start_transitions w _ TEXT_TO_VIDEO now jobId user
             [("prompt", VStr (prompt params))] started.1 Hfresh Htask).
    + cbn [snd jobStore set_tasks]. rewrite Hstore.
      unfold w2, setJobStatus. cbn [snd jobStore record set_jobStore].
      reflexivity.
    + cbn [snd tasks set_tasks]. rewrite Htasks.
      unfold w2, setJobStatus. cbn [snd tasks record set_jobStore].
      reflexivity.
  - rewrite generateFromText_unsupported by done. apply rtc_refl.
Qed.

Lemma generateFromImage_transitions now jobId params user (w : World L) :
  jobStore w !! jobId = None ->
  tasks w !! jobId = None ->
  rtc transition (jobSystemOf w)
    (jobSystemOf (generateFromImage cfg now jobId params user w).2).
Proof.
  intros Hfresh Htask.
  destruct (isModeSupported cfg IMAGE_TO_VIDEO) eqn:Hmode.
  - rewrite generateFromImage_supported by done. cbv zeta.
    set (w2 := (setJobStatus jobId _ (record _ w)).2).
    pose proof (executeImageGeneration_effect cfg jobId params w2)
      as (Hstore & Htasks & _).
    cbv zeta in Hstore, Htasks.
    set (started := executeImageGeneration cfg jobId params w2) in *.
    apply (create_and_start_transitions w _ IMAGE_TO_VIDEO now jobId user
             [("prompt", VStr (prompt params)); ("hasImage", VBool true)]
             started.1 Hfresh Htask).
    + cbn [snd jobStore set_tasks]. rewrite Hstore.
      unfold w2, setJobStatus. cbn [snd jobStore record set_jobStore].
      reflexivity.
    + cbn [snd tasks set_tasks]. rewrite Htasks.
      unfold w2, setJobStatus. cbn [snd tasks record set_jobStore].
      reflexivity.
  - rewrite generateFromImage_unsupported by done. apply rtc_refl.
Qed.

Lemma textHandler_transitions now today jobId req (w : World L) :
  jobStore w !! jobId = None ->
  tasks w !! jobId = None ->
  rtc transition (jobSystemOf w)
    (jobSystemOf (textHandler cfg now today jobId req w).2).
Proof.
  intros Hfresh Htask. unfold textHandler, bind, consumeQuota.
  destruct (Quota.consumeQuota cfg today (uid (user req)) (quotaStore w))
    as [[e|usage] q]; [apply rtc_refl|].
  set (w1 := record _ (set_quotaStore q w)).
  pose proof (generateFromText_transitions now jobId
                (textParams (body req)) (user req) w1 Hfresh Htask) as Hgen.
  destruct (generateFromText cfg now jobId (textParams (body req))
              (user req) w1) as [[e|r] w2]; exact Hgen.
Qed.

Lemma imageHandler_transitions now today jobId req (w : World L) :
  jobStore w !! jobId = None ->
  tasks w !! jobId = None ->
  rtc transition (jobSystemOf w)
    (jobSystemOf (imageHandler cfg now today jobId req w).2).
Proof.
  intros Hfresh Htask. unfold imageHandler, bind, checkModeSupported.
  destruct (isModeSupported cfg IMAGE_TO_VIDEO); [|apply rtc_refl].
  cbn [negb]. unfold consumeQuota. cbn [quotaStore record].
  destruct (Quota.consumeQuota cfg today (uid (user req)) (quotaStore w))
    as [[e|usage] q]; [apply rtc_refl|].
  set (w1 := record _ (set_quotaStore q (record _ w))).
  pose proof (generateFromImage_transitions now jobId
                (body req) (user req) w1 Hfresh Htask) as Hgen.
  destruct (generateFromImage cfg now jobId (body req) (user req) w1)
    as [[e|r] w2]; exact Hgen.
Qed.

(** A route makes the transitions of its handler, if it gets that far. *)
Lemma route_transitions now req valid handler (w : World L) :
  (forall w1, jobStore w1 = jobStore w -> tasks w1 = tasks w ->
     rtc transition (jobSystemOf w1) (jobSystemOf (handler w1).2)) ->
  rtc transition (jobSystemOf w)
    (jobSystemOf
       (throughRateLimiter mw now req
          (throughGenerationLimiter mw now req
             (throughValidation valid (respond handler))) w).2).
Proof.
  intros Hhandler.
  destruct (through_middleware mw now req valid handler w)
    as [(_ & Hj & Ht & _) | (w1 & _ & Hj & Ht & ->)].
  - rewrite (jobSystemOf_ext _ _ Hj Ht). apply rtc_refl.
  - rewrite <- (jobSystemOf_ext _ _ Hj Ht).
    unfold respond. specialize (Hhandler w1 Hj Ht).
    by destruct (handler w1) as [[e|r] w2].
Qed.

(** The result of a successful generation is an object. *)
Lemma processGenerationResponse_object now jobId response ext result :
  processGenerationResponse cfg now jobId response ext = inr result ->
  exists fields, result = VObj fields.
Proof.
  unfold processGenerationResponse.
  destruct (predictions response) as [[|prediction rest]|]; try discriminate.
  destruct (truthy_opt_str (bytesBase64Encoded prediction)).
  - destruct (saveOutcome ext); [discriminate|].
    destruct (signOutcome ext); [discriminate|].
    intros [= <-]. by eexists.
  - destruct (gcsUri prediction) as [uri|]; [|discriminate].
    destruct (truthy_str uri); [|discriminate].
    destruct (generateSignedUrlOutcome ext); [discriminate|].
    intros [= <-]. by eexists.
Qed.

Lemma settle_transitions now jobId ext (w : World L) :
  rtc transition (jobSystemOf w) (jobSystemOf (settle cfg now jobId ext w)).
Proof.
  unfold settle. destruct (tasks w !! jobId) as [task|] eqn:Htask;
    [|apply rtc_refl].
  assert (Hph : js_phase (jobSystemOf w) !! jobId = Some Running)
    by (simpl; by rewrite lookup_fmap, Htask).
  assert (Hfail : forall message,
            rtc transition (jobSystemOf w)
              (jobSystemOf (onRejected now jobId message
                              (set_tasks (delete jobId (tasks w)) w)))).
  { intros message. apply rtc_once.
    pose proof (t_failed (jobSystemOf w) jobId message now Hph) as Hstep.
    unfold jobSystemOf, onRejected, setJobStatus in *.
    cbn [js_store js_phase jobStore tasks set_tasks set_jobStore record snd]
      in *.
    rewrite fmap_delete. exact Hstep. }
  destruct (task_state task) as [request|message]; [|apply Hfail].
  unfold resume. destruct (predictOutcome ext) as [message|response];
    [apply Hfail|].
  destruct (processGenerationResponse cfg now jobId response ext)
    as [message|result] eqn:Hres; [apply Hfail|].
  destruct (processGenerationResponse_object _ _ _ _ _ Hres) as [fields ->].
  apply rtc_once.
  pose proof (t_completed (jobSystemOf w) jobId fields now Hph) as Hstep.
  unfold jobSystemOf, setJobStatus in *.
  cbn [js_store js_phase jobStore tasks set_tasks set_jobStore record snd]
    in *.
  rewrite fmap_delete. exact Hstep.
Qed.

Lemma server_step_transitions (w w' : World L) :
  server_step cfg mw w w' ->
  rtc transition (jobSystemOf w) (jobSystemOf w').
Proof.
  intros [now today jobId req w0 Hfresh Htask
         | now today jobId req w0 Hfresh Htask
         | now req w0 | now jobId req w0 | now jobId ext w0 | now today w0].
  - apply route_transitions. intros w1 Hj Ht.
    apply textHandler_transitions; congruence.
  - apply route_transitions. intros w1 Hj Ht.
    apply imageHandler_transitions; congruence.
  - apply route_transitions. intros w1 Hj Ht.
    rewrite videoHandler_rejects. apply rtc_refl.
  - unfold getStatus, throughRateLimiter, throughValidation, respond,
      statusHandler.
    destruct (rateLimiter mw _ now _) as [[|] l1]; simpl; [|apply rtc_refl].
    destruct (jobIdValidation mw jobId); simpl; [|apply rtc_refl].
    destruct (getJobStatus jobId _ _); apply rtc_refl.
  - apply settle_transitions.
  - apply rtc_once. apply (t_sweep (jobSystemOf w0) now None).
Qed.

(** Every state of the job store that the server reaches from an empty
    one is reachable by the transitions; so the invariant of the
    transitions holds of every record a caller can read. *)
Lemma server_jobs_reachable (w0 w : World L) :
  jobStore w0 = ∅ -> tasks w0 = ∅ ->
  rtc (server_step cfg mw) w0 w ->
  reachable (jobSystemOf w).
Proof.
  intros Hj Ht Hrun. unfold reachable.
  replace initialJobSystem with (jobSystemOf w0)
    by (unfold jobSystemOf, initialJobSystem; by rewrite Hj, Ht, fmap_empty).
  revert w Hrun. apply rtc_ind_r; [apply rtc_refl|].
  intros y z _ Hstep IH. etrans; [exact IH|].
  by apply server_step_transitions.
Qed.

Lemma server_records_match_status (w0 w : World L) jobId job :
  jobStore w0 = ∅ -> tasks w0 = ∅ ->
  rtc (server_step cfg mw) w0 w ->
  jobStore w !! jobId = Some job ->
  outcome_matches_status job.
Proof.
  intros Hj Ht Hrun Hjob.
  destruct (reachable_invariant _ (server_jobs_reachable w0 w Hj Ht Hrun))
    as [Hall _].
  by apply (Hall jobId).
Qed.

End WithConfig.

End SimulationFacts.

(** * Further properties of the code *)

(** ** Quota ledger: reads, reset, day change and cleanup *)

Module QuotaMore.
Import Quota.

Section WithConfig.
Variable cfg : Config.
Abbreviation dailyQuota := (quota_dailyVideoGenerations cfg).

(** X1.  The usage that a granted [consumeQuota] returns is what
    [getQuotaUsage] reads from the ledger right after it; a refused call
    returns the ledger it was given. *)
Theorem consumeQuota_returns_new_usage today uid qs :
  match consumeQuota cfg today uid qs with
  | (inr usage, qs') => getQuotaUsage cfg today uid qs' = usage
  | (inl _, qs') => qs' = qs
  end.
Proof.
  destruct (Z_le_gt_dec (remaining (getQuotaUsage cfg today uid qs)) 0)
    as [Hle|Hgt].
  - by rewrite QuotaFacts.consumeQuota_exceeded.
  - rewrite QuotaFacts.consumeQuota_granted by lia.
    rewrite QuotaFacts.getQuotaUsage_insert_today.
    pose proof (QuotaFacts.getQuotaUsage_remaining cfg today uid qs).
    f_equal. lia.
Qed.

(** X2.  [hasQuotaAvailable] answers exactly whether a [consumeQuota]
    made in the same state would be granted. *)
Theorem hasQuotaAvailable_predicts_consume today uid qs :
  hasQuotaAvailable cfg today uid qs
  = succeeded (consumeQuota cfg today uid qs).1.
Proof.
  unfold hasQuotaAvailable.
  destruct (Z_le_gt_dec (remaining (getQuotaUsage cfg today uid qs)) 0)
    as [Hle|Hgt].
  - rewrite QuotaFacts.consumeQuota_exceeded by done. simpl.
    apply Z.ltb_ge. lia.
  - rewrite QuotaFacts.consumeQuota_granted by lia. simpl.
    apply Z.ltb_lt. lia.
Qed.

(** X3.  After [resetQuota] the identity reads as unused with the whole
    limit remaining, whatever it had consumed; with a positive limit its
    next consume is granted as the first of the day; no other identity's
    entry changes. *)
Theorem resetQuota_restores_full_quota today uid qs :
  getQuotaUsage cfg today uid (resetQuota uid qs)
  = {| used := 0; limit := dailyQuota; remaining := dailyQuota |}
  /\ (0 < dailyQuota ->
      (consumeQuota cfg today uid (resetQuota uid qs)).1
      = inr {| used := 1; limit := dailyQuota; remaining := dailyQuota - 1 |})
  /\ (forall other, other <> uid ->
      resetQuota uid qs !! other = qs !! other).
Proof.
  assert (Hfresh : getQuotaUsage cfg today uid (resetQuota uid qs)
                   = {| used := 0; limit := dailyQuota; remaining := dailyQuota |}).
  { unfold getQuotaUsage, resetQuota. by rewrite lookup_delete_eq. }
  split; [exact Hfresh|]. split.
  - intros Hpos. rewrite QuotaFacts.consumeQuota_granted; rewrite Hfresh; simpl;
      [reflexivity | lia].
  - intros other Hne. unfold resetQuota. by rewrite lookup_delete_ne.
Qed.

(** X4.  [cleanupOldEntries] keeps exactly the records dated today.  No
    identity can tell that it ran: every usage read and every consume
    outcome is the same on the cleaned ledger; and cleaning twice is
    cleaning once. *)
Theorem cleanupOldEntries_is_invisible today qs :
  (forall uid r,
     cleanupOldEntries today qs !! uid = Some r
     <-> qs !! uid = Some r /\ date r = today)
  /\ (forall uid,
        getQuotaUsage cfg today uid (cleanupOldEntries today qs)
        = getQuotaUsage cfg today uid qs)
  /\ (forall uid,
        (consumeQuota cfg today uid (cleanupOldEntries today qs)).1
        = (consumeQuota cfg today uid qs).1)
  /\ cleanupOldEntries today (cleanupOldEntries today qs)
     = cleanupOldEntries today qs.
Proof.
  assert (Hlook : forall uid r,
            cleanupOldEntries today qs !! uid = Some r
            <-> qs !! uid = Some r /\ date r = today).
  { intros uid r. unfold cleanupOldEntries. by rewrite map_lookup_filter_Some. }
  assert (Husage : forall uid,
            getQuotaUsage cfg today uid (cleanupOldEntries today qs)
            = getQuotaUsage cfg today uid qs).
  { intros uid. unfold getQuotaUsage.
    destruct (cleanupOldEntries today qs !! uid) as [r|] eqn:Hc.
    - apply Hlook in Hc as [-> _]. reflexivity.
    - destruct (qs !! uid) as [r|] eqn:Hq; [|reflexivity].
      destruct (String.eqb_spec (date r) today) as [Hd|Hd]; [|reflexivity].
      assert (cleanupOldEntries today qs !! uid = Some r) by (by apply Hlook).
      congruence. }
  split; [exact Hlook|]. split; [exact Husage|]. split.
  - intros uid. unfold consumeQuota. rewrite Husage.
    by destruct (_ <=? 0).
  - apply map_eq. intros uid. apply option_eq. intros r.
    unfold cleanupOldEntries at 1. rewrite map_lookup_filter_Some. simpl.
    rewrite Hlook. tauto.
Qed.

(** X5.  A record stored for another day counts for nothing today,
    whatever its count: with a positive limit the next consume is granted
    as the first of the day and overwrites the record with today's date
    and a count of one. *)
Theorem consumeQuota_day_change today uid qs r :
  qs !! uid = Some r ->
  date r <> today ->
  0 < dailyQuota ->
  consumeQuota cfg today uid qs
  = (inr {| used := 1; limit := dailyQuota; remaining := dailyQuota - 1 |},
     <[uid := {| date := today; count := 1 |}]> qs).
Proof.
  intros Hr Hdate Hpos.
  assert (Hfresh : getQuotaUsage cfg today uid qs
                   = {| used := 0; limit := dailyQuota; remaining := dailyQuota |}).
  { unfold getQuotaUsage. rewrite Hr.
    by destruct (String.eqb_spec (date r) today). }
  rewrite QuotaFacts.consumeQuota_granted; rewrite Hfresh; simpl;
    [reflexivity | lia].
Qed.

End WithConfig.

Lemma consumeQuota_day_change_witness :
  consumeQuota (config limit2_env) "2026-03-02" "alice"
    {[ "alice" := {| date := "2026-03-01"; count := 2 |} ]}
  = (inr {| used := 1; limit := 2; remaining := 1 |},
     <["alice" := {| date := "2026-03-02"; count := 1 |}]>
       {[ "alice" := {| date := "2026-03-01"; count := 2 |} ]}).
Proof.
  apply (consumeQuota_day_change (config limit2_env) "2026-03-02" "alice"
           {[ "alice" := {| date := "2026-03-01"; count := 2 |} ]}
           {| date := "2026-03-01"; count := 2 |}).
  - reflexivity.
  - discriminate.
  - reflexivity.
Defined.

End QuotaMore.

(** ** Request building: prompt, parameters, duration *)

Module VeoMore.
Import Veo.

Lemma string_app_assoc (a b c : string) : (a ++ b) ++ c = a ++ (b ++ c).
Proof.
  induction a as [|ch a IH]; [reflexivity|].
  change (String ch ((a ++ b) ++ c) = String ch (a ++ (b ++ c))).
  by rewrite IH.
Qed.

Lemma string_app_nil_r (a : string) : a ++ "" = a.
Proof.
  induction a as [|ch a IH]; [reflexivity|].
  change (String ch (a ++ "") = String ch a). by rewrite IH.
Qed.

(** X6.  The prompt sent to the provider is the caller's prompt followed
    by one sentence for each style option that is present and not empty,
    always in the order camera style, motion, lighting; with no style
    option it is the caller's prompt unchanged. *)
Theorem buildEnhancedPrompt_sentences params :
  let sentence (label : string) (v : option string) : string :=
    match v with
    | Some s => if truthy_str s then ". " ++ label ++ s else ""
    | None => ""
    end in
  buildEnhancedPrompt params
  = prompt params
      ++ sentence "Camera style: " (cameraStyle params)
      ++ sentence "Motion: " (motionLevel params)
      ++ sentence "Lighting: " (lighting params).
Proof.
  unfold buildEnhancedPrompt.
  destruct (cameraStyle params) as [c|], (motionLevel params) as [m|],
    (lighting params) as [l|];
    repeat match goal with
           | |- context [truthy_str ?s] => destruct (truthy_str s)
           end;
    cbn [app String.concat];
    rewrite ?string_app_assoc, ?string_app_nil_r; reflexivity.
Qed.

(** X7.  Whatever the request, the parameters built for the provider
    always carry [durationSeconds], one of the allowed durations, and
    [aspectRatio], the requested ratio or the default when none or an
    empty one is given; they are passed on as a number and a string; and
    no key outside the seven known ones is ever sent. *)
Theorem buildRequestParameters_keys cfg params o :
  buildRequestParameters cfg params = Some o ->
  (exists d,
     normalizeDuration cfg (durationSeconds params) = Some d
     /\ In d (allowedDurations (veo_limits cfg))
     /\ o !! "durationSeconds" = Some (VNum d)
     /\ structToValue o !! "durationSeconds" = Some (numberValue d))
  /\ o !! "aspectRatio"
     = Some (VStr (str_or (aspectRatio params) (d_aspectRatio (veo_defaults cfg))))
  /\ structToValue o !! "aspectRatio"
     = Some (stringValue
               (str_or (aspectRatio params) (d_aspectRatio (veo_defaults cfg))))
  /\ (forall k, is_Some (structToValue o !! k) ->
       In k ["aspectRatio"; "durationSeconds"; "fps"; "negativePrompt";
             "seed"; "generateAudio"; "resolution"]).
Proof.
  unfold buildRequestParameters.
  destruct (normalizeDuration cfg (durationSeconds params)) as [d|] eqn:Hd;
    [|done].
  intros [= <-].
  assert (Hbase : forall k,
            k <> "fps" -> k <> "negativePrompt" -> k <> "seed" ->
            k <> "generateAudio" -> k <> "resolution" ->
            forall base : gmap string Value,
              forward_resolution cfg params
                (forward_generateAudio cfg params
                   (forward_seed cfg params
                      (forward_negativePrompt cfg params
                         (forward_fps cfg params base)))) !! k
              = base !! k).
  { intros k ? ? ? ? ? base.
    by rewrite VeoFacts.forward_resolution_other,
      VeoFacts.forward_generateAudio_other, VeoFacts.forward_seed_other,
      VeoFacts.forward_negativePrompt_other, VeoFacts.forward_fps_other. }
  assert (Hdur : forall base : gmap string Value,
            (<["durationSeconds" := VNum d]> base) !! "durationSeconds"
            = Some (VNum d)) by (intros; apply lookup_insert_eq).
  split; [|split; [|split]].
  - exists d. split; [reflexivity|]. split.
    + unfold normalizeDuration, reduce in Hd.
      destruct (allowedDurations (veo_limits cfg)) as [|a l]; [done|].
      injection Hd as <-. apply VeoFacts.fold_left_closest.
    + rewrite VeoFacts.structToValue_lookup, Hbase by done.
      by rewrite Hdur.
  - rewrite Hbase by done. rewrite lookup_insert_ne by done.
    by rewrite lookup_insert_eq.
  - rewrite VeoFacts.structToValue_lookup, Hbase by done.
    rewrite lookup_insert_ne by done. by rewrite lookup_insert_eq.
  - intros k [v Hk]. rewrite VeoFacts.structToValue_lookup in Hk.
    destruct (decide (k = "aspectRatio")) as [->|?]; [simpl; tauto|].
    destruct (decide (k = "durationSeconds")) as [->|?]; [simpl; tauto|].
    destruct (decide (k = "fps")) as [->|?]; [simpl; tauto|].
    destruct (decide (k = "negativePrompt")) as [->|?]; [simpl; tauto|].
    destruct (decide (k = "seed")) as [->|?]; [simpl; tauto|].
    destruct (decide (k = "generateAudio")) as [->|?]; [simpl; tauto|].
    destruct (decide (k = "resolution")) as [->|?]; [simpl; tauto|].
    rewrite Hbase in Hk by done.
    rewrite !lookup_insert_ne, lookup_empty in Hk by done. done.
Qed.

Lemma buildRequestParameters_keys_witness :
  default ∅ (buildRequestParameters (config default_env) standardQualityParams)
    !! "aspectRatio" = Some (VStr "16:9").
Proof.
  apply (buildRequestParameters_keys (config default_env)
           standardQualityParams _).
  vm_compute. reflexivity.
Defined.

(** The accumulator of [reduce]: it is the first element, in array
    order, that no element seen so far beats. *)
Lemma fold_left_first_closest (requested : Z) (l : list Z) :
  forall seen a later,
    (forall x, In x seen -> Z.abs (a - requested) < Z.abs (x - requested)) ->
    (forall x, In x later -> Z.abs (a - requested) <= Z.abs (x - requested)) ->
    let pick := fun prev curr =>
      if Z.abs (curr - requested) <? Z.abs (prev - requested)
      then curr else prev in
    exists seen' later',
      (seen ++ a :: later ++ l = seen' ++ fold_left pick l a :: later')%list
      /\ (forall x, In x seen' ->
            Z.abs (fold_left pick l a - requested) < Z.abs (x - requested))
      /\ (forall x, In x later' ->
            Z.abs (fold_left pick l a - requested) <= Z.abs (x - requested)).
Proof.
  induction l as [|b l IH]; intros seen a later Hseen Hlater; cbv zeta.
  - exists seen, later. simpl. rewrite app_nil_r. auto.
  - cbn [fold_left].
    destruct (Z.ltb_spec (Z.abs (b - requested)) (Z.abs (a - requested)))
      as [Hlt|Hge].
    + (* [b] beats everything seen: it becomes the first closest *)
      destruct (IH (seen ++ a :: later)%list b []) as (s' & l' & Heq & H1 & H2).
      * intros x Hx. apply in_app_or in Hx as [Hx|[<-|Hx]].
        -- specialize (Hseen x Hx). lia.
        -- lia.
        -- specialize (Hlater x Hx). lia.
      * intros x [].
      * exists s', l'. split; [|split; [exact H1|exact H2]].
        rewrite <- Heq. simpl. by rewrite <- app_assoc.
    + destruct (IH seen a (later ++ [b])%list) as (s' & l' & Heq & H1 & H2).
      * exact Hseen.
      * intros x Hx. apply in_app_or in Hx as [Hx|[<-|[]]]; [auto|lia].
      * exists s', l'. split; [|split; [exact H1|exact H2]].
        rewrite <- Heq. by rewrite <- app_assoc.
Qed.

(** Where the result of [normalizeDuration] stands in the list. *)
Lemma normalizeDuration_position cfg duration :
  let requested := num_or duration (d_durationSeconds (veo_defaults cfg)) in
  match normalizeDuration cfg duration with
  | Some r =>
      exists before after,
        allowedDurations (veo_limits cfg) = (before ++ r :: after)%list
        /\ (forall x, In x before ->
              Z.abs (r - requested) < Z.abs (x - requested))
        /\ (forall x, In x after ->
              Z.abs (r - requested) <= Z.abs (x - requested))
  | None => allowedDurations (veo_limits cfg) = []
  end.
Proof.
  intros requested. unfold normalizeDuration, reduce.
  destruct (allowedDurations (veo_limits cfg)) as [|a l]; [done|].
  destruct (fold_left_first_closest requested l [] a [])
    as (before & after & Heq & H1 & H2); [intros x []|intros x []|].
  exists before, after. simpl in Heq. auto.
Qed.

(** X8.  [normalizeDuration] returns the first of the allowed durations,
    in the order of the configured list, at minimal distance from the
    effective request: every duration listed before it is strictly
    farther, every one listed after it is at least as far.  So of two
    equally near durations the one listed first wins, and with an empty
    list the call throws. *)
Theorem normalizeDuration_first_closest cfg duration :
  let requested := num_or duration (d_durationSeconds (veo_defaults cfg)) in
  match normalizeDuration cfg duration with
  | Some r =>
      exists before after,
        allowedDurations (veo_limits cfg) = (before ++ r :: after)%list
        /\ (forall x, In x before ->
              Z.abs (r - requested) < Z.abs (x - requested))
        /\ (forall x, In x after ->
              Z.abs (r - requested) <= Z.abs (x - requested))
  | None => allowedDurations (veo_limits cfg) = []
  end.
Proof. exact (normalizeDuration_position cfg duration). Qed.

(** X9.  An allowed duration is left as it is, and normalizing twice is
    normalizing once (zero aside, which the code reads as "no duration
    given"). *)
Theorem normalizeDuration_fixes_allowed cfg :
  (forall d, In d (allowedDurations (veo_limits cfg)) -> d <> 0 ->
     normalizeDuration cfg (Some d) = Some d)
  /\ (forall duration r,
        normalizeDuration cfg duration = Some r -> r <> 0 ->
        normalizeDuration cfg (Some r) = Some r).
Proof.
  assert (Hfix : forall d, In d (allowedDurations (veo_limits cfg)) -> d <> 0 ->
                   normalizeDuration cfg (Some d) = Some d).
  { intros d Hin Hd.
    pose proof (normalizeDuration_position cfg (Some d)) as H.
    cbv zeta in H. unfold num_or in H.
    destruct (Z.eqb_spec d 0) as [?|_]; [done|].
    destruct (normalizeDuration cfg (Some d)) as [r|].
    - destruct H as (before & after & Heq & H1 & H2).
      rewrite Heq in Hin. apply in_app_or in Hin as [Hin|[->|Hin]].
      + specialize (H1 d Hin). lia.
      + reflexivity.
      + specialize (H2 d Hin). f_equal. lia.
    - by rewrite H in Hin. }
  split; [exact Hfix|].
  intros duration r Hr Hne. apply Hfix; [|done].
  pose proof (normalizeDuration_position cfg duration) as H.
  cbv zeta in H. rewrite Hr in H. destruct H as (before & after & -> & _).
  apply in_or_app. right. by left.
Qed.

End VeoMore.

(** ** Detached tasks, polling and the life of a record *)

Module ServerMore.
Import Veo Server Samples JobStoreFacts LifecycleFacts OrchestratorFacts.

Section WithConfig.
Context {L : Type}.
Variable cfg : Config.
Variable mw : Middleware L.

(** What a finishing task writes: one terminal update, and the task is
    gone. *)
Lemma settle_writes_terminal now jobId ext (w : World L) task :
  tasks w !! jobId = Some task ->
  exists updates,
    ((exists message, updates = failedFields message now)
     \/ (exists fields, updates = completedFields (VObj fields) now))
    /\ jobStore (settle cfg now jobId ext w)
       = updateJobStatus jobId updates (jobStore w)
    /\ tasks (settle cfg now jobId ext w) = delete jobId (tasks w)
    /\ quotaStore (settle cfg now jobId ext w) = quotaStore w.
Proof.
  intros Htask. unfold settle. rewrite Htask.
  assert (Hfail : forall message,
            exists updates,
              ((exists message, updates = failedFields message now)
               \/ (exists fields, updates = completedFields (VObj fields) now))
              /\ jobStore (onRejected now jobId message
                            (set_tasks (delete jobId (tasks w)) w))
                 = updateJobStatus jobId updates (jobStore w)
              /\ tasks (onRejected now jobId message
                          (set_tasks (delete jobId (tasks w)) w))
                 = delete jobId (tasks w)
              /\ quotaStore (onRejected now jobId message
                               (set_tasks (delete jobId (tasks w)) w))
                 = quotaStore w).
  { intros message. exists (failedFields message now).
    split; [left; by eexists|]. by repeat split. }
  destruct (task_state task) as [request|message]; [|apply Hfail].
  unfold resume. destruct (predictOutcome ext) as [message|response];
    [apply Hfail|].
  destruct (processGenerationResponse cfg now jobId response ext)
    as [message|result] eqn:Hres; [apply Hfail|].
  destruct (SimulationFacts.processGenerationResponse_object _ _ _ _ _ _ Hres)
    as [fields ->].
  exists (completedFields (VObj fields) now).
  split; [right; by eexists|]. by repeat split.
Qed.

(** The whole effect of [settle] on a world that has the task. *)
Lemma settle_effect now jobId ext (w : World L) task :
  tasks w !! jobId = Some task ->
  tasks (settle cfg now jobId ext w) !! jobId = None
  /\ quotaStore (settle cfg now jobId ext w) = quotaStore w
  /\ (forall other, other <> jobId ->
      tasks (settle cfg now jobId ext w) !! other = tasks w !! other
      /\ jobStore (settle cfg now jobId ext w) !! other = jobStore w !! other)
  /\ exists job',
       jobStore (settle cfg now jobId ext w) !! jobId = Some job'
       /\ (job_status job' = Some COMPLETED \/ job_status job' = Some FAILED)
       /\ job' !! "completedAt" = Some (VTime now)
       /\ forall k,
            k <> "status" -> k <> "result" -> k <> "error" ->
            k <> "completedAt" -> k <> "jobId" ->
            job' !! k = default ∅ (jobStore w !! jobId) !! k.
Proof.
  intros Htask.
  destruct (settle_writes_terminal now jobId ext w task Htask)
    as (updates & Hterm & -> & -> & ->).
  split; [apply lookup_delete_eq|]. split; [reflexivity|]. split.
  - intros other Hne. split.
    + by apply lookup_delete_ne.
    + by apply updateJobStatus_other.
  - eexists. split; [apply updateJobStatus_lookup|].
    destruct Hterm as [[message ->] | [fields ->]].
    + split; [right; apply (job_status_of_field _ FAILED);
              by rewrite merged_lookup|].
      split; [by rewrite merged_lookup|].
      intros k ? ? ? ? ?. rewrite merged_lookup by done.
      unfold failedFields. simpl.
      by rewrite !lookup_insert_ne, lookup_empty by done.
    + split; [left; apply (job_status_of_field _ COMPLETED);
              by rewrite merged_lookup|].
      split; [by rewrite merged_lookup|].
      intros k ? ? ? ? ?. rewrite merged_lookup by done.
      unfold completedFields. simpl.
      by rewrite !lookup_insert_ne, lookup_empty by done.
Qed.

(** X10.  When a detached task finishes, by success or by any failure,
    it is removed, the record of its job gets a terminal status
    (COMPLETED or FAILED) and the completion time, every field set at
    creation (owner, mode, creation time, request summary) is kept, and
    neither the quota ledger nor any other job or task is touched. *)
Theorem settle_finishes_task now jobId ext (w : World L) task :
  tasks w !! jobId = Some task ->
  tasks (settle cfg now jobId ext w) !! jobId = None
  /\ quotaStore (settle cfg now jobId ext w) = quotaStore w
  /\ (forall other, other <> jobId ->
      tasks (settle cfg now jobId ext w) !! other = tasks w !! other
      /\ jobStore (settle cfg now jobId ext w) !! other = jobStore w !! other)
  /\ exists job',
       jobStore (settle cfg now jobId ext w) !! jobId = Some job'
       /\ (job_status job' = Some COMPLETED \/ job_status job' = Some FAILED)
       /\ job' !! "completedAt" = Some (VTime now)
       /\ forall k,
            k <> "status" -> k <> "result" -> k <> "error" ->
            k <> "completedAt" -> k <> "jobId" ->
            job' !! k = default ∅ (jobStore w !! jobId) !! k.
Proof. exact (settle_effect now jobId ext w task). Qed.

Lemma field_merged (jobId : string) (updates existing : gmap string Value) k :
  k <> "jobId" ->
  field (<["jobId" := VStr jobId]> (updates ∪ existing)) k
  = match updates !! k with
    | Some v => v
    | None => field existing k
    end.
Proof.
  intros Hk. unfold field. rewrite merged_lookup by done.
  by destruct (updates !! k).
Qed.

(** The result of a successful generation has exactly the three fields
    that the status route copies. *)
Lemma processGenerationResponse_shape now jobId response ext result :
  processGenerationResponse cfg now jobId response ext = inr result ->
  exists videoUri signedUrl,
    result = VObj [("videoUri", VStr videoUri);
                   ("signedUrl", VStr signedUrl);
                   ("expiresAt",
                    VTime (now + gcs_signedUrlExpiration cfg * 1000))].
Proof.
  unfold processGenerationResponse.
  destruct (predictions response) as [[|prediction rest]|]; try discriminate.
  destruct (truthy_opt_str (bytesBase64Encoded prediction)).
  - destruct (saveOutcome ext); [discriminate|].
    destruct (signOutcome ext); [discriminate|].
    intros [= <-]. by do 2 eexists.
  - destruct (gcsUri prediction) as [uri|]; [|discriminate].
    destruct (truthy_str uri); [|discriminate].
    destruct (generateSignedUrlOutcome ext); [discriminate|].
    intros [= <-]. by do 2 eexists.
Qed.

(** What the owner reads after a terminal update of either kind. *)
Lemma statusHandler_after_completed now jobId req (w : World L) job
    videoUri signedUrl expiresAt :
  field job "userId" = VStr (uid (user req)) ->
  jobStore w !! jobId
  = Some (<["jobId" := VStr jobId]>
            (completedFields
               (VObj [("videoUri", VStr videoUri);
                      ("signedUrl", VStr signedUrl);
                      ("expiresAt", VTime expiresAt)]) now ∪ job)) ->
  exists data,
    statusHandler jobId req w = (inr (StatusReport data), w)
    /\ data !! "jobId" = Some (VStr jobId)
    /\ data !! "status" = Some (VStr "COMPLETED")
    /\ data !! "result"
       = Some (VObj [("videoUri", VStr videoUri);
                     ("signedUrl", VStr signedUrl);
                     ("expiresAt", VTime expiresAt)])
    /\ data !! "completedAt" = Some (VTime now)
    /\ data !! "error" = None
    /\ data !! "createdAt" = Some (field job "createdAt")
    /\ data !! "mode" = Some (field job "mode").
Proof.
  intros Hown Hjob. unfold statusHandler.
  set (result := VObj [("videoUri", VStr videoUri);
                       ("signedUrl", VStr signedUrl);
                       ("expiresAt", VTime expiresAt)]) in *.
  erewrite getJobStatus_owner; [|exact Hjob|by rewrite field_merged].
  replace (field (<["jobId" := VStr jobId]> (_ ∪ job)) "jobId")
    with (VStr jobId) by (unfold field; by rewrite lookup_insert_eq).
  rewrite !field_merged by done.
  replace (completedFields result now !! "status")
    with (Some (VStr "COMPLETED")) by reflexivity.
  replace (completedFields result now !! "result")
    with (Some result) by reflexivity.
  replace (completedFields result now !! "completedAt")
    with (Some (VTime now)) by reflexivity.
  replace (completedFields result now !! "error")
    with (@None Value) by reflexivity.
  replace (completedFields result now !! "mode")
    with (@None Value) by reflexivity.
  replace (completedFields result now !! "createdAt")
    with (@None Value) by reflexivity.
  cbn [strict_eq_str String.eqb Ascii.eqb Bool.eqb andb truthy result prop
       List.find fst snd].
  eexists. split; [reflexivity|].
  repeat split; reflexivity.
Qed.

Lemma statusHandler_after_failed now jobId req (w : World L) job message :
  field job "userId" = VStr (uid (user req)) ->
  jobStore w !! jobId
  = Some (<["jobId" := VStr jobId]> (failedFields message now ∪ job)) ->
  exists data,
    statusHandler jobId req w = (inr (StatusReport data), w)
    /\ data !! "jobId" = Some (VStr jobId)
    /\ data !! "status" = Some (VStr "FAILED")
    /\ data !! "error" = Some (VStr message)
    /\ data !! "completedAt" = Some (VTime now)
    /\ data !! "result" = None
    /\ data !! "createdAt" = Some (field job "createdAt")
    /\ data !! "mode" = Some (field job "mode").
Proof.
  intros Hown Hjob. unfold statusHandler.
  erewrite getJobStatus_owner; [|exact Hjob|by rewrite field_merged].
  replace (field (<["jobId" := VStr jobId]> (_ ∪ job)) "jobId")
    with (VStr jobId) by (unfold field; by rewrite lookup_insert_eq).
  rewrite !field_merged by done.
  replace (failedFields message now !! "status")
    with (Some (VStr "FAILED")) by reflexivity.
  replace (failedFields message now !! "result")
    with (@None Value) by reflexivity.
  replace (failedFields message now !! "completedAt")
    with (Some (VTime now)) by reflexivity.
  replace (failedFields message now !! "error")
    with (Some (VStr message)) by reflexivity.
  replace (failedFields message now !! "mode")
    with (@None Value) by reflexivity.
  replace (failedFields message now !! "createdAt")
    with (@None Value) by reflexivity.
  cbn [strict_eq_str String.eqb Ascii.eqb Bool.eqb andb truthy].
  eexists. split; [reflexivity|].
  repeat split; reflexivity.
Qed.

(** X11.  Polling after the task has finished.  For a job owned by the
    caller: if the provider answered and the artifact was stored and
    signed, the status route reports COMPLETED with exactly the locator,
    the signed URL and the expiry that were produced, and the completion
    time; if anything failed (the request could not be built, the provider
    call was rejected, the response was empty or unrecognized, the upload
    or the signing failed), it reports FAILED with the message of that
    failure and no result.  The creation time and mode of the job are
    reported unchanged. *)
Theorem poll_reports_outcome now jobId ext (w : World L) task req job :
  tasks w !! jobId = Some task ->
  jobStore w !! jobId = Some job ->
  field job "userId" = VStr (uid (user req)) ->
  (forall request response result,
     task_state task = AwaitingPredict request ->
     predictOutcome ext = inr response ->
     processGenerationResponse cfg now jobId response ext = inr result ->
     exists data,
       (statusHandler jobId req (settle cfg now jobId ext w)).1
       = inr (StatusReport data)
       /\ data !! "status" = Some (VStr "COMPLETED")
       /\ data !! "result" = Some result
       /\ data !! "completedAt" = Some (VTime now)
       /\ data !! "error" = None
       /\ data !! "createdAt" = Some (field job "createdAt")
       /\ data !! "mode" = Some (field job "mode"))
  /\ (forall message,
        task_state task = Rejected message
        \/ (exists request,
              task_state task = AwaitingPredict request
              /\ (predictOutcome ext = inl message
                  \/ exists response,
                       predictOutcome ext = inr response
                       /\ processGenerationResponse cfg now jobId response ext
                          = inl message)) ->
        exists data,
          (statusHandler jobId req (settle cfg now jobId ext w)).1
          = inr (StatusReport data)
          /\ data !! "status" = Some (VStr "FAILED")
          /\ data !! "error" = Some (VStr message)
          /\ data !! "completedAt" = Some (VTime now)
          /\ data !! "result" = None
          /\ data !! "createdAt" = Some (field job "createdAt")
          /\ data !! "mode" = Some (field job "mode")).
Proof.
  intros Htask Hjob Hown.
  assert (Hfailed : forall message,
            jobStore (onRejected now jobId message
                        (set_tasks (delete jobId (tasks w)) w)) !! jobId
            = Some (<["jobId" := VStr jobId]> (failedFields message now ∪ job))).
  { intros message. unfold onRejected, setJobStatus. simpl.
    by rewrite updateJobStatus_lookup, Hjob. }
  split.
  - intros request response result Hstate Hpredict Hresult.
    destruct (processGenerationResponse_shape _ _ _ _ _ Hresult)
      as (videoUri & signedUrl & ->).
    unfold settle. rewrite Htask, Hstate. unfold resume.
    rewrite Hpredict, Hresult.
    edestruct (statusHandler_after_completed now jobId req
                 (setJobStatus jobId
                    (completedFields
                       (VObj [("videoUri", VStr videoUri);
                              ("signedUrl", VStr signedUrl);
                              ("expiresAt",
                               VTime (now + gcs_signedUrlExpiration cfg * 1000))])
                       now)
                    (set_tasks (delete jobId (tasks w)) w)).2 job)
      as (data & Hdata & _ & H1 & H2 & H3 & H4 & H5 & H6); [exact Hown| |].
    + unfold setJobStatus. simpl. by rewrite updateJobStatus_lookup, Hjob.
    + exists data. rewrite Hdata. by repeat split.
  - intros message Hcause.
    assert (Hsettle : settle cfg now jobId ext w
                      = onRejected now jobId message
                          (set_tasks (delete jobId (tasks w)) w)).
    { unfold settle. rewrite Htask.
      destruct Hcause as [-> | (request & -> & [Hp | (response & Hp & Hr)])];
        [reflexivity| |]; unfold resume; rewrite Hp; [reflexivity|].
      by rewrite Hr. }
    rewrite Hsettle.
    destruct (statusHandler_after_failed now jobId req _ job message Hown
                (Hfailed message))
      as (data & Hdata & _ & H1 & H2 & H3 & H4 & H5 & H6).
    exists data. rewrite Hdata. by repeat split.
Qed.

(** A request handled with a job id that is not in use leaves every
    existing record and its task alone. *)
Lemma generateFromText_other now jobId0 params user (w : World L) jobId :
  jobId <> jobId0 ->
  jobStore (generateFromText cfg now jobId0 params user w).2 !! jobId
  = jobStore w !! jobId
  /\ tasks (generateFromText cfg now jobId0 params user w).2 !! jobId
     = tasks w !! jobId
  /\ quotaStore (generateFromText cfg now jobId0 params user w).2
     = quotaStore w.
Proof.
  intros Hne. destruct (isModeSupported cfg TEXT_TO_VIDEO) eqn:Hmode.
  - rewrite generateFromText_supported by done. cbv zeta.
    set (w2 := (setJobStatus jobId0 _ (record _ w)).2).
    pose proof (executeGeneration_effect cfg jobId0 params TEXT_TO_VIDEO w2)
      as (Hstore & Htasks & Hquota & _).
    cbv zeta in Hstore, Htasks, Hquota.
    cbn [snd jobStore tasks quotaStore set_tasks].
    rewrite Hstore, Htasks, Hquota. unfold w2, setJobStatus.
    cbn [snd jobStore tasks quotaStore record set_jobStore].
    by rewrite lookup_insert_ne, !updateJobStatus_other by done.
  - by rewrite generateFromText_unsupported.
Qed.

Lemma generateFromImage_other now jobId0 params user (w : World L) jobId :
  jobId <> jobId0 ->
  jobStore (generateFromImage cfg now jobId0 params user w).2 !! jobId
  = jobStore w !! jobId
  /\ tasks (generateFromImage cfg now jobId0 params user w).2 !! jobId
     = tasks w !! jobId
  /\ quotaStore (generateFromImage cfg now jobId0 params user w).2
     = quotaStore w.
Proof.
  intros Hne. destruct (isModeSupported cfg IMAGE_TO_VIDEO) eqn:Hmode.
  - rewrite generateFromImage_supported by done. cbv zeta.
    set (w2 := (setJobStatus jobId0 _ (record _ w)).2).
    pose proof (executeImageGeneration_effect cfg jobId0 params w2)
      as (Hstore & Htasks & Hquota).
    cbv zeta in Hstore, Htasks, Hquota.
    cbn [snd jobStore tasks quotaStore set_tasks].
    rewrite Hstore, Htasks, Hquota. unfold w2, setJobStatus.
    cbn [snd jobStore tasks quotaStore record set_jobStore].
    by rewrite lookup_insert_ne, !updateJobStatus_other by done.
  - by rewrite generateFromImage_unsupported.
Qed.

Lemma textHandler_other now today jobId0 req (w : World L) jobId :
  jobId <> jobId0 ->
  jobStore (textHandler cfg now today jobId0 req w).2 !! jobId
  = jobStore w !! jobId
  /\ tasks (textHandler cfg now today jobId0 req w).2 !! jobId
     = tasks w !! jobId.
Proof.
  intros Hne. unfold textHandler, bind, consumeQuota.
  destruct (Quota.consumeQuota cfg today (uid (user req)) (quotaStore w))
    as [[e|usage] q]; [done|].
  set (w1 := record _ (set_quotaStore q w)).
  destruct (generateFromText_other now jobId0 (textParams (body req))
              (user req) w1 jobId Hne) as (H1 & H2 & _).
  destruct (generateFromText cfg now jobId0 (textParams (body req))
              (user req) w1) as [[e|r] w2]; by split.
Qed.

Lemma imageHandler_other now today jobId0 req (w : World L) jobId :
  jobId <> jobId0 ->
  jobStore (imageHandler cfg now today jobId0 req w).2 !! jobId
  = jobStore w !! jobId
  /\ tasks (imageHandler cfg now today jobId0 req w).2 !! jobId
     = tasks w !! jobId.
Proof.
  intros Hne. unfold imageHandler, bind, checkModeSupported.
  destruct (isModeSupported cfg IMAGE_TO_VIDEO); [|done].
  cbn [negb]. unfold consumeQuota. cbn [quotaStore record].
  destruct (Quota.consumeQuota cfg today (uid (user req)) (quotaStore w))
    as [[e|usage] q]; [done|].
  set (w1 := record _ (set_quotaStore q (record _ w))).
  destruct (generateFromImage_other now jobId0 (body req) (user req) w1
              jobId Hne) as (H1 & H2 & _).
  destruct (generateFromImage cfg now jobId0 (body req) (user req) w1)
    as [[e|r] w2]; by split.
Qed.

Lemma route_other now req valid handler (w : World L) jobId :
  (forall w1,
     jobStore (handler w1).2 !! jobId = jobStore w1 !! jobId
     /\ tasks (handler w1).2 !! jobId = tasks w1 !! jobId) ->
  let out :=
    throughRateLimiter mw now req
      (throughGenerationLimiter mw now req
         (throughValidation valid (respond handler))) w in
  jobStore out.2 !! jobId = jobStore w !! jobId
  /\ tasks out.2 !! jobId = tasks w !! jobId.
Proof.
  intros Hhandler out. subst out.
  destruct (AdmissionFacts.through_middleware mw now req valid handler w)
    as [(_ & Hj & Ht & _) | (w1 & _ & Hj & Ht & ->)].
  - by rewrite Hj, Ht.
  - destruct (Hhandler w1) as [H1 H2]. unfold respond.
    destruct (handler w1) as [[e|r] w2]; simpl in *; by rewrite H1, H2, Hj, Ht.
Qed.

(** What one turn of the event loop can do to an existing record: leave
    it and its task alone, delete it (the cleanup), or finish its
    task. *)
Lemma server_step_on_record (w w' : World L) jobId job :
  server_step cfg mw w w' ->
  jobStore w !! jobId = Some job ->
  (jobStore w' !! jobId = Some job /\ tasks w' !! jobId = tasks w !! jobId)
  \/ (jobStore w' !! jobId = None /\ tasks w' !! jobId = tasks w !! jobId)
  \/ exists task now ext,
       tasks w !! jobId = Some task /\ w' = settle cfg now jobId ext w.
Proof.
  intros Hstep Hjob.
  destruct Hstep as [now today jobId0 req w Hfresh Htask
                    | now today jobId0 req w Hfresh Htask
                    | now req w | now jobId0 req w | now jobId0 ext w
                    | now today w].
  - left. assert (jobId <> jobId0) by congruence.
    destruct (route_other now req (textToVideoValidations mw (body req))
                (textHandler cfg now today jobId0 req) w jobId) as [H1 H2].
    { intros w1. by apply textHandler_other. }
    unfold postText. by rewrite H1, H2.
  - left. assert (jobId <> jobId0) by congruence.
    destruct (route_other now req (imageToVideoValidations mw (body req))
                (imageHandler cfg now today jobId0 req) w jobId) as [H1 H2].
    { intros w1. by apply imageHandler_other. }
    unfold postImage. by rewrite H1, H2.
  - left.
    destruct (route_other now req (videoToVideoValidations mw (body req))
                (videoHandler cfg req) w jobId) as [H1 H2].
    { intros w1. by rewrite AdmissionFacts.videoHandler_rejects. }
    unfold postVideo. by rewrite H1, H2.
  - left. unfold getStatus, throughRateLimiter, throughValidation, respond,
      statusHandler.
    destruct (rateLimiter mw _ now _) as [[|] l1]; simpl; [|done].
    destruct (jobIdValidation mw jobId0); simpl; [|done].
    by destruct (getJobStatus jobId0 _ _).
  - destruct (decide (jobId0 = jobId)) as [->|Hne].
    + destruct (tasks w !! jobId) as [task|] eqn:Htask.
      * right. right. by exists task, now, ext.
      * left. unfold settle. by rewrite Htask.
    + left. unfold settle.
      destruct (tasks w !! jobId0) as [task|] eqn:Htask; [|done].
      destruct (settle_writes_terminal now jobId0 ext w task Htask)
        as (updates & _ & Hs & Ht & _).
      unfold settle in Hs, Ht. rewrite Htask in Hs, Ht. rewrite Hs, Ht.
      by rewrite updateJobStatus_other, lookup_delete_ne.
  - unfold periodicCleanup. simpl.
    destruct (cleanupOldJobs now None (jobStore w) !! jobId) as [job'|] eqn:Hc.
    + left. split; [|done]. unfold cleanupOldJobs in Hc.
      apply map_lookup_filter_Some_1_1 in Hc. congruence.
    + right. left. done.
Qed.

(** X12.  A record whose task has finished is final: whatever step the
    server takes next (a request of any caller, another task finishing,
    a cleanup), the record stays exactly as it is or is deleted by the
    cleanup, and no task is attached to it. *)
Theorem finished_record_is_final (w w' : World L) jobId job :
  server_step cfg mw w w' ->
  jobStore w !! jobId = Some job ->
  tasks w !! jobId = None ->
  (jobStore w' !! jobId = Some job \/ jobStore w' !! jobId = None)
  /\ tasks w' !! jobId = None.
Proof.
  intros Hstep Hjob Hnone.
  destruct (server_step_on_record w w' jobId job Hstep Hjob)
    as [[H1 H2] | [[H1 H2] | (task & now & ext & Htask & _)]].
  - split; [by left | congruence].
  - split; [by right | congruence].
  - congruence.
Qed.

(** X13.  The owner, the creation time, the mode and the request summary
    of a job never change: as long as the record exists, every turn of
    the event loop leaves these fields as they were. *)
Theorem creation_fields_are_immutable (w w' : World L) jobId job job' k :
  server_step cfg mw w w' ->
  jobStore w !! jobId = Some job ->
  jobStore w' !! jobId = Some job' ->
  In k ["userId"; "userEmail"; "createdAt"; "mode"; "params"] ->
  job' !! k = job !! k.
Proof.
  intros Hstep Hjob Hjob' Hk.
  destruct (server_step_on_record w w' jobId job Hstep Hjob)
    as [[H1 _] | [[H1 _] | (task & now & ext & Htask & ->)]].
  - congruence.
  - congruence.
  - destruct (settle_effect now jobId ext w task Htask)
      as (_ & _ & _ & job2 & Hj2 & _ & _ & Hframe).
    rewrite Hjob' in Hj2. injection Hj2 as <-.
    rewrite Hjob in Hframe. simpl in Hframe, Hk.
    destruct Hk as [<-|[<-|[<-|[<-|[<-|[]]]]]]; by apply Hframe.
Qed.

(** X14.  A job that the cleanup deletes while its task is still running
    is lost to its owner.  When the task later finishes, its update
    re-creates a record that has a terminal status but no owner: the
    status route answers NotFound to every caller with a non-empty uid,
    the owner included, and further cleanups never remove the record. *)
Theorem swept_running_job_is_lost now1 today now2 jobId ext (w : World L)
    task job created req sweeps :
  tasks w !! jobId = Some task ->
  jobStore w !! jobId = Some job ->
  field job "createdAt" = VTime created ->
  defaultMaxAgeMs < now1 - created ->
  uid (user req) <> "" ->
  let w1 := periodicCleanup now1 today w in
  let w2 := settle cfg now2 jobId ext w1 in
  jobStore w1 !! jobId = None
  /\ (exists job',
        jobStore w2 !! jobId = Some job'
        /\ (job_status job' = Some COMPLETED \/ job_status job' = Some FAILED)
        /\ job' !! "userId" = None
        /\ foldl (fun st sweep => cleanupOldJobs sweep.1 sweep.2 st)
             (jobStore w2) sweeps !! jobId = Some job')
  /\ statusHandler jobId req w2
     = (inl (NotFoundError ("Job " ++ jobId ++ " not found")), w2).
Proof.
  intros Htask Hjob Hcreated Hold Huid w1 w2.
  assert (Hgone : jobStore w1 !! jobId = None).
  { unfold w1, periodicCleanup. simpl. unfold cleanupOldJobs.
    apply map_lookup_filter_None_2. right. intros j Hj. simpl.
    rewrite Hjob in Hj. injection Hj as <-.
    unfold expired. rewrite Hcreated. simpl.
    destruct (Z.ltb_spec defaultMaxAgeMs (now1 - created)); [done|lia]. }
  assert (Htask1 : tasks w1 !! jobId = Some task) by exact Htask.
  destruct (settle_effect now2 jobId ext w1 task Htask1)
    as (_ & _ & _ & job' & Hj' & Hterm & _ & Hframe).
  fold w2 in Hj'. rewrite Hgone in Hframe. simpl in Hframe.
  assert (Hno_owner : job' !! "userId" = None)
    by (rewrite Hframe by done; apply lookup_empty).
  assert (Hno_date : job' !! "createdAt" = None)
    by (rewrite Hframe by done; apply lookup_empty).
  split; [exact Hgone|]. split.
  - exists job'. split; [exact Hj'|]. split; [exact Hterm|].
    split; [exact Hno_owner|].
    apply cleanupOldJobs_keeps_undated; [exact Hj'|].
    unfold field. by rewrite Hno_date.
  - unfold statusHandler, getJobStatus. rewrite Hj'.
    unfold field. rewrite Hno_owner. simpl. unfold truthy_str.
    by destruct (String.eqb_spec (uid (user req)) "").
Qed.

(** X15.  The status route is a pure read, and its answer never carries
    anything but the job id, status, mode, creation time and, for a
    finished job, the result or error with the completion time: the
    owner's id and e-mail and the request summary are never part of it.
    A result is reported only for a COMPLETED job and an error exactly
    for a FAILED one. *)
Theorem statusHandler_discloses_only_status jobId req (w : World L) :
  (statusHandler jobId req w).2 = w
  /\ forall data,
       (statusHandler jobId req w).1 = inr (StatusReport data) ->
       exists job,
         jobStore w !! jobId = Some job
         /\ (forall k, is_Some (data !! k) ->
              In k ["jobId"; "status"; "mode"; "createdAt"; "result";
                    "error"; "completedAt"])
         /\ (is_Some (data !! "result") -> field job "status" = VStr "COMPLETED")
         /\ (is_Some (data !! "error") <-> field job "status" = VStr "FAILED").
Proof.
  unfold statusHandler.
  destruct (getJobStatus jobId (Some (uid (user req))) (jobStore w))
    as [job|] eqn:Hget; [|split; [done|discriminate]].
  split; [reflexivity|].
  assert (Hjob : jobStore w !! jobId = Some job).
  { unfold getJobStatus in Hget. destruct (jobStore w !! jobId) as [j|]; [|done].
    destruct (_ && _); congruence. }
  intros data [= <-]. exists job. split; [exact Hjob|].
  assert (Hbase : forall (k : string) v,
            (list_to_map [("jobId", field job "jobId");
                          ("status", field job "status");
                          ("mode", field job "mode");
                          ("createdAt", field job "createdAt")]
               : gmap string Value) !! k = Some v ->
            In k ["jobId"; "status"; "mode"; "createdAt"]).
  { intros k v. simpl.
    destruct (decide (k = "jobId")) as [->|?]; [tauto|].
    destruct (decide (k = "status")) as [->|?]; [tauto|].
    destruct (decide (k = "mode")) as [->|?]; [tauto|].
    destruct (decide (k = "createdAt")) as [->|?]; [tauto|].
    rewrite !lookup_insert_ne, lookup_empty by done. done. }
  set (data0 := (list_to_map [("jobId", field job "jobId");
                              ("status", field job "status");
                              ("mode", field job "mode");
                              ("createdAt", field job "createdAt")]
                   : gmap string Value)) in *.
  assert (H0r : data0 !! "result" = None) by reflexivity.
  assert (H0e : data0 !! "error" = None) by reflexivity.
  destruct (strict_eq_str (field job "status") "FAILED") eqn:Hf.
  - (* FAILED: not COMPLETED, so no result is added *)
    pose proof Hf as Hf'. apply strict_eq_str_spec in Hf'.
    assert (Hc : strict_eq_str (field job "status") "COMPLETED" = false)
      by (by rewrite Hf').
    rewrite Hc. cbn [andb]. split; [|split].
    + intros k [v Hk].
      destruct (decide (k = "completedAt")) as [->|?]; [simpl; tauto|].
      destruct (decide (k = "error")) as [->|?]; [simpl; tauto|].
      rewrite !lookup_insert_ne in Hk by done.
      apply Hbase in Hk. simpl in *. tauto.
    + intros [v Hv]. rewrite !lookup_insert_ne in Hv by done.
      by rewrite lookup_empty in Hv.
    + split; [done|]. intros _. rewrite lookup_insert_ne by done.
      rewrite lookup_insert_eq. by eexists.
  - assert (Hnf : field job "status" <> VStr "FAILED").
    { intros Hst. apply (strict_eq_str_spec _ "FAILED") in Hst. congruence. }
    destruct (strict_eq_str (field job "status") "COMPLETED") eqn:Hc;
      [destruct (truthy (field job "result"))|]; cbn [andb].
    + apply strict_eq_str_spec in Hc. split; [|split].
      * intros k [v Hk].
        destruct (decide (k = "completedAt")) as [->|?]; [simpl; tauto|].
        destruct (decide (k = "result")) as [->|?]; [simpl; tauto|].
        rewrite !lookup_insert_ne in Hk by done.
        apply Hbase in Hk. simpl in *. tauto.
      * done.
      * split; [|done]. intros [v Hv].
        rewrite !lookup_insert_ne in Hv by done.
        by rewrite lookup_empty in Hv.
    + apply strict_eq_str_spec in Hc. split; [|split].
      * intros k [v Hk]. apply Hbase in Hk. simpl in *. tauto.
      * done.
      * split; [|done]. intros [v Hv]. by vm_compute in Hv.
    + split; [|split].
      * intros k [v Hk]. apply Hbase in Hk. simpl in *. tauto.
      * intros [v Hv]. by vm_compute in Hv.
      * split; [|done]. intros [v Hv]. by vm_compute in Hv.
Qed.

(** Every record is stored under the id that it names. *)
Lemma transition_keeps_ids s s' :
  transition s s' ->
  (forall jobId job, js_store s !! jobId = Some job ->
     job !! "jobId" = Some (VStr jobId)) ->
  forall jobId job, js_store s' !! jobId = Some job ->
    job !! "jobId" = Some (VStr jobId).
Proof.
  intros Hstep Hinv jobId job.
  assert (Hupd : forall j updates,
            updateJobStatus j updates (js_store s) !! jobId = Some job ->
            job !! "jobId" = Some (VStr jobId)).
  { intros j updates Hj. destruct (decide (jobId = j)) as [->|Hne].
    - rewrite updateJobStatus_lookup in Hj. injection Hj as <-.
      apply lookup_insert_eq.
    - rewrite updateJobStatus_other in Hj by done. by apply Hinv. }
  destruct Hstep; simpl; try apply Hupd.
  unfold cleanupOldJobs. intros Hj.
  apply map_lookup_filter_Some_1_1 in Hj. by apply Hinv.
Qed.

(** X16.  On a server that started with an empty job store, every record
    is stored under the id that its own [jobId] field names, so the id
    that the status route reports is the id that was polled. *)
Theorem record_names_its_id (w0 w : World L) jobId job :
  jobStore w0 = ∅ -> tasks w0 = ∅ ->
  rtc (server_step cfg mw) w0 w ->
  jobStore w !! jobId = Some job ->
  job !! "jobId" = Some (VStr jobId)
  /\ forall req data,
       (statusHandler jobId req w).1 = inr (StatusReport data) ->
       data !! "jobId" = Some (VStr jobId).
Proof.
  intros Hj Ht Hrun Hjob.
  pose proof (SimulationFacts.server_jobs_reachable cfg mw w0 w Hj Ht Hrun)
    as Hreach.
  assert (Hinv : forall s, reachable s ->
            forall jobId job, js_store s !! jobId = Some job ->
              job !! "jobId" = Some (VStr jobId)).
  { unfold reachable. apply (rtc_ind_r (fun s => forall jobId job,
                                          js_store s !! jobId = Some job ->
                                          job !! "jobId" = Some (VStr jobId))).
    - intros j jb Hjb. simpl in Hjb. by rewrite lookup_empty in Hjb.
    - intros y z _ Hstep IH. by apply (transition_keeps_ids y z). }
  assert (Hid : job !! "jobId" = Some (VStr jobId))
    by (by apply (Hinv _ Hreach jobId job)).
  split; [exact Hid|].
  intros req data. unfold statusHandler.
  destruct (getJobStatus jobId (Some (uid (user req))) (jobStore w))
    as [job0|] eqn:Hget; [|discriminate].
  assert (job0 = job) as ->.
  { unfold getJobStatus in Hget. rewrite Hjob in Hget.
    destruct (_ && _); congruence. }
  intros [= <-].
  assert (Hf : field job "jobId" = VStr jobId) by (unfold field; by rewrite Hid).
  rewrite Hf.
  destruct (strict_eq_str (field job "status") "COMPLETED"
            && truthy (field job "result"));
    destruct (strict_eq_str (field job "status") "FAILED");
    rewrite ?lookup_insert_ne by done; reflexivity.
Qed.

(** The generation services do not touch the quota ledger. *)
Lemma generateFromText_quota now jobId params user (w : World L) :
  quotaStore (generateFromText cfg now jobId params user w).2 = quotaStore w.
Proof.
  destruct (isModeSupported cfg TEXT_TO_VIDEO) eqn:Hmode.
  - rewrite generateFromText_supported by done. cbv zeta.
    set (w2 := (setJobStatus jobId _ (record _ w)).2).
    pose proof (executeGeneration_effect cfg jobId params TEXT_TO_VIDEO w2)
      as (_ & _ & Hquota & _).
    cbv zeta in Hquota. cbn [snd quotaStore set_tasks]. by rewrite Hquota.
  - by rewrite generateFromText_unsupported.
Qed.

Lemma generateFromImage_quota now jobId params user (w : World L) :
  quotaStore (generateFromImage cfg now jobId params user w).2 = quotaStore w.
Proof.
  destruct (isModeSupported cfg IMAGE_TO_VIDEO) eqn:Hmode.
  - rewrite generateFromImage_supported by done. cbv zeta.
    set (w2 := (setJobStatus jobId _ (record _ w)).2).
    pose proof (executeImageGeneration_effect cfg jobId params w2)
      as (_ & _ & Hquota).
    cbv zeta in Hquota. cbn [snd quotaStore set_tasks]. by rewrite Hquota.
  - by rewrite generateFromImage_unsupported.
Qed.

(** A handler leaves the ledger as it is or as one [consumeQuota] of the
    caller leaves it. *)
Lemma textHandler_quota now today jobId req (w : World L) :
  quotaStore (textHandler cfg now today jobId req w).2
  = (Quota.consumeQuota cfg today (uid (user req)) (quotaStore w)).2.
Proof.
  unfold textHandler, bind, consumeQuota.
  destruct (Quota.consumeQuota cfg today (uid (user req)) (quotaStore w))
    as [[e|usage] q]; [done|].
  set (w1 := record _ (set_quotaStore q w)).
  pose proof (generateFromText_quota now jobId (textParams (body req))
                (user req) w1) as Hq.
  by destruct (generateFromText cfg now jobId (textParams (body req))
                 (user req) w1) as [[e|r] w2].
Qed.

Lemma imageHandler_quota now today jobId req (w : World L) :
  quotaStore (imageHandler cfg now today jobId req w).2 = quotaStore w
  \/ quotaStore (imageHandler cfg now today jobId req w).2
     = (Quota.consumeQuota cfg today (uid (user req)) (quotaStore w)).2.
Proof.
  unfold imageHandler, bind, checkModeSupported.
  destruct (isModeSupported cfg IMAGE_TO_VIDEO); [|by left].
  right. cbn [negb]. unfold consumeQuota. cbn [quotaStore record].
  destruct (Quota.consumeQuota cfg today (uid (user req)) (quotaStore w))
    as [[e|usage] q]; [done|].
  set (w1 := record _ (set_quotaStore q (record _ w))).
  pose proof (generateFromImage_quota now jobId (body req) (user req) w1) as Hq.
  by destruct (generateFromImage cfg now jobId (body req) (user req) w1)
       as [[e|r] w2].
Qed.

Lemma consumeQuota_keeps_counts_in_range today uid qs :
  (forall u r, qs !! u = Some r ->
     1 <= Quota.count r <= quota_dailyVideoGenerations cfg) ->
  forall u r, (Quota.consumeQuota cfg today uid qs).2 !! u = Some r ->
    1 <= Quota.count r <= quota_dailyVideoGenerations cfg.
Proof.
  intros Hinv u r.
  destruct (Z_le_gt_dec
              (Quota.remaining (Quota.getQuotaUsage cfg today uid qs)) 0)
    as [Hle|Hgt].
  - rewrite QuotaFacts.consumeQuota_exceeded by done. apply Hinv.
  - rewrite QuotaFacts.consumeQuota_granted by lia. simpl.
    destruct (decide (u = uid)) as [->|Hne].
    + rewrite lookup_insert_eq. intros [= <-]. simpl.
      pose proof (QuotaFacts.getQuotaUsage_remaining cfg today uid qs).
      assert (0 <= Quota.used (Quota.getQuotaUsage cfg today uid qs)).
      { unfold Quota.getQuotaUsage. destruct (qs !! uid) as [r0|] eqn:Hr0;
          [|simpl; lia].
        specialize (Hinv uid r0 Hr0).
        destruct (String.eqb (Quota.date r0) today); simpl; lia. }
      lia.
    + rewrite lookup_insert_ne by done. apply Hinv.
Qed.

(** X17.  On a server that started with an empty ledger, whatever
    requests, task completions and cleanups follow, on whatever days, no
    record of the quota ledger ever holds a count above the configured
    daily limit (or below one). *)
Theorem ledger_counts_stay_within_limit (w0 w : World L) uid r :
  quotaStore w0 = ∅ ->
  rtc (server_step cfg mw) w0 w ->
  quotaStore w !! uid = Some r ->
  1 <= Quota.count r <= quota_dailyVideoGenerations cfg.
Proof.
  intros Hempty Hrun. revert uid r.
  revert w Hrun.
  apply (rtc_ind_r (fun w => forall uid r, quotaStore w !! uid = Some r ->
                       1 <= Quota.count r <= quota_dailyVideoGenerations cfg)).
  - intros uid r. rewrite Hempty. by rewrite lookup_empty.
  - intros y z _ Hstep IH u r0.
    destruct Hstep as [now today jobId req w Hfresh Htask
                      | now today jobId req w Hfresh Htask
                      | now req w | now jobId req w | now jobId ext w
                      | now today w].
    + unfold postText.
      destruct (AdmissionFacts.through_middleware mw now req
                  (textToVideoValidations mw (body req))
                  (textHandler cfg now today jobId req) w)
        as [(Hq & _) | (w1 & Hq & _ & _ & ->)].
      * rewrite Hq. apply IH.
      * unfold respond.
        pose proof (textHandler_quota now today jobId req w1) as Hh.
        destruct (textHandler cfg now today jobId req w1) as [[e|resp] w2];
          simpl in *; rewrite Hh, Hq;
          by apply consumeQuota_keeps_counts_in_range.
    + unfold postImage.
      destruct (AdmissionFacts.through_middleware mw now req
                  (imageToVideoValidations mw (body req))
                  (imageHandler cfg now today jobId req) w)
        as [(Hq & _) | (w1 & Hq & _ & _ & ->)].
      * rewrite Hq. apply IH.
      * unfold respond.
        pose proof (imageHandler_quota now today jobId req w1) as Hh.
        destruct (imageHandler cfg now today jobId req w1) as [[e|resp] w2];
          simpl in *; destruct Hh as [Hh|Hh]; rewrite Hh, Hq;
          first [apply IH | by apply consumeQuota_keeps_counts_in_range].
    + unfold postVideo.
      destruct (AdmissionFacts.through_middleware mw now req
                  (videoToVideoValidations mw (body req))
                  (videoHandler cfg req) w)
        as [(Hq & _) | (w1 & Hq & _ & _ & ->)].
      * rewrite Hq. apply IH.
      * unfold respond. rewrite AdmissionFacts.videoHandler_rejects. simpl.
        rewrite Hq. apply IH.
    + unfold getStatus, throughRateLimiter, throughValidation, respond,
        statusHandler.
      destruct (rateLimiter mw _ now _) as [[|] l1]; simpl; [|apply IH].
      destruct (jobIdValidation mw jobId); simpl; [|apply IH].
      destruct (getJobStatus jobId _ _); apply IH.
    + destruct (tasks w !! jobId) as [task|] eqn:Htask.
      * destruct (settle_writes_terminal now jobId ext w task Htask)
          as (_ & _ & _ & _ & ->). apply IH.
      * unfold settle. rewrite Htask. apply IH.
    + unfold periodicCleanup. simpl.
      unfold Quota.cleanupOldEntries. intros Hr.
      apply map_lookup_filter_Some_1_1 in Hr. by apply (IH u r0).
Qed.

End WithConfig.

Lemma runningWorld_task : tasks runningWorld !! "job-1" = Some runningTask.
Proof. vm_compute. reflexivity. Qed.

Lemma runningWorld_job : jobStore runningWorld !! "job-1" = Some runningJob.
Proof. vm_compute. reflexivity. Qed.

Lemma runningJob_owner : field runningJob "userId" = VStr "alice".
Proof. vm_compute. reflexivity. Qed.

Lemma runningJob_created : field runningJob "createdAt" = VTime 1000.
Proof. vm_compute. reflexivity. Qed.

Lemma settle_finishes_task_witness :
  tasks (settle (config default_env) 5000 "job-1" successExternals runningWorld)
    !! "job-1" = None.
Proof.
  exact (proj1 (settle_finishes_task (config default_env) 5000 "job-1"
                  successExternals runningWorld runningTask
                  runningWorld_task)).
Defined.

Lemma poll_reports_outcome_witness :
  exists data,
    (statusHandler "job-1" aliceRequest
       (settle (config default_env) 5000 "job-1" failingExternals
          runningWorld)).1
    = inr (StatusReport data)
    /\ data !! "status" = Some (VStr "FAILED")
    /\ data !! "error" = Some (VStr "provider unavailable").
Proof.
  assert (Hstate : task_state runningTask
                   = AwaitingPredict (requestOf runningTask))
    by (vm_compute; reflexivity).
  destruct (proj2 (poll_reports_outcome (config default_env) 5000 "job-1"
                     failingExternals runningWorld runningTask aliceRequest
                     runningJob runningWorld_task runningWorld_job
                     runningJob_owner)
              "provider unavailable"
              (or_intror (ex_intro _ (requestOf runningTask)
                            (conj Hstate (or_introl eq_refl)))))
    as (data & Hdata & Hstatus & Herror & _).
  exists data. split; [exact Hdata|]. split; [exact Hstatus | exact Herror].
Defined.

Lemma finished_record_is_final_witness :
  tasks (periodicCleanup 6000 "2026-03-02" finishedWorld) !! "job-1" = None.
Proof.
  assert (Hjob : jobStore finishedWorld !! "job-1"
                 = Some (default ∅ (jobStore finishedWorld !! "job-1")))
    by (vm_compute; reflexivity).
  assert (Htask : tasks finishedWorld !! "job-1" = None)
    by (vm_compute; reflexivity).
  exact (proj2 (finished_record_is_final (config default_env) sampleMiddleware
                  finishedWorld _ "job-1" _
                  (step_periodicCleanup (config default_env) sampleMiddleware
                     6000 "2026-03-02" finishedWorld)
                  Hjob Htask)).
Defined.

Lemma creation_fields_are_immutable_witness :
  default ∅ (jobStore finishedWorld !! "job-1") !! "userId"
  = runningJob !! "userId".
Proof.
  assert (Hjob : jobStore finishedWorld !! "job-1"
                 = Some (default ∅ (jobStore finishedWorld !! "job-1")))
    by (vm_compute; reflexivity).
  exact (creation_fields_are_immutable (config default_env) sampleMiddleware
           runningWorld finishedWorld "job-1" runningJob _ "userId"
           (step_settle (config default_env) sampleMiddleware 5000 "job-1"
              successExternals runningWorld)
           runningWorld_job Hjob (or_introl eq_refl)).
Defined.

Lemma swept_running_job_is_lost_witness :
  jobStore (periodicCleanup 86401001 "2026-03-03" runningWorld) !! "job-1"
  = None.
Proof.
  assert (Hold : defaultMaxAgeMs < 86401001 - 1000) by reflexivity.
  assert (Huid : uid (user aliceRequest) <> "") by discriminate.
  exact (proj1 (swept_running_job_is_lost (config default_env) 86401001
                  "2026-03-03" 86500000 "job-1" successExternals runningWorld
                  runningTask runningJob 1000 aliceRequest []
                  runningWorld_task runningWorld_job runningJob_created
                  Hold Huid)).
Defined.

Lemma acceptedWorld_run :
  rtc (server_step (config default_env) sampleMiddleware)
    emptyWorld acceptedWorld.
Proof.
  apply rtc_once.
  apply (step_postText (config default_env) sampleMiddleware 1000
           "2026-03-02" "job-1" aliceRequest emptyWorld); reflexivity.
Defined.

Lemma record_names_its_id_witness :
  default ∅ (jobStore acceptedWorld !! "job-1") !! "jobId"
  = Some (VStr "job-1").
Proof.
  assert (H : jobStore acceptedWorld !! "job-1"
              = Some (default ∅ (jobStore acceptedWorld !! "job-1")))
    by (vm_compute; reflexivity).
  exact (proj1 (record_names_its_id (config default_env) sampleMiddleware
                  emptyWorld acceptedWorld "job-1" _ eq_refl eq_refl
                  acceptedWorld_run H)).
Defined.

Lemma ledger_counts_stay_within_limit_witness :
  1 <= Quota.count {| Quota.date := "2026-03-02"; Quota.count := 1 |}
    <= quota_dailyVideoGenerations (config default_env).
Proof.
  assert (H : quotaStore acceptedWorld !! "alice"
              = Some {| Quota.date := "2026-03-02"; Quota.count := 1 |})
    by (vm_compute; reflexivity).
  exact (ledger_counts_stay_within_limit (config default_env)
           sampleMiddleware emptyWorld acceptedWorld "alice" _ eq_refl
           acceptedWorld_run H).
Defined.

End ServerMore.

(** ** Routes: refusals and acceptance *)

Module RoutesMore.
Import Veo Server Modes Samples JobStoreFacts LifecycleFacts OrchestratorFacts
  AdmissionFacts.

Section WithMiddleware.
Context {L : Type}.
Variable cfg : Config.
Variable mw : Middleware L.

(** A request that both limiters admit and that is valid reaches its
    handler with both ledgers as they were. *)
Lemma through_admitted now req valid handler (w : World L) :
  (rateLimiter mw (limiterKey req) now (generalLimiter w)).1 = true ->
  (videoGenerationLimiter mw (limiterKey req) now (generationLimiter w)).1
  = true ->
  valid = true ->
  exists w1,
    quotaStore w1 = quotaStore w
    /\ jobStore w1 = jobStore w
    /\ tasks w1 = tasks w
    /\ throughRateLimiter mw now req
         (throughGenerationLimiter mw now req
            (throughValidation valid (respond handler))) w
       = respond handler w1.
Proof.
  intros Hg Hv ->.
  unfold throughRateLimiter, throughGenerationLimiter, throughValidation.
  destruct (rateLimiter mw _ now _) as [a1 l1]. simpl in Hg. subst a1.
  cbn [generationLimiter record set_generalLimiter].
  destruct (videoGenerationLimiter mw _ now _) as [a2 l2]. simpl in Hv.
  subst a2.
  eexists. split; [|split; [|split]]; [| | |reflexivity]; reflexivity.
Qed.

(** X18.  A generation request that either rate limiter refuses is
    answered 429 before anything else is looked at: whatever the body and
    the route, the quota ledger, the job store and the tasks are
    unchanged. *)
Theorem rate_limited_request_changes_nothing now today jobId req (w : World L) :
  (rateLimiter mw (limiterKey req) now (generalLimiter w)).1 = false
  \/ (videoGenerationLimiter mw (limiterKey req) now (generationLimiter w)).1
     = false ->
  forall out,
    out = postText cfg mw now today jobId req w
    \/ out = postImage cfg mw now today jobId req w
    \/ out = postVideo cfg mw now req w ->
    out.1 = TooManyRequests
    /\ quotaStore out.2 = quotaStore w
    /\ jobStore out.2 = jobStore w
    /\ tasks out.2 = tasks w.
Proof.
  intros Hrefused.
  assert (Hany : forall next,
            let out := throughRateLimiter mw now req
                         (throughGenerationLimiter mw now req next) w in
            out.1 = TooManyRequests
            /\ quotaStore out.2 = quotaStore w
            /\ jobStore out.2 = jobStore w
            /\ tasks out.2 = tasks w).
  { intros next. unfold throughRateLimiter, throughGenerationLimiter.
    destruct (rateLimiter mw _ now _) as [[|] l1]; simpl in *; [|done].
    destruct (videoGenerationLimiter mw _ now _) as [[|] l2]; simpl in *;
      [|done].
    destruct Hrefused; discriminate. }
  intros out [-> | [-> | ->]]; apply Hany.
Qed.

(** X19.  When the caller's quota is used up, the text route answers
    QuotaExceeded and creates nothing: no job record, no task, and the
    ledger is as before.  The image route does the same when its mode is
    enabled. *)
Theorem exhausted_quota_creates_no_job now today jobId req (w : World L) :
  (rateLimiter mw (limiterKey req) now (generalLimiter w)).1 = true ->
  (videoGenerationLimiter mw (limiterKey req) now (generationLimiter w)).1
  = true ->
  Quota.remaining
    (Quota.getQuotaUsage cfg today (uid (user req)) (quotaStore w)) <= 0 ->
  (textToVideoValidations mw (body req) = true ->
   let out := postText cfg mw now today jobId req w in
   out.1 = ErrorResponse (QuotaExceededError (uid (user req))
                            (quota_dailyVideoGenerations cfg))
   /\ quotaStore out.2 = quotaStore w
   /\ jobStore out.2 = jobStore w
   /\ tasks out.2 = tasks w)
  /\ (imageToVideoValidations mw (body req) = true ->
      isModeSupported cfg IMAGE_TO_VIDEO = true ->
      let out := postImage cfg mw now today jobId req w in
      out.1 = ErrorResponse (QuotaExceededError (uid (user req))
                               (quota_dailyVideoGenerations cfg))
      /\ quotaStore out.2 = quotaStore w
      /\ jobStore out.2 = jobStore w
      /\ tasks out.2 = tasks w).
Proof.
  intros Hg Hv Hrem. split.
  - intros Hvalid out. subst out. unfold postText.
    destruct (through_admitted now req _ (textHandler cfg now today jobId req)
                w Hg Hv Hvalid) as (w1 & Hq & Hj & Ht & ->).
    rewrite <- Hq in Hrem.
    destruct (textHandler_quota_exceeded cfg now today jobId req w1 Hrem)
      as (H1 & H2 & H3 & H4).
    unfold respond.
    destruct (textHandler cfg now today jobId req w1) as [[e|r] w2];
      simpl in *; [|discriminate].
    injection H1 as ->. repeat split; congruence.
  - intros Hvalid Hmode out. subst out. unfold postImage.
    destruct (through_admitted now req _ (imageHandler cfg now today jobId req)
                w Hg Hv Hvalid) as (w1 & Hq & Hj & Ht & ->).
    rewrite <- Hq in Hrem.
    unfold respond, imageHandler, bind, checkModeSupported.
    rewrite Hmode. cbn [negb]. unfold consumeQuota. cbn [quotaStore record].
    rewrite (QuotaFacts.consumeQuota_exceeded cfg today _ _ Hrem).
    simpl. repeat split; congruence.
Qed.

(** X20.  With the image mode disabled, an admitted and valid image
    request is answered UnsupportedMode before the quota is consulted:
    nothing is charged and nothing is created, whatever the caller's
    quota. *)
Theorem disabled_image_mode_charges_nothing now today jobId req (w : World L) :
  (rateLimiter mw (limiterKey req) now (generalLimiter w)).1 = true ->
  (videoGenerationLimiter mw (limiterKey req) now (generationLimiter w)).1
  = true ->
  imageToVideoValidations mw (body req) = true ->
  isModeSupported cfg IMAGE_TO_VIDEO = false ->
  let out := postImage cfg mw now today jobId req w in
  out.1 = ErrorResponse (UnsupportedModeError IMAGE_TO_VIDEO)
  /\ quotaStore out.2 = quotaStore w
  /\ jobStore out.2 = jobStore w
  /\ tasks out.2 = tasks w.
Proof.
  intros Hg Hv Hvalid Hmode out. subst out. unfold postImage.
  destruct (through_admitted now req _ (imageHandler cfg now today jobId req)
              w Hg Hv Hvalid) as (w1 & Hq & Hj & Ht & ->).
  unfold respond. rewrite imageHandler_mode_disabled by done. simpl.
  repeat split; congruence.
Qed.

(** X21.  The video route never accepts a job, whatever the
    configuration says about the video mode: it answers 429, a validation
    error or UnsupportedMode, and never touches the quota ledger, the job
    store or the tasks. *)
Theorem postVideo_never_accepts now req (w : World L) :
  let out := postVideo cfg mw now req w in
  (out.1 = TooManyRequests
   \/ out.1 = ErrorResponse (ValidationError "Validation failed")
   \/ out.1 = ErrorResponse (UnsupportedModeError VIDEO_TO_VIDEO))
  /\ quotaStore out.2 = quotaStore w
  /\ jobStore out.2 = jobStore w
  /\ tasks out.2 = tasks w.
Proof.
  intros out. subst out. unfold postVideo.
  destruct (through_middleware mw now req
              (videoToVideoValidations mw (body req))
              (videoHandler cfg req) w)
    as [(Hq & Hj & Ht & [H | H]) | (w1 & Hq & Hj & Ht & ->)].
  - repeat split; auto.
  - repeat split; auto.
  - unfold respond. rewrite videoHandler_rejects. simpl.
    repeat split; auto.
Qed.

(** The state in which [generateFromText] hands back a fresh job id. *)
Lemma generateFromText_started now jobId params user (w : World L) :
  isModeSupported cfg TEXT_TO_VIDEO = true ->
  jobStore w !! jobId = None ->
  (generateFromText cfg now jobId params user w).1 = inr jobId
  /\ (exists job,
        getJobStatus jobId (Some (uid user))
          (jobStore (generateFromText cfg now jobId params user w).2)
        = Some job
        /\ job_status job = Some PROCESSING
        /\ field job "createdAt" = VTime now)
  /\ is_Some (tasks (generateFromText cfg now jobId params user w).2 !! jobId).
Proof.
  intros Hmode Hfresh.
  rewrite (generateFromText_supported cfg now jobId params user w Hmode).
  cbv zeta.
  set (w2 := (setJobStatus jobId _ (record _ w)).2).
  pose proof (executeGeneration_effect cfg jobId params TEXT_TO_VIDEO w2)
    as (Hstore & _).
  cbv zeta in Hstore.
  assert (Hpend : jobStore w2 !! jobId
                  = Some (<["jobId" := VStr jobId]>
                            (pendingFields TEXT_TO_VIDEO now user
                               [("prompt", VStr (prompt params))] ∪ ∅))).
  { unfold w2. simpl. by rewrite updateJobStatus_lookup, Hfresh. }
  split; [reflexivity|]. simpl. rewrite Hstore. split.
  - eexists. split; [|split].
    + apply getJobStatus_owner; [apply updateJobStatus_lookup|].
      unfold field. rewrite merged_lookup by done. rewrite Hpend. simpl.
      by rewrite merged_lookup.
    + apply (job_status_of_field _ PROCESSING). by rewrite merged_lookup.
    + unfold field. rewrite merged_lookup by done. rewrite Hpend. simpl.
      by rewrite merged_lookup.
  - rewrite lookup_insert_eq. by eexists.
Qed.

(** X22.  What an accepted text request has done.  If the text route
    answers 202 for a job id that was not in use, the response carries
    that id and the literal status PENDING; the caller was charged exactly
    one unit and the quota in the response is what the ledger now reads;
    the job is readable by the caller, already in status PROCESSING, and
    its task is outstanding. *)
Theorem accepted_text_request now today jobId req (w : World L)
    id status mode quota :
  jobStore w !! jobId = None ->
  (postText cfg mw now today jobId req w).1 = Accepted id status mode quota ->
  let w' := (postText cfg mw now today jobId req w).2 in
  id = jobId /\ status = "PENDING" /\ mode = TEXT_TO_VIDEO
  /\ (exists usage,
        quota = Some usage
        /\ Quota.getQuotaUsage cfg today (uid (user req)) (quotaStore w')
           = usage
        /\ Quota.used usage
           = Quota.used (Quota.getQuotaUsage cfg today (uid (user req))
                           (quotaStore w)) + 1
        /\ Quota.used usage <= quota_dailyVideoGenerations cfg)
  /\ (exists job,
        getJobStatus jobId (Some (uid (user req))) (jobStore w') = Some job
        /\ job_status job = Some PROCESSING
        /\ field job "createdAt" = VTime now)
  /\ is_Some (tasks w' !! jobId).
Proof.
  intros Hfresh Hresp w'. subst w'. revert Hresp. unfold postText.
  destruct (through_middleware mw now req
              (textToVideoValidations mw (body req))
              (textHandler cfg now today jobId req) w)
    as [(_ & _ & _ & [-> | ->]) | (w1 & Hq & Hj & Ht & ->)];
    try discriminate.
  unfold respond, textHandler, bind, consumeQuota.
  destruct (Z_le_gt_dec
              (Quota.remaining
                 (Quota.getQuotaUsage cfg today (uid (user req)) (quotaStore w1)))
              0) as [Hle|Hgt].
  { rewrite (QuotaFacts.consumeQuota_exceeded cfg today _ _ Hle). discriminate. }
  rewrite QuotaFacts.consumeQuota_granted by lia.
  set (usage := {| Quota.used := _ |}).
  set (w2 := record _ (set_quotaStore _ w1)).
  destruct (isModeSupported cfg TEXT_TO_VIDEO) eqn:Hmode;
    [|rewrite generateFromText_unsupported by done; discriminate].
  assert (Hfresh2 : jobStore w2 !! jobId = None) by (simpl; congruence).
  pose proof (generateFromText_started now jobId
                (textParams (body req)) (user req) w2 Hmode Hfresh2)
    as (Hid & Hjob & Htask).
  pose proof (ServerMore.generateFromText_quota cfg now jobId
                (textParams (body req)) (user req) w2) as Hquota.
  destruct (generateFromText cfg now jobId (textParams (body req))
              (user req) w2) as [[e|r] w3]; simpl in *; [discriminate|].
  injection Hid as ->. intros [= <- <- <- <-].
  split; [reflexivity|]. split; [reflexivity|]. split; [reflexivity|].
  split; [|split; [exact Hjob | exact Htask]].
  exists usage. split; [reflexivity|].
  rewrite Hquota. unfold w2. simpl.
  rewrite QuotaFacts.getQuotaUsage_insert_today.
  pose proof (QuotaFacts.getQuotaUsage_remaining cfg today (uid (user req))
                (quotaStore w1)) as Hrem.
  rewrite <- Hq. unfold usage. simpl. split; [f_equal; lia|]. split; lia.
Qed.

(** X23.  What an accepted image request has done.  The image route
    answers 202 only when the image mode is enabled; for a job id that
    was not in use the response carries that id and the literal status
    PENDING, the caller was charged exactly one unit, and the job is
    readable by the caller, already in status PROCESSING and without a
    result or an error. *)
Theorem accepted_image_request now today jobId req (w : World L)
    id status mode quota :
  jobStore w !! jobId = None ->
  (postImage cfg mw now today jobId req w).1 = Accepted id status mode quota ->
  let w' := (postImage cfg mw now today jobId req w).2 in
  isModeSupported cfg IMAGE_TO_VIDEO = true
  /\ id = jobId /\ status = "PENDING" /\ mode = IMAGE_TO_VIDEO
  /\ (exists usage,
        quota = Some usage
        /\ Quota.getQuotaUsage cfg today (uid (user req)) (quotaStore w')
           = usage
        /\ Quota.used usage
           = Quota.used (Quota.getQuotaUsage cfg today (uid (user req))
                           (quotaStore w)) + 1)
  /\ (exists job,
        getJobStatus jobId (Some (uid (user req))) (jobStore w') = Some job
        /\ job_status job = Some PROCESSING
        /\ job !! "result" = None
        /\ job !! "error" = None).
Proof.
  intros Hfresh Hresp w'. subst w'. revert Hresp. unfold postImage.
  destruct (through_middleware mw now req
              (imageToVideoValidations mw (body req))
              (imageHandler cfg now today jobId req) w)
    as [(_ & _ & _ & [-> | ->]) | (w1 & Hq & Hj & Ht & ->)];
    try discriminate.
  destruct (isModeSupported cfg IMAGE_TO_VIDEO) eqn:Hmode;
    [|unfold respond; rewrite imageHandler_mode_disabled by done;
      discriminate].
  unfold respond, imageHandler, bind, checkModeSupported, consumeQuota.
  rewrite Hmode. cbn [negb quotaStore record].
  destruct (Z_le_gt_dec
              (Quota.remaining
                 (Quota.getQuotaUsage cfg today (uid (user req)) (quotaStore w1)))
              0) as [Hle|Hgt].
  { rewrite (QuotaFacts.consumeQuota_exceeded cfg today _ _ Hle). discriminate. }
  rewrite QuotaFacts.consumeQuota_granted by lia.
  set (usage := {| Quota.used := _ |}).
  set (w2 := record _ (set_quotaStore _ _)).
  assert (Hfresh2 : jobStore w2 !! jobId = None) by (simpl; congruence).
  pose proof (generateFromImage_returns_processing cfg now jobId
                (body req) (user req) w2 Hmode Hfresh2)
    as (Hid & Hjob).
  pose proof (ServerMore.generateFromImage_quota cfg now jobId
                (body req) (user req) w2) as Hquota.
  destruct (generateFromImage cfg now jobId (body req) (user req) w2)
    as [[e|r] w3]; simpl in *; [discriminate|].
  injection Hid as ->. intros [= <- <- <- <-].
  split; [reflexivity|]. split; [reflexivity|]. split; [reflexivity|].
  split; [reflexivity|]. split; [|exact Hjob].
  exists usage. split; [reflexivity|].
  rewrite Hquota. unfold w2. simpl.
  rewrite QuotaFacts.getQuotaUsage_insert_today.
  pose proof (QuotaFacts.getQuotaUsage_remaining cfg today (uid (user req))
                (quotaStore w1)) as Hrem.
  rewrite <- Hq. unfold usage. simpl. split; [f_equal; lia|reflexivity].
Qed.

End WithMiddleware.

Lemma rate_limited_request_changes_nothing_witness :
  (postText (config default_env) sampleMiddleware 1000 "2026-03-02" "job-1"
     aliceRequest throttledWorld).1 = TooManyRequests.
Proof.
  assert (H : (videoGenerationLimiter sampleMiddleware
                 (limiterKey aliceRequest) 1000
                 (generationLimiter throttledWorld)).1 = false)
    by (vm_compute; reflexivity).
  exact (proj1 (rate_limited_request_changes_nothing (config default_env)
                  sampleMiddleware 1000 "2026-03-02" "job-1" aliceRequest
                  throttledWorld (or_intror H) _ (or_introl eq_refl))).
Defined.

Lemma exhausted_quota_creates_no_job_witness :
  (postText (config default_env) sampleMiddleware 1000 "2026-03-02" "job-1"
     aliceRequest exhaustedWorld).1
  = ErrorResponse (QuotaExceededError "alice" 50).
Proof.
  assert (Hg : (rateLimiter sampleMiddleware (limiterKey aliceRequest) 1000
                  (generalLimiter exhaustedWorld)).1 = true)
    by (vm_compute; reflexivity).
  assert (Hv : (videoGenerationLimiter sampleMiddleware
                  (limiterKey aliceRequest) 1000
                  (generationLimiter exhaustedWorld)).1 = true)
    by (vm_compute; reflexivity).
  assert (Hrem : Quota.remaining
                   (Quota.getQuotaUsage (config default_env) "2026-03-02"
                      (uid (user aliceRequest)) (quotaStore exhaustedWorld))
                 <= 0)
    by (vm_compute; discriminate).
  exact (proj1 (proj1 (exhausted_quota_creates_no_job (config default_env)
                         sampleMiddleware 1000 "2026-03-02" "job-1"
                         aliceRequest exhaustedWorld Hg Hv Hrem)
                  eq_refl)).
Defined.

Lemma disabled_image_mode_charges_nothing_witness :
  quotaStore
    (postImage (config default_env) sampleMiddleware 1000 "2026-03-02"
       "job-1" aliceRequest emptyWorld).2
  = quotaStore emptyWorld.
Proof.
  assert (Hg : (rateLimiter sampleMiddleware (limiterKey aliceRequest) 1000
                  (generalLimiter emptyWorld)).1 = true)
    by (vm_compute; reflexivity).
  assert (Hv : (videoGenerationLimiter sampleMiddleware
                  (limiterKey aliceRequest) 1000
                  (generationLimiter emptyWorld)).1 = true)
    by (vm_compute; reflexivity).
  exact (proj1 (proj2 (disabled_image_mode_charges_nothing
                         (config default_env) sampleMiddleware 1000
                         "2026-03-02" "job-1" aliceRequest emptyWorld
                         Hg Hv eq_refl eq_refl))).
Defined.

Lemma accepted_text_request_witness :
  is_Some (tasks acceptedWorld !! "job-1").
Proof.
  assert (Hresp : (postText (config default_env) sampleMiddleware 1000
                     "2026-03-02" "job-1" aliceRequest emptyWorld).1
                  = Accepted "job-1" "PENDING" TEXT_TO_VIDEO
                      (Some {| Quota.used := 1; Quota.limit := 50;
                               Quota.remaining := 49 |}))
    by (vm_compute; reflexivity).
  exact (proj2 (proj2 (proj2 (proj2 (proj2
           (accepted_text_request (config default_env) sampleMiddleware 1000
              "2026-03-02" "job-1" aliceRequest emptyWorld _ _ _ _
              eq_refl Hresp)))))).
Defined.

Lemma accepted_image_request_witness :
  isModeSupported (config forward_all_env) IMAGE_TO_VIDEO = true.
Proof.
  assert (Hresp : (postImage (config forward_all_env) sampleMiddleware 1000
                     "2026-03-02" "job-1" aliceRequest emptyWorld).1
                  = Accepted "job-1" "PENDING" IMAGE_TO_VIDEO
                      (Some {| Quota.used := 1; Quota.limit := 50;
                               Quota.remaining := 49 |}))
    by (vm_compute; reflexivity).
  exact (proj1 (accepted_image_request (config forward_all_env)
                  sampleMiddleware 1000 "2026-03-02" "job-1" aliceRequest
                  emptyWorld _ _ _ _ eq_refl Hresp)).
Defined.

End RoutesMore.

(** ** Deployments: what the configuration can and cannot switch *)

Module DeploymentFacts.
Import Veo Server Modes.

(** X24.  GET /modes advertises exactly the modes that [isModeSupported]
    accepts, each once. *)
Theorem advertisedModes_are_the_supported cfg :
  (forall mode, In mode (advertisedModes cfg)
                <-> isModeSupported cfg mode = true)
  /\ NoDup (advertisedModes cfg).
Proof.
  unfold advertisedModes, supportedModeEntries, isModeSupported.
  split.
  - intros mode.
    destruct (veo_supportedModes cfg) as [[|] [|] [|]], mode; simpl;
      (split;
       [intros H; try reflexivity; intuition discriminate
       |intros H; try discriminate; auto 6]).
  - destruct (veo_supportedModes cfg) as [[|] [|] [|]]; simpl;
      repeat (apply NoDup_cons_2;
              [rewrite ?not_elem_of_cons; repeat split;
               try discriminate; apply not_elem_of_nil|]);
      apply NoDup_nil_2.
Qed.

(** X25.  No environment makes a deployment advertise the video mode or
    hide the text mode: the list is the text mode, followed by the image
    mode exactly when VEO_ENABLE_IMAGE_TO_VIDEO is the string "true". *)
Theorem deployment_modes env :
  advertisedModes (config env)
  = TEXT_TO_VIDEO
    :: (if env_is (VEO_ENABLE_IMAGE_TO_VIDEO env) "true"
        then [IMAGE_TO_VIDEO] else []).
Proof.
  unfold advertisedModes, supportedModeEntries. simpl.
  by destruct (env_is (VEO_ENABLE_IMAGE_TO_VIDEO env) "true").
Qed.

(** X26.  The daily limit of a deployment is never 0: USER_DAILY_QUOTA
    unset, unparsable or 0 gives 50.  So the first request of the day of
    an identity without a ledger record is refused exactly under a
    negative setting. *)
Theorem daily_quota_cannot_be_zero env :
  quota_dailyVideoGenerations (config env) <> 0
  /\ (USER_DAILY_QUOTA env = None \/ USER_DAILY_QUOTA env = Some 0 ->
      quota_dailyVideoGenerations (config env) = 50)
  /\ (forall today uid qs,
        qs !! uid = None ->
        (Quota.succeeded (Quota.consumeQuota (config env) today uid qs).1
         = false
         <-> exists z, USER_DAILY_QUOTA env = Some z /\ z < 0)).
Proof.
  assert (Hnz : quota_dailyVideoGenerations (config env) <> 0).
  { simpl. unfold int_or. destruct (USER_DAILY_QUOTA env) as [z|]; [|done].
    destruct (Z.eqb_spec z 0); [done|done]. }
  split; [exact Hnz|]. split.
  { intros [H | H]; simpl; by rewrite H. }
  intros today uid qs Hnone.
  assert (Hrem : Quota.remaining (Quota.getQuotaUsage (config env) today uid qs)
                 = quota_dailyVideoGenerations (config env)).
  { unfold Quota.getQuotaUsage. by rewrite Hnone. }
  destruct (Z_le_gt_dec (quota_dailyVideoGenerations (config env)) 0)
    as [Hle|Hgt].
  - rewrite QuotaFacts.consumeQuota_exceeded by lia. simpl.
    split; [intros _|done].
    revert Hle Hnz. simpl. unfold int_or.
    destruct (USER_DAILY_QUOTA env) as [z|]; [|lia].
    destruct (Z.eqb_spec z 0); [lia|]. intros. exists z. split; [done|lia].
  - rewrite QuotaFacts.consumeQuota_granted by lia. simpl.
    split; [done|]. intros (z & Hz & Hneg). revert Hgt. simpl.
    rewrite Hz. unfold int_or. destruct (Z.eqb_spec z 0); lia.
Qed.

(** X27.  A started task fails before the provider is called exactly
    when the list of allowed durations is empty.  In a deployment it is
    not: whatever the request, the text task issues a provider call
    without an image and the image task the same call with the image
    attached, its MIME type defaulting to image/png. *)
Theorem deployed_task_reaches_provider {L} cfg jobId params mode (w : World L) :
  ((executeGeneration cfg jobId params mode w).1
   = Rejected reduce_empty_message
   <-> allowedDurations (veo_limits cfg) = [])
  /\ (forall env,
        exists request,
          (executeGeneration (config env) jobId params mode w).1
          = AwaitingPredict request
          /\ instance_image request = None
          /\ (executeImageGeneration (config env) jobId params w).1
             = AwaitingPredict
                 {| endpoint := endpoint request;
                    instance_prompt := instance_prompt request;
                    instance_image :=
                      Some (default "" (imageBase64 params),
                            str_or (imageMimeType params) "image/png");
                    parameters := parameters request |}).
Proof.
  split.
  - unfold executeGeneration, buildRequestParameters, normalizeDuration,
      reduce, setJobStatus.
    destruct (allowedDurations (veo_limits cfg)) as [|a l]; simpl.
    + done.
    + split; discriminate.
  - intros env. eexists. split; [|split]; reflexivity.
Qed.

End DeploymentFacts.

(** ** Error responses *)

Module ErrorFacts.
Import Veo Server ErrorHandler AdmissionFacts.

Section WithNumbers.
Variable numberToString : Z -> string.

(** X28.  The production switch of [errorHandler] changes no response:
    every error class of the service has a status other than 500, and
    an exception of any other kind is answered 500 with the fixed
    message in either setting, so its own message never reaches the
    client. *)
Theorem errorHandler_production_is_inert production err :
  errorHandler numberToString production err
  = errorHandler numberToString false err
  /\ (http_status (errorHandler numberToString production err) = 500
      <-> exists m, err = Foreign m)
  /\ (forall m1 m2,
        errorHandler numberToString production (Foreign m1)
        = errorHandler numberToString production (Foreign m2)).
Proof.
  split; [|split].
  - destruct production; [|reflexivity].
    destruct err as [[]| | |]; reflexivity.
  - destruct production, err as [[]| | |]; simpl; split;
      try discriminate; try (intros (m0 & Hm); discriminate);
      try (intros _; by eexists); done.
  - intros m1 m2. by destruct production.
Qed.

Section WithMiddleware.
Context {L : Type}.
Variable cfg : Config.
Variable mw : Middleware L.

(** The answers that each route can give. *)
Lemma postText_answers now today jobId req (w : World L) :
  let r := (postText cfg mw now today jobId req w).1 in
  r = TooManyRequests
  \/ r = ErrorResponse (ValidationError "Validation failed")
  \/ (exists u l, r = ErrorResponse (QuotaExceededError u l))
  \/ r = ErrorResponse (UnsupportedModeError TEXT_TO_VIDEO)
  \/ exists usage, r = Accepted jobId "PENDING" TEXT_TO_VIDEO (Some usage).
Proof.
  intros r. subst r. unfold postText.
  destruct (through_middleware mw now req
              (textToVideoValidations mw (body req))
              (textHandler cfg now today jobId req) w)
    as [(_ & _ & _ & [-> | ->]) | (w1 & _ & _ & _ & ->)]; [tauto | tauto |].
  unfold respond.
  destruct (Z_le_gt_dec
              (Quota.remaining
                 (Quota.getQuotaUsage cfg today (uid (user req))
                    (quotaStore w1))) 0) as [Hle|Hgt].
  { destruct (textHandler_quota_exceeded cfg now today jobId req w1 Hle)
      as (Hq & _).
    destruct (textHandler cfg now today jobId req w1) as [[e1|r] w2];
      simpl in *; [|discriminate].
    injection Hq as ->. right. right. left. by do 2 eexists. }
  destruct (isModeSupported cfg TEXT_TO_VIDEO) eqn:Hmode.
  { destruct (textHandler_mode_enabled cfg now today jobId req w1 Hmode)
      as [(l & Hq) | (u & Hq)];
      destruct (textHandler cfg now today jobId req w1) as [[e1|r] w2];
      simpl in *; try discriminate.
    - injection Hq as ->. right. right. left. by do 2 eexists.
    - injection Hq as ->. right. right. right. right. by eexists. }
  assert (Hgt' : 0 < Quota.remaining
                       (Quota.getQuotaUsage cfg today (uid (user req))
                          (quotaStore w1))) by lia.
  destruct (textHandler_mode_disabled cfg now today jobId req w1
              Hmode Hgt') as (Hq & _).
  destruct (textHandler cfg now today jobId req w1) as [[e1|r] w2];
    simpl in *; [|discriminate].
  injection Hq as ->. tauto.
Qed.

Lemma postImage_answers now today jobId req (w : World L) :
  let r := (postImage cfg mw now today jobId req w).1 in
  r = TooManyRequests
  \/ r = ErrorResponse (ValidationError "Validation failed")
  \/ (exists u l, r = ErrorResponse (QuotaExceededError u l))
  \/ r = ErrorResponse (UnsupportedModeError IMAGE_TO_VIDEO)
  \/ exists usage, r = Accepted jobId "PENDING" IMAGE_TO_VIDEO (Some usage).
Proof.
  intros r. subst r. unfold postImage.
  destruct (through_middleware mw now req
              (imageToVideoValidations mw (body req))
              (imageHandler cfg now today jobId req) w)
    as [(_ & _ & _ & [-> | ->]) | (w1 & _ & _ & _ & ->)]; [tauto | tauto |].
  unfold respond.
  destruct (isModeSupported cfg IMAGE_TO_VIDEO) eqn:Hmode.
  { destruct (imageHandler_mode_enabled cfg now today jobId req w1 Hmode)
      as [(l & Hq) | (u & Hq)];
      destruct (imageHandler cfg now today jobId req w1) as [[e1|r] w2];
      simpl in *; try discriminate.
    - injection Hq as ->. right. right. left. by do 2 eexists.
    - injection Hq as ->. right. right. right. right. by eexists. }
  rewrite imageHandler_mode_disabled by done. simpl. tauto.
Qed.

Lemma postVideo_answers now req (w : World L) :
  let r := (postVideo cfg mw now req w).1 in
  r = TooManyRequests
  \/ r = ErrorResponse (ValidationError "Validation failed")
  \/ r = ErrorResponse (UnsupportedModeError VIDEO_TO_VIDEO).
Proof.
  intros r. subst r. unfold postVideo.
  destruct (through_middleware mw now req
              (videoToVideoValidations mw (body req))
              (videoHandler cfg req) w)
    as [(_ & _ & _ & [-> | ->]) | (w1 & _ & _ & _ & ->)]; [tauto | tauto |].
  unfold respond. rewrite videoHandler_rejects. simpl. tauto.
Qed.

Lemma getStatus_answers now jobId req (w : World L) :
  let r := (getStatus mw now jobId req w).1 in
  r = TooManyRequests
  \/ r = ErrorResponse (ValidationError "Validation failed")
  \/ r = ErrorResponse (NotFoundError ("Job " ++ jobId ++ " not found"))
  \/ exists data, r = StatusReport data.
Proof.
  intros r. subst r.
  unfold getStatus, throughRateLimiter, throughValidation, respond,
    statusHandler.
  destruct (rateLimiter mw _ now _) as [[|] l1]; simpl; [|tauto].
  destruct (jobIdValidation mw jobId); simpl; [|tauto].
  destruct (getJobStatus _ _ _); simpl; [|tauto].
  right. right. right. by eexists.
Qed.

(** X29.  Past authentication and body parsing, every answer of the
    text and image routes has status 202, 400 or 429, every answer of
    the video route 400 or 429, and every answer of the status route
    200, 400, 404 or 429, in either setting of the production switch;
    429 is the refusal of a rate limiter or, on the text and image
    routes, the exhausted quota.  A failure of the provider never shows
    as the status of a POST, and an error answered through
    [errorHandler] carries the message of its class. *)
Theorem route_errors_are_client_errors production now today jobId req
    (w : World L) :
  (forall r,
     r = (postText cfg mw now today jobId req w).1
     \/ r = (postImage cfg mw now today jobId req w).1 ->
     (responseStatus numberToString production r = 202
      \/ responseStatus numberToString production r = 400
      \/ responseStatus numberToString production r = 429)
     /\ (responseStatus numberToString production r = 429 ->
         r = TooManyRequests
         \/ exists u l, r = ErrorResponse (QuotaExceededError u l)))
  /\ (forall r,
        r = (postVideo cfg mw now req w).1 ->
        (responseStatus numberToString production r = 400
         \/ responseStatus numberToString production r = 429)
        /\ (responseStatus numberToString production r = 429 ->
            r = TooManyRequests))
  /\ (forall r,
        r = (getStatus mw now jobId req w).1 ->
        (responseStatus numberToString production r = 200
         \/ responseStatus numberToString production r = 400
         \/ responseStatus numberToString production r = 404
         \/ responseStatus numberToString production r = 429)
        /\ (responseStatus numberToString production r = 429 ->
            r = TooManyRequests))
  /\ (forall r e,
        r = (postText cfg mw now today jobId req w).1
        \/ r = (postImage cfg mw now today jobId req w).1
        \/ r = (postVideo cfg mw now req w).1
        \/ r = (getStatus mw now jobId req w).1 ->
        r = ErrorResponse e ->
        error_message (errorHandler numberToString production (Service e))
        = message numberToString e
        /\ forall m, e <> VeoApiError m).
Proof.
  pose proof (postText_answers now today jobId req w) as Htext.
  pose proof (postImage_answers now today jobId req w) as Himage.
  pose proof (postVideo_answers now req w) as Hvideo.
  pose proof (getStatus_answers now jobId req w) as Hstatus.
  cbv zeta in Htext, Himage, Hvideo, Hstatus.
  split; [|split; [|split]].
  - intros r [-> | ->].
    + destruct Htext as [-> | [-> | [(u & l & ->) | [-> | (usage & ->)]]]];
        destruct production; simpl; split; try tauto; try discriminate;
        intros _; right; by do 2 eexists.
    + destruct Himage as [-> | [-> | [(u & l & ->) | [-> | (usage & ->)]]]];
        destruct production; simpl; split; try tauto; try discriminate;
        intros _; right; by do 2 eexists.
  - intros r ->.
    destruct Hvideo as [-> | [-> | ->]];
      destruct production; simpl; split; try tauto; discriminate.
  - intros r ->.
    destruct Hstatus as [-> | [-> | [-> | (data & ->)]]];
      destruct production; simpl; split; try tauto; discriminate.
  - intros r e Hr ->.
    assert (Hclass : (exists m, e = ValidationError m)
                     \/ (exists m, e = NotFoundError m)
                     \/ (exists mode, e = UnsupportedModeError mode)
                     \/ exists u l, e = QuotaExceededError u l).
    { destruct Hr as [Hr | [Hr | [Hr | Hr]]]; rewrite <- Hr in *.
      - destruct Htext as [H | [H | [(u & l & H) | [H | (usage & H)]]]];
          try discriminate; injection H as ->; eauto 6.
      - destruct Himage as [H | [H | [(u & l & H) | [H | (usage & H)]]]];
          try discriminate; injection H as ->; eauto 6.
      - destruct Hvideo as [H | [H | H]];
          try discriminate; injection H as ->; eauto 6.
      - destruct Hstatus as [H | [H | [H | (data & H)]]];
          try discriminate; injection H as ->; eauto 6. }
    destruct Hclass as [(m & ->) | [(m & ->) | [(mode & ->) | (u & l & ->)]]];
      destruct production; simpl; split; try reflexivity; discriminate.
Qed.

End WithMiddleware.

End WithNumbers.

Lemma route_errors_are_client_errors_witness :
  (getStatus sampleMiddleware 1000 "job-1" aliceRequest
     Samples.busyWorld).1 = TooManyRequests.
Proof.
  assert (H : responseStatus (fun _ => "50") true
                (getStatus sampleMiddleware 1000 "job-1" aliceRequest
                   Samples.busyWorld).1 = 429)
    by (vm_compute; reflexivity).
  exact (proj2 (proj1 (proj2 (proj2
           (route_errors_are_client_errors (fun _ => "50")
              (config default_env) sampleMiddleware true 1000 "2026-03-02"
              "job-1" aliceRequest Samples.busyWorld)))
           _ eq_refl) H).
Defined.

End ErrorFacts.

(** ** Authentication *)

Module AuthFacts.
Import Stdlib.Strings.Ascii.
Import Veo Auth.

Lemma split_space_nonempty s : split_space s <> [].
Proof.
  destruct s as [|c rest]; simpl; [done|].
  destruct (Ascii.eqb c " "%char); [done|].
  by destruct (split_space rest).
Qed.

(** [parts.join(' ')] gives the string back. *)
Lemma split_space_join s : String.concat " " (split_space s) = s.
Proof.
  induction s as [|c rest IH]; simpl; [reflexivity|].
  destruct (Ascii.eqb_spec c " "%char) as [->|Hc].
  - pose proof (split_space_nonempty rest) as Hne.
    destruct (split_space rest) as [|first others] eqn:Hs; [done|].
    change (String.concat " " ("" :: first :: others))
      with (String " " (String.concat " " (first :: others))).
    by rewrite IH.
  - pose proof (split_space_nonempty rest) as Hne.
    destruct (split_space rest) as [|first others] eqn:Hs; [done|].
    rewrite <- IH. by destruct others.
Qed.

Lemma split_space_spaceless s :
  Forall spaceless (split_space s).
Proof.
  induction s as [|c rest IH]; simpl.
  - constructor; [|constructor]. intros c [].
  - destruct (Ascii.eqb_spec c " "%char) as [->|Hc].
    + constructor; [|exact IH]. intros c [].
    + destruct (split_space rest) as [|first others].
      * constructor; [|constructor]. intros c' [<-|[]]. exact Hc.
      * inversion IH as [|? ? Hfirst Hothers]; subst.
        constructor; [|exact Hothers].
        intros c' [<-|Hin]; [exact Hc|by apply Hfirst].
Qed.

Lemma split_space_whole s : spaceless s -> split_space s = [s].
Proof.
  induction s as [|c rest IH]; intros Hs; simpl; [reflexivity|].
  destruct (Ascii.eqb_spec c " "%char) as [->|Hc].
  - exfalso. apply (Hs " "%char); [by left|reflexivity].
  - rewrite IH; [reflexivity|]. intros c' Hin. apply Hs. by right.
Qed.

Lemma split_space_app a b :
  spaceless a ->
  split_space (a ++ String " " b) = a :: split_space b.
Proof.
  induction a as [|c rest IH]; intros Ha; simpl; [reflexivity|].
  destruct (Ascii.eqb_spec c " "%char) as [->|Hc].
  - exfalso. apply (Ha " "%char); [by left|reflexivity].
  - rewrite IH; [reflexivity|]. intros c' Hin. apply Ha. by right.
Qed.

(** X30.  [firebaseAuth] lets a request through exactly when its
    Authorization header is the word Bearer, one space, and a token
    without a space that the verifier accepts (the empty token is passed
    to the verifier like any other); the user of the request is the
    decoded token.  The only token ever verified is the text after
    "Bearer ". *)
Theorem firebaseAuth_accepts_bearer_only verifyIdToken authorization :
  (forall user,
     firebaseAuth verifyIdToken authorization = inr user
     <-> exists token,
           authorization = Some ("Bearer " ++ token)
           /\ spaceless token
           /\ verifyIdToken token = inr user)
  /\ (forall verify',
        (forall token,
           authorization = Some ("Bearer " ++ token) ->
           verify' token = verifyIdToken token) ->
        firebaseAuth verify' authorization
        = firebaseAuth verifyIdToken authorization).
Proof.
  assert (Hparts : forall h scheme token,
            split_space h = [scheme; token] ->
            h = scheme ++ " " ++ token /\ spaceless token).
  { intros h scheme token Hs. split.
    - rewrite <- (split_space_join h), Hs. reflexivity.
    - pose proof (split_space_spaceless h) as Hall. rewrite Hs in Hall.
      inversion Hall as [|? ? _ Hrest]; subst.
      by inversion Hrest. }
  split.
  - intros user. split.
    + unfold firebaseAuth.
      destruct authorization as [h|]; [|discriminate].
      destruct (truthy_str h); simpl; [|discriminate].
      destruct (split_space h) as [|scheme [|token [|? ?]]] eqn:Hs;
        try discriminate.
      destruct (String.eqb_spec scheme "Bearer") as [->|]; [|discriminate].
      destruct (Hparts _ _ _ Hs) as (-> & Htoken).
      destruct (verifyIdToken token) as [errorCode|decoded] eqn:Hv.
      * repeat (match goal with
                | |- context [if ?b then _ else _] => destruct b
                end; try discriminate).
      * intros [= <-]. exists token. by repeat split.
    + intros (token & -> & Htoken & Hv). unfold firebaseAuth.
      change ("Bearer " ++ token) with ("Bearer" ++ String " " token).
      rewrite split_space_app.
      * rewrite (split_space_whole token Htoken). simpl. by rewrite Hv.
      * intros c Hin. simpl in Hin.
        repeat (destruct Hin as [<-|Hin]; [discriminate|]). destruct Hin.
  - intros verify' Hsame. unfold firebaseAuth.
    destruct authorization as [h|]; [|reflexivity].
    destruct (truthy_str h); simpl; [|reflexivity].
    destruct (split_space h) as [|scheme [|token [|? ?]]] eqn:Hs;
      try reflexivity.
    destruct (String.eqb_spec scheme "Bearer") as [->|]; [|reflexivity].
    destruct (Hparts _ _ _ Hs) as (-> & _).
    by rewrite (Hsame token eq_refl).
Qed.

End AuthFacts.
